(** * FMStats: the analysis engine of the music listening history analyzer

    A shallow embedding of [src/utils/musicAnalyzer.ts] (class
    [MusicAnalyzer]) and of its second variant, whose [parseCSV] reads
    the file through Papa Parse, together with the record types of
    [types/music.ts].

    Conventions of the embedding.
    - A JavaScript string is a [string]: a sequence of code units, here
      restricted to U+0000..U+00FF.
    - A JavaScript number holding an integer is the [Z] it denotes,
      [NaN] is [None].  Doubles hold integers exactly up to 2^53 in
      absolute value ([JS.safe_integer]); a statement about sums of
      arbitrary numbers carries that bound as a hypothesis.  A quotient
      is the rational number ([Q]) of which the source holds the nearest
      double, and a division that can be by zero returns an [option]:
      [None] is a result that is not a finite number ([JS.div]).
    - An optional property ([duration?: string]) is an [option]: [None]
      is [undefined].
    - A plain object used as a dictionary is a [JS.Obj]: the list of its
      own properties in creation order, enumerated by
      [JS.Object_entries] in the order of the language (array indices
      first, ascending, then the other keys in creation order).  Keys
      naming a member of [Object.prototype] are outside this model; see
      [JS.inherited_key].
    - The mutable analyzer object is a record threaded through every
      method; a method that can throw returns the state reached at the
      throw together with the error. *)

From Stdlib Require Import ZArith QArith String Ascii List Lia Sorted Permutation.
From stdpp Require Import gmap strings pretty.
Import ListNotations.
Local Close Scope Q_scope.
Local Open Scope string_scope.

(** ** JavaScript primitives used by the analyzer *)

Module JS.

(** WhiteSpace and LineTerminator code units below U+0100: TAB, LF, VT,
    FF, CR, SP and NBSP. *)
Definition is_ws (c : ascii) : bool :=
  let n := nat_of_ascii c in
  Nat.eqb n 9 || Nat.eqb n 10 || Nat.eqb n 11 || Nat.eqb n 12
  || Nat.eqb n 13 || Nat.eqb n 32 || Nat.eqb n 160.

Fixpoint trimStart (s : string) : string :=
  match s with
  | String c r => if is_ws c then trimStart r else s
  | EmptyString => EmptyString
  end.

Fixpoint trimEnd (s : string) : string :=
  match s with
  | EmptyString => EmptyString
  | String c r =>
      match trimEnd r with
      | EmptyString => if is_ws c then EmptyString else String c EmptyString
      | r' => String c r'
      end
  end.

(** [String.prototype.trim] *)
Definition trim (s : string) : string := trimEnd (trimStart s).

(** [s.trim() !== ''] *)
Definition non_blank (s : string) : bool := negb (String.eqb (trim s) EmptyString).

(** [s.split(c)] for a one-character separator. *)
Fixpoint split (c : ascii) (s : string) : list string :=
  match s with
  | EmptyString => [EmptyString]
  | String x r =>
      if Ascii.eqb x c then EmptyString :: split c r
      else match split c r with
           | h :: t => String x h :: t
           | [] => [String x EmptyString]
           end
  end.

(** [xs.includes(x)] and [xs.indexOf(x)] on arrays of strings; [None]
    is the index -1. *)
Definition includes (xs : list string) (x : string) : bool :=
  existsb (String.eqb x) xs.

Fixpoint indexOf (xs : list string) (x : string) : option nat :=
  match xs with
  | [] => None
  | y :: r => if String.eqb y x then Some 0%nat
              else option_map S (indexOf r x)
  end.

(** [xs[i]] where [i] is the result of [indexOf]: [undefined] out of
    range and at index -1. *)
Definition at_index (xs : list string) (i : option nat) : option string :=
  match i with
  | Some n => nth_error xs n
  | None => None
  end.

(** [v || d] for a string or undefined [v]: the empty string and
    [undefined] are falsy. *)
Definition or_string (v : option string) (d : string) : string :=
  match v with
  | Some EmptyString | None => d
  | Some s => s
  end.

(** [v || undefined] *)
Definition or_undefined (v : option string) : option string :=
  match v with
  | Some EmptyString | None => None
  | Some s => Some s
  end.

(** [Array.prototype.findIndex]; [None] is -1. *)
Fixpoint findIndex {A} (p : A -> bool) (xs : list A) : option nat :=
  match xs with
  | [] => None
  | x :: r => if p x then Some 0%nat else option_map S (findIndex p r)
  end.

(** *** parseInt *)

Definition digit_value (c : ascii) : option N :=
  let n := N_of_ascii c in
  if (N.leb 48 n && N.leb n 57)%bool then Some (n - 48)%N
  else if (N.leb 97 n && N.leb n 122)%bool then Some (n - 87)%N
  else if (N.leb 65 n && N.leb n 90)%bool then Some (n - 55)%N
  else None.

Definition radix_digit (R : N) (c : ascii) : option N :=
  match digit_value c with
  | Some d => if N.ltb d R then Some d else None
  | None => None
  end.

(** The longest prefix of radix-[R] digits, as a number; [acc] is
    [None] while no digit has been read. *)
Fixpoint parse_digits (R : N) (s : string) (acc : option N) : option N :=
  match s with
  | String c r =>
      match radix_digit R c with
      | Some d =>
          parse_digits R r
            (Some (match acc with Some a => a * R + d | None => d end)%N)
      | None => acc
      end
  | EmptyString => acc
  end.

(** The integers a double holds without rounding, and whose sums are
    exact as long as they stay in this range: up to [2^53] in absolute
    value. *)
Definition safe_integer (z : Z) : bool := (Z.abs z <=? 2 ^ 53)%Z.

(** [parseInt(s)] with no radix argument: leading white space, a sign,
    an optional [0x]/[0X] prefix, then digits; [None] is [NaN].  The
    result is the integer the digits denote.  The source holds the
    double nearest to it: the same number when it is a [safe_integer],
    a rounded one or an infinity beyond; never [NaN] for a string that
    starts with a digit. *)
Definition parseInt (s : string) : option Z :=
  let s0 := trimStart s in
  let '(sign, s1) :=
    match s0 with
    | String "-" r => ((-1)%Z, r)
    | String "+" r => (1%Z, r)
    | _ => (1%Z, s0)
    end in
  let '(R, s2) :=
    match s1 with
    | String "0" (String "x" r) => (16%N, r)
    | String "0" (String "X" r) => (16%N, r)
    | _ => (10%N, s1)
    end in
  match parse_digits R s2 None with
  | Some n => Some (sign * Z.of_N n)%Z
  | None => None
  end.

(** [parseInt(v)] for an optional string: [undefined] is first
    converted to the string ["undefined"]. *)
Definition parseInt_opt (v : option string) : option Z :=
  match v with
  | Some s => parseInt s
  | None => parseInt "undefined"
  end.

(** *** Division *)

(** [a / b] for a finite divisor [b]; [None] is a result that is not a
    finite number: [NaN] (as [0 / 0] and [NaN / b]) or an infinity (as
    [1 / 0]).  A finite quotient is the rational number, of which the
    source holds the nearest double. *)
Definition div (a : option Q) (b : Q) : option Q :=
  match a with
  | Some x => if Qeq_bool b 0 then None else Some (x / b)%Q
  | None => None
  end.

(** [n || 0] for a number: [NaN] and [0] are falsy. *)
Definition or_zero (n : option Z) : Z :=
  match n with
  | Some z => z
  | None => 0%Z
  end.

(** [String(n)] for a number that is a non-negative integer or [NaN]
    ([None]): the decimal digits, or ["NaN"]. *)
Definition String_of_number (n : option nat) : string :=
  match n with
  | Some k => pretty k
  | None => "NaN"
  end.

(** Truthiness of an optional string: [undefined] and the empty string
    are falsy. *)
Definition truthy (v : option string) : bool :=
  match v with
  | Some EmptyString | None => false
  | Some _ => true
  end.

(** *** Plain objects as dictionaries *)

Definition Obj (V : Type) : Type := list (string * V).

Fixpoint get {V} (o : Obj V) (k : string) : option V :=
  match o with
  | [] => None
  | (k', v) :: r => if String.eqb k' k then Some v else get r k
  end.

(** [o[k] = v]: an existing property keeps its place, a new one is
    created last. *)
Fixpoint set {V} (o : Obj V) (k : string) (v : V) : Obj V :=
  match o with
  | [] => [(k, v)]
  | (k', v') :: r =>
      if String.eqb k' k then (k', v) :: r else (k', v') :: set r k v
  end.

Fixpoint all_digits (s : string) : bool :=
  match s with
  | EmptyString => true
  | String c r =>
      (N.leb 48 (N_of_ascii c) && N.leb (N_of_ascii c) 57)%bool
      && all_digits r
  end.

(** A canonical numeric string: ["0"], or digits with no leading zero. *)
Definition canonical_numeric (s : string) : bool :=
  match s with
  | EmptyString => false
  | String "0" EmptyString => true
  | String "0" _ => false
  | _ => all_digits s
  end.

(** The array index a property key denotes, if any: a canonical
    numeric string of value at most 2^32 - 2. *)
Definition array_index (k : string) : option N :=
  if canonical_numeric k then
    match parse_digits 10 k None with
    | Some n => if N.ltb n 4294967295 then Some n else None
    | None => None
    end
  else None.

Definition is_array_index (k : string) : bool :=
  match array_index k with Some _ => true | None => false end.

Fixpoint insert_index {V} (x : N * (string * V))
    (l : list (N * (string * V))) : list (N * (string * V)) :=
  match l with
  | [] => [x]
  | y :: r => if N.leb (fst x) (fst y) then x :: l
              else y :: insert_index x r
  end.

(** The array-index properties of [o], ascending. *)
Fixpoint index_entries {V} (o : Obj V) : list (N * (string * V)) :=
  match o with
  | [] => []
  | (k, v) :: r =>
      match array_index k with
      | Some n => insert_index (n, (k, v)) (index_entries r)
      | None => index_entries r
      end
  end.

(** [Object.entries(o)]: array indices in ascending numeric order, then
    the other string keys in creation order. *)
Definition Object_entries {V} (o : Obj V) : list (string * V) :=
  List.map snd (index_entries o)
  ++ List.filter (fun kv => negb (is_array_index (fst kv))) o.

(** The names of the properties of [Object.prototype].  Reading such a
    key from an object literal yields the inherited member instead of
    [undefined], which the dictionary model does not represent. *)
Definition inherited_key (k : string) : bool :=
  includes
    ["constructor"; "__proto__"; "hasOwnProperty"; "isPrototypeOf";
     "propertyIsEnumerable"; "toLocaleString"; "toString"; "valueOf";
     "__defineGetter__"; "__defineSetter__"; "__lookupGetter__";
     "__lookupSetter__"] k.

(** *** Array.prototype.sort and slice *)

(** [insert cmp x l]: [x], which stood before every element of [l],
    moves behind [y] only when [cmp x y > 0]. *)
Fixpoint insert {A} (cmp : A -> A -> Z) (x : A) (l : list A) : list A :=
  match l with
  | [] => [x]
  | y :: r => if Z.ltb 0 (cmp x y) then y :: insert cmp x r else x :: l
  end.

(** [xs.sort(cmp)]: the sort is stable, so for a consistent comparator
    its result is that of a stable insertion sort. *)
Fixpoint sort {A} (cmp : A -> A -> Z) (l : list A) : list A :=
  match l with
  | [] => []
  | x :: r => insert cmp x (sort cmp r)
  end.

(** [xs.slice(0, n)]; [None] is [Infinity]. *)
Definition slice0 {A} (n : option nat) (l : list A) : list A :=
  match n with
  | Some k => firstn k l
  | None => l
  end.

End JS.

(** ** The record types of [types/music.ts] and of the analyzer *)

Module Track.
Record t : Type := mk {
  artist : string;
  album : string;
  track : string;
  count : option Z;
  duration : option string;
  genre : option string;
  utc_time : option string;
  feat : option string;
  prod : option string;
  label : option string
}.
End Track.

Module TopItem.
Record t : Type := mk {
  name : string;
  count : Z;
  artist : option string;
  album : option string;
  duration : option string;
  genre : option string
}.
End TopItem.

(** [TrackMetadata], also used as [Partial<TrackMetadata>]: [None] is a
    key the object does not have. *)
Module TrackMetadata.
Record t : Type := mk {
  duration : option string;
  genre : option string;
  feat : option string;
  prod : option string;
  label : option string
}.

(** The object literal [{}]. *)
Definition empty : t := mk None None None None None.

(** The object spread [{...old, ...updates}]. *)
Definition spread (old updates : t) : t :=
  mk (match duration updates with Some v => Some v | None => duration old end)
     (match genre updates with Some v => Some v | None => genre old end)
     (match feat updates with Some v => Some v | None => feat old end)
     (match prod updates with Some v => Some v | None => prod old end)
     (match label updates with Some v => Some v | None => label old end).
End TrackMetadata.

(** A row of [originalData]: the eight columns of [RawTrack], and the
    five enrichment columns [saveToCSV] adds to it. *)
Module RawTrack.
Record t : Type := mk {
  uts : string;
  utc_time : string;
  artist : string;
  artist_mbid : string;
  album : string;
  album_mbid : string;
  track : string;
  track_mbid : string;
  enriched : option TrackMetadata.t
}.
End RawTrack.

(** The part of [Statistics] that does not depend on the clock: the
    three [listeningPatterns] histograms are computed from [Date]
    objects in the local time zone and are left out. *)
Module Statistics.
(** The two times are quotients: rational numbers here, of which the
    source holds the nearest double; [None] is a quotient that is not a
    finite number. *)
Record t : Type := mk {
  totalListeningTime : Q;
  averageTrackDuration : option Q;
  topArtists : list TopItem.t;
  topAlbums : list TopItem.t;
  topTracks : list TopItem.t
}.
End Statistics.

(** ** The class [MusicAnalyzer]: the code shared by both variants *)

Module MusicAnalyzer.

(** The fields of the object, and the browser's [localStorage].  The
    item stored under a name is JSON text; it is represented by the
    overlay map it encodes. *)
Record t : Type := mk {
  tracks : list Track.t;
  originalData : list RawTrack.t;
  metadata : gmap string TrackMetadata.t;
  localStorage : gmap string (gmap string TrackMetadata.t)
}.

Definition createTrackKey (artist album track : string) : string :=
  artist ++ "|" ++ album ++ "|" ++ track.

(** [constructor()] *)
Definition new (storage : gmap string (gmap string TrackMetadata.t)) : t :=
  mk [] []
     (match storage !! "trackMetadata" with
      | Some saved => saved
      | None => ∅
      end)
     storage.

Definition saveMetadata (this : t) : t :=
  mk (tracks this) (originalData this) (metadata this)
     (<["trackMetadata" := metadata this]> (localStorage this)).

(** [Object.assign(track, updates)] *)
Definition assign (updates : TrackMetadata.t) (tr : Track.t) : Track.t :=
  Track.mk (Track.artist tr) (Track.album tr) (Track.track tr)
    (Track.count tr)
    (match TrackMetadata.duration updates with
     | Some v => Some v | None => Track.duration tr end)
    (match TrackMetadata.genre updates with
     | Some v => Some v | None => Track.genre tr end)
    (Track.utc_time tr)
    (match TrackMetadata.feat updates with
     | Some v => Some v | None => Track.feat tr end)
    (match TrackMetadata.prod updates with
     | Some v => Some v | None => Track.prod tr end)
    (match TrackMetadata.label updates with
     | Some v => Some v | None => Track.label tr end).

(** The predicate given to [findIndex] by the two update methods. *)
Definition same_track (artist album track : string) (tr : Track.t) : bool :=
  String.eqb (Track.artist tr) artist
  && String.eqb (Track.album tr) album
  && String.eqb (Track.track tr) track.

Definition updateTrackMetadata (artist album track : string)
    (updates : TrackMetadata.t) (this : t) : t :=
  let trackKey := createTrackKey artist album track in
  let metadata' :=
    <[trackKey :=
        TrackMetadata.spread
          (match metadata this !! trackKey with
           | Some old => old
           | None => TrackMetadata.empty
           end)
          updates]> (metadata this) in
  let trackIndex := JS.findIndex (same_track artist album track) (tracks this) in
  let tracks' :=
    match trackIndex with
    | Some i => alter (assign updates) i (tracks this)
    | None => tracks this
    end in
  saveMetadata (mk tracks' (originalData this) metadata' (localStorage this)).

(** [updateTrackDuration]: the entry becomes [{...old, duration}] and
    the first record of the identity gets its [duration] assigned. *)
Definition set_duration (duration : string) (tr : Track.t) : Track.t :=
  Track.mk (Track.artist tr) (Track.album tr) (Track.track tr)
    (Track.count tr) (Some duration) (Track.genre tr) (Track.utc_time tr)
    (Track.feat tr) (Track.prod tr) (Track.label tr).

Definition updateTrackDuration (artist album track duration : string)
    (this : t) : t :=
  let trackKey := createTrackKey artist album track in
  let old :=
    match metadata this !! trackKey with
    | Some old => old
    | None => TrackMetadata.empty
    end in
  let metadata' :=
    <[trackKey :=
        TrackMetadata.mk (Some duration) (TrackMetadata.genre old)
          (TrackMetadata.feat old) (TrackMetadata.prod old)
          (TrackMetadata.label old)]> (metadata this) in
  let trackIndex := JS.findIndex (same_track artist album track) (tracks this) in
  let tracks' :=
    match trackIndex with
    | Some i => alter (set_duration duration) i (tracks this)
    | None => tracks this
    end in
  saveMetadata (mk tracks' (originalData this) metadata' (localStorage this)).

(** [saveToCSV]: every row of [originalData] receives the enrichment
    fields of the track at the same index, and the rows are handed to
    [Papa.unparse], a function of the CSV library.  The result is the
    CSV text of the returned file and the updated object.  [None] is
    the [TypeError] raised when [tracks] is shorter than
    [originalData]. *)
Fixpoint enrich (rows : list RawTrack.t) (trs : list Track.t)
    : option (list RawTrack.t) :=
  match rows with
  | [] => Some []
  | row :: rows' =>
      match trs with
      | [] => None
      | tr :: trs' =>
          match enrich rows' trs' with
          | Some out =>
              Some (RawTrack.mk (RawTrack.uts row) (RawTrack.utc_time row)
                      (RawTrack.artist row) (RawTrack.artist_mbid row)
                      (RawTrack.album row) (RawTrack.album_mbid row)
                      (RawTrack.track row) (RawTrack.track_mbid row)
                      (Some (TrackMetadata.mk (Track.duration tr)
                               (Track.genre tr) (Track.feat tr)
                               (Track.prod tr) (Track.label tr)))
                    :: out)
          | None => None
          end
      end
  end.

Definition saveToCSV (unparse : list RawTrack.t -> string) (this : t)
    : option (string * t) :=
  match enrich (originalData this) (tracks this) with
  | Some rows =>
      Some (unparse rows,
            mk (tracks this) rows (metadata this) (localStorage this))
  | None => None
  end.

(** [countOccurrences]: [acc[key] = (acc[key] || 0) + 1] for every
    item, from the empty object. *)
Definition countOccurrences (items : list string) : JS.Obj Z :=
  fold_left
    (fun acc key => JS.set acc key (JS.or_zero (JS.get acc key) + 1)%Z)
    items [].

Definition getTopItems (items : JS.Obj Z) (n : option nat)
    : list TopItem.t :=
  JS.slice0 n
    (JS.sort (fun a b => (TopItem.count b - TopItem.count a)%Z)
       (List.map (fun '(name, count) =>
                    TopItem.mk name count None None None None)
          (List.filter
             (fun '(name, _) =>
                negb (String.eqb name EmptyString) && JS.non_blank name)
             (JS.Object_entries items)))).

(** The value type of [trackCounts] in [getTopTracks]. *)
Record TrackCount : Type := mkTrackCount {
  tc_count : Z;
  tc_artist : string;
  tc_album : string;
  tc_duration : option string;
  tc_genre : option string
}.

Definition count_track (trackCounts : JS.Obj TrackCount) (tr : Track.t)
    : JS.Obj TrackCount :=
  let key := Track.artist tr ++ "|" ++ Track.album tr ++ "|" ++ Track.track tr in
  let trackCounts' :=
    match JS.get trackCounts key with
    | Some _ => trackCounts
    | None =>
        JS.set trackCounts key
          (mkTrackCount 0 (Track.artist tr) (Track.album tr)
             (Track.duration tr) (Track.genre tr))
    end in
  match JS.get trackCounts' key with
  | Some d =>
      JS.set trackCounts' key
        (mkTrackCount (tc_count d + 1) (tc_artist d) (tc_album d)
           (tc_duration d) (tc_genre d))
  | None => trackCounts'
  end.

Definition getTopTracks (this : t) (n : option nat) : list TopItem.t :=
  let trackCounts :=
    fold_left count_track
      (List.filter (fun tr => JS.non_blank (Track.track tr)) (tracks this))
      [] in
  JS.slice0 n
    (JS.sort (fun a b => (TopItem.count b - TopItem.count a)%Z)
       (List.map (fun '(key, data) =>
                    TopItem.mk (nth 2 (JS.split "|" key) EmptyString)
                      (tc_count data) (Some (tc_artist data))
                      (Some (tc_album data)) (tc_duration data)
                      (tc_genre data))
          (JS.Object_entries trackCounts))).

(** [track.duration !== ''] *)
Definition duration_set (tr : Track.t) : bool :=
  match Track.duration tr with
  | Some EmptyString => false
  | _ => true
  end.

Definition tracksWithDuration (this : t) : list Track.t :=
  List.filter duration_set (tracks this).

(** The sum is the sum of the integers; it is the number the source
    computes as long as the absolute values of the summands add up to a
    [JS.safe_integer]. *)
Definition totalDuration (this : t) : Z :=
  fold_left
    (fun sum tr => (sum + JS.or_zero (JS.parseInt_opt (Track.duration tr)))%Z)
    (tracksWithDuration this) 0%Z.

Definition averageDuration (this : t) : option Q :=
  if Nat.ltb 0 (length (tracksWithDuration this))
  then JS.div (Some (inject_Z (totalDuration this)))
         (inject_Z (Z.of_nat (length (tracksWithDuration this))))
  else Some 0%Q.

Definition analyze (this : t) : Statistics.t :=
  let artistCounts :=
    countOccurrences
      (List.map Track.artist
         (List.filter (fun tr => JS.non_blank (Track.artist tr)) (tracks this))) in
  let albumCounts :=
    countOccurrences
      (List.map Track.album
         (List.filter (fun tr => JS.non_blank (Track.album tr)) (tracks this))) in
  Statistics.mk
    (inject_Z (totalDuration this) / 3600)%Q
    (JS.div (averageDuration this) 60)
    (getTopItems artistCounts None)
    (getTopItems albumCounts None)
    (getTopTracks this None).

(** The listening patterns.  [analyze] derives the hour, the weekday
    name and the month name of every record from a [Date] in the local
    time zone; the three functions below are what it does with those
    lists.  An hour is a number from [getHours], [None] when the date is
    invalid. *)
Definition by_second_desc {A} (a b : A * Z) : Z := (snd b - snd a)%Z.

Definition getListeningPatternsByDay (days : list string) : list (string * Z) :=
  JS.slice0 (Some 7%nat)
    (JS.sort by_second_desc
       (List.map (fun '(day, count) => (day, count))
          (JS.Object_entries (countOccurrences days)))).

Definition getListeningPatternsByMonth (months : list string) : list (string * Z) :=
  JS.slice0 (Some 12%nat)
    (JS.sort by_second_desc
       (List.map (fun '(month, count) => (month, count))
          (JS.Object_entries (countOccurrences months)))).

(** [Array.from({ length: 24 }, (_, i) => ({ hour: i, count: hourCounts[i] || 0 }))] *)
Definition hourlyPatterns (hours : list (option nat)) : list (nat * Z) :=
  let hourCounts := countOccurrences (List.map JS.String_of_number hours) in
  List.map
    (fun i => (i, JS.or_zero (JS.get hourCounts (JS.String_of_number (Some i)))))
    (seq 0 24).

End MusicAnalyzer.

(** ** [parseCSV] of [src/utils/musicAnalyzer.ts]: the text is split by hand *)

Module TextVariant.
Import MusicAnalyzer.

Inductive Error : Type :=
| CsvEmpty                                   (* 'CSV file is empty' *)
| TooFewLines                                (* 'CSV file must contain at least ...' *)
| MissingColumns (missing : list string)     (* 'Missing required columns: ...' *)
| InvalidRow (row expected got : nat)        (* 'Invalid data in row ...' *)
| InvalidCount (row : nat) (value : option string) (* 'Invalid count value in row ...' *)
| NoValidTracks.                             (* 'No valid tracks found in CSV file' *)

Definition requiredHeaders : list string := ["Artist"; "Album"; "Track"; "Count"].

(** The body of the [for] loop over [lines[i]], [i >= 1]; [acc] is
    [this.tracks].  An error is returned with the tracks pushed before
    the throw. *)
Fixpoint parse_rows (headers rest : list string) (i : nat)
    (acc : list Track.t) : list Track.t * option Error :=
  match rest with
  | [] => (acc, None)
  | l :: rest' =>
      let line := JS.trim l in
      if String.eqb line EmptyString then parse_rows headers rest' (S i) acc
      else
        let values := List.map JS.trim (JS.split "," line) in
        if negb (Nat.eqb (length values) (length headers))
        then (acc, Some (InvalidRow (i + 1) (length headers) (length values)))
        else
          let artist := JS.or_string (JS.at_index values (JS.indexOf headers "Artist")) EmptyString in
          let album := JS.or_string (JS.at_index values (JS.indexOf headers "Album")) EmptyString in
          let track := JS.or_string (JS.at_index values (JS.indexOf headers "Track")) EmptyString in
          let count := JS.parseInt (JS.or_string (JS.at_index values (JS.indexOf headers "Count")) "0") in
          let duration := JS.or_undefined (JS.at_index values (JS.indexOf headers "Duration")) in
          let genre := JS.or_undefined (JS.at_index values (JS.indexOf headers "Genre")) in
          let utc_time := JS.or_undefined (JS.at_index values (JS.indexOf headers "UTC Time")) in
          match count with
          | None =>
              (acc, Some (InvalidCount (i + 1)
                            (JS.at_index values (JS.indexOf headers "Count"))))
          | Some c =>
              parse_rows headers rest' (S i)
                (acc ++ [Track.mk artist album track (Some c) duration genre
                           utc_time None None None])
          end
  end.

(** The first line of the text, split into trimmed header names. *)
Definition header_names (text : string) : list string :=
  List.map JS.trim (JS.split "," (hd EmptyString (JS.split "010" text))).

(** [parseCSV].  The method [loadMetadata] it ends with is a parameter
    here; the failure exits do not reach it. *)
Definition parseCSV (loadMetadata : t -> t) (text : string) (this : t)
    : t * option Error :=
  if String.eqb (JS.trim text) EmptyString then (this, Some CsvEmpty)
  else
    let lines := JS.split "010" text in
    if Nat.ltb (length lines) 2 then (this, Some TooFewLines)
    else
      let headers := header_names text in
      let missingHeaders :=
        List.filter (fun h => negb (JS.includes headers h)) requiredHeaders in
      if Nat.ltb 0 (length missingHeaders)
      then (this, Some (MissingColumns missingHeaders))
      else
        let '(trs, err) := parse_rows headers (tl lines) 1 [] in
        let this' := mk trs (originalData this) (metadata this) (localStorage this) in
        match err with
        | Some e => (this', Some e)
        | None =>
            if Nat.eqb (length trs) 0 then (this', Some NoValidTracks)
            else (loadMetadata this', None)
        end.

(** Modelled from the spec: the merge rule of the overlay.  The overlay
    supplies a field the record lacks; a non-empty value of the record
    is kept. *)
Definition supply (own overlay : option string) : option string :=
  match own with
  | Some EmptyString | None =>
      match overlay with Some v => Some v | None => own end
  | Some v => Some v
  end.

(** Modelled from the spec: [applyTo] on one record.  The overlay entry
    of the identity key of the record, if any, is merged into it. *)
Definition applyTo (overlay : gmap string TrackMetadata.t) (tr : Track.t)
    : Track.t :=
  match overlay !! createTrackKey (Track.artist tr) (Track.album tr) (Track.track tr) with
  | Some m =>
      Track.mk (Track.artist tr) (Track.album tr) (Track.track tr)
        (Track.count tr)
        (supply (Track.duration tr) (TrackMetadata.duration m))
        (supply (Track.genre tr) (TrackMetadata.genre m))
        (Track.utc_time tr)
        (supply (Track.feat tr) (TrackMetadata.feat m))
        (supply (Track.prod tr) (TrackMetadata.prod m))
        (supply (Track.label tr) (TrackMetadata.label m))
  | None => tr
  end.

(** Modelled from the spec: [loadMetadata], the method [parseCSV] calls
    last; its body is not part of the sources.  Every held record
    receives the overlay entry of its identity. *)
Definition loadMetadata (this : t) : t :=
  mk (List.map (applyTo (metadata this)) (tracks this))
     (originalData this) (metadata this) (localStorage this).

End TextVariant.

(** ** [parseCSV] of the second variant: the file goes through Papa Parse *)

Module PapaVariant.
Import MusicAnalyzer.

(** What [Papa.parse] hands back: either the [complete] callback runs
    on [results] (rows keyed by trimmed header name, values trimmed,
    and the library's error list), or the [error] callback runs. *)
Record ParseResult : Type := mkResult {
  data : list (gmap string string);
  errors : list string
}.

Inductive PapaOutcome : Type :=
| Complete (results : ParseResult)
| Failed (error : string).

Inductive Error : Type :=
| ParseErrors (message : string)   (* 'Error parsing CSV file: ' + message *)
| NoValidData                      (* 'No valid data found in CSV file' *)
| PapaError (error : string).

(** [row.name || ''] *)
Definition column (row : gmap string string) (name : string) : string :=
  JS.or_string (row !! name) EmptyString.

Definition rawTrack (row : gmap string string) : RawTrack.t :=
  RawTrack.mk (column row "uts") (column row "utc_time")
    (column row "artist") (column row "artist_mbid")
    (column row "album") (column row "album_mbid")
    (column row "track") (column row "track_mbid") None.

Definition noMetadata : TrackMetadata.t :=
  TrackMetadata.mk (Some EmptyString) (Some EmptyString) (Some EmptyString) (Some EmptyString) (Some EmptyString).

(** The arrow function mapped over [originalData]. *)
Definition toTrack (overlay : gmap string TrackMetadata.t)
    (row : RawTrack.t) : Track.t :=
  let trackKey :=
    createTrackKey (RawTrack.artist row) (RawTrack.album row) (RawTrack.track row) in
  let savedMetadata :=
    match overlay !! trackKey with
    | Some m => m
    | None => noMetadata
    end in
  Track.mk (RawTrack.artist row) (RawTrack.album row) (RawTrack.track row)
    None
    (TrackMetadata.duration savedMetadata)
    (TrackMetadata.genre savedMetadata)
    (Some (RawTrack.utc_time row))
    (TrackMetadata.feat savedMetadata)
    (TrackMetadata.prod savedMetadata)
    (TrackMetadata.label savedMetadata).

Definition parseCSV (outcome : PapaOutcome) (this : t) : t * option Error :=
  match outcome with
  | Failed e => (this, Some (PapaError e))
  | Complete results =>
      match errors results with
      | e :: _ => (this, Some (ParseErrors e))
      | [] =>
          if Nat.eqb (length (data results)) 0 then (this, Some NoValidData)
          else
            let originalData' := List.map rawTrack (data results) in
            (mk (List.map (toTrack (metadata this)) originalData')
                originalData' (metadata this) (localStorage this),
             None)
      end
  end.

(** The analyzers of this variant: what the constructor yields, and what
    the methods make of it.  [unparse] stands for [Papa.unparse]. *)
Inductive reachable : t -> Prop :=
| reach_new storage : reachable (new storage)
| reach_parseCSV outcome this :
    reachable this -> reachable (fst (parseCSV outcome this))
| reach_updateTrackMetadata artist album track updates this :
    reachable this ->
    reachable (updateTrackMetadata artist album track updates this)
| reach_updateTrackDuration artist album track duration this :
    reachable this ->
    reachable (updateTrackDuration artist album track duration this)
| reach_saveToCSV unparse this csv this' :
    reachable this -> saveToCSV unparse this = Some (csv, this') ->
    reachable this'.

End PapaVariant.

(** ** The callers in [src/app/page.tsx] *)

Module Page.

Record SongDuration : Type := mkSong {
  artist : string;
  album : string;
  track : string;
  duration : string;
  genre : option string
}.

(** [stats] is [null] before the first load. *)
Definition getNextSongWithoutDuration (stats : option Statistics.t)
    : option SongDuration :=
  match stats with
  | None => None
  | Some stats =>
      match List.find (fun t => negb (JS.truthy (TopItem.duration t)))
              (Statistics.topTracks stats) with
      | Some track =>
          Some (mkSong (JS.or_string (TopItem.artist track) EmptyString)
                  (JS.or_string (TopItem.album track) EmptyString)
                  (TopItem.name track) EmptyString (TopItem.genre track))
      | None => None
      end
  end.

Definition getNextSongWithoutGenre (stats : option Statistics.t)
    : option SongDuration :=
  match stats with
  | None => None
  | Some stats =>
      match List.find (fun t => negb (JS.truthy (TopItem.genre t)))
              (Statistics.topTracks stats) with
      | Some track =>
          Some (mkSong (JS.or_string (TopItem.artist track) EmptyString)
                  (JS.or_string (TopItem.album track) EmptyString)
                  (TopItem.name track)
                  (JS.or_string (TopItem.duration track) EmptyString)
                  (Some EmptyString))
      | None => None
      end
  end.

(** The part of the component state the submit handlers read and
    write.  The analyzer is one object, mutated in place. *)
Record State : Type := mkState {
  statistics : option Statistics.t;
  showDurationInput : bool;
  showGenreInput : bool;
  currentSong : option SongDuration;
  currentGenreSong : option SongDuration;
  analyzer : option MusicAnalyzer.t
}.

(** [handleDurationSubmit]; the download of the saved file has no
    effect on the state.  When [saveToCSV] throws, the statements after
    it are not reached. *)
Definition handleDurationSubmit (unparse : list RawTrack.t -> string)
    (duration : string) (st : State) : State :=
  match currentSong st, analyzer st, statistics st with
  | Some song, Some an, Some _ =>
      let an1 :=
        MusicAnalyzer.updateTrackMetadata (artist song) (album song) (track song)
          (TrackMetadata.mk (Some duration) None None None None) an in
      let updatedStats := MusicAnalyzer.analyze an1 in
      match MusicAnalyzer.saveToCSV unparse an1 with
      | None =>
          mkState (Some updatedStats) (showDurationInput st) (showGenreInput st)
            (currentSong st) (currentGenreSong st) (Some an1)
      | Some (_, an2) =>
          let nextSong := getNextSongWithoutDuration (Some updatedStats) in
          mkState (Some updatedStats)
            (match nextSong with
             | Some _ => showDurationInput st
             | None => false
             end)
            (showGenreInput st) nextSong (currentGenreSong st) (Some an2)
      end
  | _, _, _ => st
  end.

(** [handleGenreSubmit], the same steps for the genre. *)
Definition handleGenreSubmit (unparse : list RawTrack.t -> string)
    (genre : string) (st : State) : State :=
  match currentGenreSong st, analyzer st, statistics st with
  | Some song, Some an, Some _ =>
      let an1 :=
        MusicAnalyzer.updateTrackMetadata (artist song) (album song) (track song)
          (TrackMetadata.mk None (Some genre) None None None) an in
      let updatedStats := MusicAnalyzer.analyze an1 in
      match MusicAnalyzer.saveToCSV unparse an1 with
      | None =>
          mkState (Some updatedStats) (showDurationInput st) (showGenreInput st)
            (currentSong st) (currentGenreSong st) (Some an1)
      | Some (_, an2) =>
          let nextSong := getNextSongWithoutGenre (Some updatedStats) in
          mkState (Some updatedStats) (showDurationInput st)
            (match nextSong with
             | Some _ => showGenreInput st
             | None => false
             end)
            (currentSong st) nextSong (Some an2)
      end
  | _, _, _ => st
  end.

End Page.

(** ** Vocabulary of the properties *)

(** A line feed, a fresh analyzer over an empty [localStorage], and an
    analyzer holding given records. *)
Definition nl : string := String "010" EmptyString.

Definition fresh : MusicAnalyzer.t := MusicAnalyzer.new ∅.

Definition holding (trs : list Track.t) : MusicAnalyzer.t :=
  MusicAnalyzer.mk trs [] ∅ ∅.

(** The record [parseCSV] builds from a row with the four required
    columns. *)
Definition row (artist album track : string) (count : Z) : Track.t :=
  Track.mk artist album track (Some count) None None None None None None.

Definition with_duration (d : string) (tr : Track.t) : Track.t :=
  MusicAnalyzer.assign (TrackMetadata.mk (Some d) None None None None) tr.

Definition two_rows_csv : string :=
  "Artist,Album,Track,Count" ++ nl ++ "A,X,T1,3" ++ nl ++ "A,X,T2,5".

Definition two_rows : list Track.t :=
  [row "A" "X" "T1" 3; row "A" "X" "T2" 5].

(** An entry of [topArtists] or [topAlbums], and the entry of
    [topTracks] for a group whose first record is [tr]. *)
Definition label_item (name : string) (count : Z) : TopItem.t :=
  TopItem.mk name count None None None None.

Definition track_item (tr : Track.t) (count : Z) : TopItem.t :=
  TopItem.mk
    (nth 2 (JS.split "|"
              (Track.artist tr ++ "|" ++ Track.album tr ++ "|" ++ Track.track tr)) EmptyString)
    count (Some (Track.artist tr)) (Some (Track.album tr))
    (Track.duration tr) (Track.genre tr).

(** The seconds one record adds to [totalDuration]: its parsed duration,
    whatever its play count; nothing when the duration is the empty
    string or does not start with a number. *)
Definition record_seconds (tr : Track.t) : Z :=
  if MusicAnalyzer.duration_set tr
  then JS.or_zero (JS.parseInt_opt (Track.duration tr))
  else 0%Z.

(** The number [n] is finite and is [q]. *)
Definition is_value (n : option Q) (q : Q) : Prop :=
  match n with
  | Some x => (x == q)%Q
  | None => False
  end.

(** The play count of a record; a record without a count stands for
    one play. *)
Definition playCount (tr : Track.t) : Z :=
  match Track.count tr with Some c => c | None => 1%Z end.

(** The seconds of one record as the specification words the total:
    duration times play count, for a present, parseable, non-negative
    duration. *)
Definition weighted_seconds (tr : Track.t) : Z :=
  match Track.duration tr with
  | Some d =>
      match JS.parseInt d with
      | Some n => if Z.leb 0 n then (n * playCount tr)%Z else 0%Z
      | None => 0%Z
      end
  | None => 0%Z
  end.

Definition sumZ (l : list Z) : Z := fold_right Z.add 0%Z l.

(** The durations of the records are numbers the source adds without
    rounding: the absolute values of the seconds of the records add up
    to a safe integer, so that every parsed duration and every partial
    sum is one. *)
Definition safe_durations (trs : list Track.t) : Prop :=
  JS.safe_integer (sumZ (List.map (fun tr => Z.abs (record_seconds tr)) trs)) = true.

(** A group with play count 3, before enrichment: as one record with
    Count 3, and as three play events loaded by the Papa variant. *)
Definition t1_thrice : MusicAnalyzer.t := holding [row "A" "X" "T1" 3].

Definition t1_three_events : MusicAnalyzer.t :=
  let event :=
    PapaVariant.toTrack ∅
      (RawTrack.mk EmptyString EmptyString "A" EmptyString "X" EmptyString
         "T1" EmptyString None) in
  holding [event; event; event].

Definition duration_120 : TrackMetadata.t :=
  TrackMetadata.mk (Some "120") None None None None.

Definition genre_rock : TrackMetadata.t :=
  TrackMetadata.mk None (Some "Rock") None None None.

(** ASCII lower case, to say that two header names differ in case only. *)
Definition lower_char (c : ascii) : ascii :=
  let n := nat_of_ascii c in
  if (Nat.leb 65 n && Nat.leb n 90)%bool then ascii_of_nat (n + 32) else c.

Fixpoint lower (s : string) : string :=
  match s with
  | EmptyString => EmptyString
  | String c r => String (lower_char c) (lower r)
  end.

Definition lower_case_csv : string :=
  "artist,album,track,count" ++ nl ++ "A,X,T1,3".

Definition padded_csv : string :=
  "  Artist , Album" ++ String "009" ",Track , Count " ++ String "013" nl
  ++ "A,X,T1,3".

(** The failures [parseCSV] raises before it resets [this.tracks]. *)
Definition early_failure (e : TextVariant.Error) : bool :=
  match e with
  | TextVariant.CsvEmpty | TextVariant.TooFewLines
  | TextVariant.MissingColumns _ => true
  | _ => false
  end.

Definition bad_count_csv : string :=
  "Artist,Album,Track,Count" ++ nl ++ "B,Y,T9,1" ++ nl ++ "C,Z,T8,abc".

(** Parse, save, parse again: the second parse succeeds and yields the
    records of the first.  [unparse] stands for [Papa.unparse]. *)
Definition round_trip (unparse : list RawTrack.t -> string)
    (text : string) (this : MusicAnalyzer.t) : Prop :=
  let loaded := TextVariant.parseCSV TextVariant.loadMetadata text this in
  snd loaded = None ->
  match MusicAnalyzer.saveToCSV unparse (fst loaded) with
  | Some (csv, saved) =>
      snd (TextVariant.parseCSV TextVariant.loadMetadata csv saved) = None
      /\ MusicAnalyzer.tracks (fst (TextVariant.parseCSV TextVariant.loadMetadata csv saved))
         = MusicAnalyzer.tracks (fst loaded)
  | None => False
  end.

Definition one_row_csv : string :=
  "Artist,Album,Track,Count" ++ nl ++ "A,X,T1,3".

(** A duration column that is empty in the first row. *)
Definition absent_duration_csv : string :=
  "Artist,Album,Track,Count,Duration" ++ nl ++ "A,X,T1,1," ++ nl
  ++ "A,X,T2,1,120".

(** The average as the specification words it: over the records with a
    present duration only, in minutes. *)
Definition has_duration (tr : Track.t) : bool :=
  match Track.duration tr with
  | Some EmptyString | None => false
  | Some _ => true
  end.

Definition average_over_present (trs : list Track.t) : Q :=
  let present := List.filter has_duration trs in
  if Nat.ltb 0 (length present)
  then (inject_Z (sumZ (List.map record_seconds present))
        / inject_Z (Z.of_nat (length present)) / 60)%Q
  else 0%Q.

(** The text after the [n]-th occurrence of [c] in [s]. *)
Fixpoint after_nth (c : ascii) (n : nat) (s : string) : string :=
  match n with
  | O => s
  | S m =>
      match s with
      | EmptyString => EmptyString
      | String x r => if Ascii.eqb x c then after_nth c m r else after_nth c n r
      end
  end.

(** A raw record, as the Papa variant loads it. *)
Definition raw (artist album track : string) : RawTrack.t :=
  RawTrack.mk EmptyString EmptyString artist EmptyString album EmptyString track EmptyString None.

(** The keys of a dictionary after property [k] is written: a new key
    goes last. *)
Definition add_key (k : string) (ks : list string) : list string :=
  if JS.includes ks k then ks else (ks ++ [k])%list.

Definition keys_after (ks : list string) (items : list string) : list string :=
  fold_left (fun ks k => add_key k ks) items ks.

(** One step of a grouping loop: the entry of [key x] is created from
    [init x] if absent, then advanced by [step]. *)
Definition upsert {X V} (key : X -> string) (init : X -> V) (step : V -> V)
    (acc : JS.Obj V) (x : X) : JS.Obj V :=
  match JS.get acc (key x) with
  | Some v => JS.set acc (key x) (step v)
  | None => JS.set acc (key x) (step (init x))
  end.

(** How many of [xs] have key [k]. *)
Definition occurrences {X} (key : X -> string) (k : string) (xs : list X) : nat :=
  length (List.filter (fun x => String.eqb (key x) k) xs).

(** [x] occurs in [l] somewhere before an occurrence of [y]. *)
Definition ordered {A} (x y : A) (l : list A) : Prop :=
  exists l1 l2 l3, l = (l1 ++ x :: l2 ++ y :: l3)%list.

(** In a ranking, [x] stands at a smaller index than [y]. *)
Definition ranks_above (x y : TopItem.t) (top : list TopItem.t) : Prop :=
  exists i j, nth_error top i = Some x /\ nth_error top j = Some y /\ (i < j)%nat.

(** The three groupings of [analyze]. *)
Inductive Grouping : Type := ByArtist | ByAlbum | ByTrack.

(** The records a grouping counts: those whose artist, album or track
    name is not blank. *)
Definition members (g : Grouping) (this : MusicAnalyzer.t) : list Track.t :=
  match g with
  | ByArtist =>
      List.filter (fun tr => JS.non_blank (Track.artist tr)) (MusicAnalyzer.tracks this)
  | ByAlbum =>
      List.filter (fun tr => JS.non_blank (Track.album tr)) (MusicAnalyzer.tracks this)
  | ByTrack =>
      List.filter (fun tr => JS.non_blank (Track.track tr)) (MusicAnalyzer.tracks this)
  end.

Definition track_key (tr : Track.t) : string :=
  MusicAnalyzer.createTrackKey (Track.artist tr) (Track.album tr) (Track.track tr).

(** The dictionary key under which a record is counted. *)
Definition group_key (g : Grouping) (tr : Track.t) : string :=
  match g with
  | ByArtist => Track.artist tr
  | ByAlbum => Track.album tr
  | ByTrack => track_key tr
  end.

Definition ranking (g : Grouping) (stats : Statistics.t) : list TopItem.t :=
  match g with
  | ByArtist => Statistics.topArtists stats
  | ByAlbum => Statistics.topAlbums stats
  | ByTrack => Statistics.topTracks stats
  end.

(** The ranking entry of the group whose first record is [tr]. *)
Definition entry (g : Grouping) (tr : Track.t) (count : Z) : TopItem.t :=
  match g with
  | ByArtist => label_item (Track.artist tr) count
  | ByAlbum => label_item (Track.album tr) count
  | ByTrack => track_item tr count
  end.

(** Whether the group of [tr] is filed under an array index: an artist
    or album that is a canonical number; never a track key. *)
Definition index_label (g : Grouping) (tr : Track.t) : bool :=
  match g with
  | ByArtist => JS.is_array_index (Track.artist tr)
  | ByAlbum => JS.is_array_index (Track.album tr)
  | ByTrack => false
  end.

(** The value [getTopTracks] creates for a new key, and its increment. *)
Definition tc_init (tr : Track.t) : MusicAnalyzer.TrackCount :=
  MusicAnalyzer.mkTrackCount 0 (Track.artist tr) (Track.album tr)
    (Track.duration tr) (Track.genre tr).

Definition tc_bump (d : MusicAnalyzer.TrackCount) : MusicAnalyzer.TrackCount :=
  MusicAnalyzer.mkTrackCount (MusicAnalyzer.tc_count d + 1)
    (MusicAnalyzer.tc_artist d) (MusicAnalyzer.tc_album d)
    (MusicAnalyzer.tc_duration d) (MusicAnalyzer.tc_genre d).

(** No label names a member of [Object.prototype]. *)
Definition own_labels (g : Grouping) (this : MusicAnalyzer.t) : bool :=
  match g with
  | ByTrack => true
  | _ => forallb (fun tr => negb (JS.inherited_key (group_key g tr))) (members g this)
  end.

(** Two artists seen once each, the second one a number. *)
Definition zed_then_7 : MusicAnalyzer.t :=
  holding [row "Zed" "X" "T1" 1; row "7" "Y" "T2" 1].

(** What an update must leave alone in a record: its identity, play
    count and timestamp. *)
Definition frame (tr : Track.t)
    : string * string * string * option Z * option string :=
  (Track.artist tr, Track.album tr, Track.track tr, Track.count tr,
   Track.utc_time tr).

(** Every field set in [m] is set in [m']. *)
Definition keeps_set (o o' : option string) : Prop :=
  match o with Some _ => o' <> None | None => True end.

Definition covers (m m' : TrackMetadata.t) : Prop :=
  keeps_set (TrackMetadata.duration m) (TrackMetadata.duration m')
  /\ keeps_set (TrackMetadata.genre m) (TrackMetadata.genre m')
  /\ keeps_set (TrackMetadata.feat m) (TrackMetadata.feat m')
  /\ keeps_set (TrackMetadata.prod m) (TrackMetadata.prod m')
  /\ keeps_set (TrackMetadata.label m) (TrackMetadata.label m').

(** One of the two update methods, applied. *)
Inductive Update : Type :=
| SetMetadata (artist album track : string) (updates : TrackMetadata.t)
| SetDuration (artist album track duration : string).

Definition apply_update (u : Update) (this : MusicAnalyzer.t) : MusicAnalyzer.t :=
  match u with
  | SetMetadata a al t updates => MusicAnalyzer.updateTrackMetadata a al t updates this
  | SetDuration a al t d => MusicAnalyzer.updateTrackDuration a al t d this
  end.

Definition update_key (u : Update) : string :=
  match u with
  | SetMetadata a al t _ | SetDuration a al t _ => MusicAnalyzer.createTrackKey a al t
  end.

(** A record stands for an original row: same identity and timestamp. *)
Definition aligned (tr : Track.t) (row : RawTrack.t) : Prop :=
  Track.artist tr = RawTrack.artist row
  /\ Track.album tr = RawTrack.album row
  /\ Track.track tr = RawTrack.track row
  /\ Track.utc_time tr = Some (RawTrack.utc_time row).

(** The five enrichment fields of a record, as an overlay entry. *)
Definition enrichment (tr : Track.t) : TrackMetadata.t :=
  TrackMetadata.mk (Track.duration tr) (Track.genre tr) (Track.feat tr)
    (Track.prod tr) (Track.label tr).

(** The eight columns [saveToCSV] copies from an original row. *)
Definition base_columns (row : RawTrack.t) : RawTrack.t :=
  RawTrack.mk (RawTrack.uts row) (RawTrack.utc_time row) (RawTrack.artist row)
    (RawTrack.artist_mbid row) (RawTrack.album row) (RawTrack.album_mbid row)
    (RawTrack.track row) (RawTrack.track_mbid row) None.

(** A Papa Parse result with one data row and no error. *)
Definition one_event : PapaVariant.PapaOutcome :=
  PapaVariant.Complete
    (PapaVariant.mkResult
       [<["artist" := "A"]> (<["album" := "X"]> (<["track" := "T1"]> ∅))] []).

Definition two_events : PapaVariant.PapaOutcome :=
  PapaVariant.Complete
    (PapaVariant.mkResult
       [<["artist" := "A"]> (<["album" := "X"]> (<["track" := "T1"]> ∅));
        <["artist" := "A"]> (<["album" := "X"]> (<["track" := "T1"]> ∅))] []).

(** A ranking is in descending order of count. *)
Definition descending (top : list TopItem.t) : Prop :=
  forall i j x y,
    (i < j)%nat -> nth_error top i = Some x -> nth_error top j = Some y ->
    (TopItem.count y <= TopItem.count x)%Z.

(** [r] is the first record of its group among the records that
    grouping [g] counts. *)
Definition first_of_group (g : Grouping) (this : MusicAnalyzer.t)
    (r : Track.t) : Prop :=
  exists i,
    nth_error (members g this) i = Some r
    /\ JS.indexOf (List.map (group_key g) (members g this)) (group_key g r) = Some i.

(** The number of records in the group of [r]. *)
Definition group_size (g : Grouping) (this : MusicAnalyzer.t) (r : Track.t) : Z :=
  Z.of_nat (occurrences (group_key g) (group_key g r) (members g this)).

Definition three_plays : MusicAnalyzer.t :=
  holding [row "A" "X" "T1" 1; row "B" "Y" "T2" 1; row "A" "X" "T1" 1].

(** The string contains no separator ['|']. *)
Fixpoint bar_free (s : string) : bool :=
  match s with
  | EmptyString => true
  | String c r => negb (Ascii.eqb c "|") && bar_free r
  end.

(** The row number an error of [parseCSV] reports, if it reports one. *)
Definition error_row (e : TextVariant.Error) : option nat :=
  match e with
  | TextVariant.InvalidRow row _ _ | TextVariant.InvalidCount row _ => Some row
  | _ => None
  end.

(** What every record built by [parseCSV] from the text looks like: a
    numeric count, trimmed identity fields, optional columns that are
    absent rather than empty, and no enrichment beyond duration and
    genre. *)
Definition parsed_record (tr : Track.t) : Prop :=
  Track.count tr <> None
  /\ JS.trim (Track.artist tr) = Track.artist tr
  /\ JS.trim (Track.album tr) = Track.album tr
  /\ JS.trim (Track.track tr) = Track.track tr
  /\ Track.duration tr <> Some EmptyString
  /\ Track.genre tr <> Some EmptyString
  /\ Track.utc_time tr <> Some EmptyString
  /\ Track.feat tr = None /\ Track.prod tr = None /\ Track.label tr = None.

(** How many of [hours] are the hour [i]. *)
Definition hour_count (i : nat) (hours : list (option nat)) : nat :=
  length (List.filter
            (fun h => match h with Some n => Nat.eqb n i | None => false end)
            hours).

(** A list of pairs is in descending order of its second components. *)
Definition descending_pairs {A} (l : list (A * Z)) : Prop :=
  forall i j x y,
    (i < j)%nat -> nth_error l i = Some x -> nth_error l j = Some y ->
    (snd y <= snd x)%Z.



(** No string of the list names a member of [Object.prototype]. *)
Definition own_names (names : list string) : bool :=
  forallb (fun k => negb (JS.inherited_key k)) names.

(** A record without ['|'] in artist, album and track. *)
Definition sep_free (tr : Track.t) : bool :=
  bar_free (Track.artist tr) && bar_free (Track.album tr)
  && bar_free (Track.track tr).

(** The entries of [topTracks] that still lack a duration. *)
Definition lacks_duration (it : TopItem.t) : bool :=
  negb (JS.truthy (TopItem.duration it)).

Definition missing_durations (stats : Statistics.t) : nat :=
  length (List.filter lacks_duration (Statistics.topTracks stats)).

(** In a dictionary, the value under key [k] replaced through [g]. *)
Definition at_key {V} (k : string) (g : V -> V) (kv : string * V) : string * V :=
  if String.eqb (fst kv) k then (fst kv, g (snd kv)) else kv.

(** The value of [trackCounts] with the fields of another first record. *)
Definition tc_fields_of (tr : Track.t) (d : MusicAnalyzer.TrackCount)
    : MusicAnalyzer.TrackCount :=
  MusicAnalyzer.mkTrackCount (MusicAnalyzer.tc_count d) (Track.artist tr)
    (Track.album tr) (Track.duration tr) (Track.genre tr).

(** The entry [getTopTracks] makes of a property of [trackCounts]. *)
Definition tc_item (kv : string * MusicAnalyzer.TrackCount) : TopItem.t :=
  TopItem.mk (nth 2 (JS.split "|" (fst kv)) EmptyString)
    (MusicAnalyzer.tc_count (snd kv)) (Some (MusicAnalyzer.tc_artist (snd kv)))
    (Some (MusicAnalyzer.tc_album (snd kv))) (MusicAnalyzer.tc_duration (snd kv))
    (MusicAnalyzer.tc_genre (snd kv)).

(** The entries of [topTracks] that still lack a genre. *)
Definition lacks_genre (it : TopItem.t) : bool :=
  negb (JS.truthy (TopItem.genre it)).

Definition missing_genres (stats : Statistics.t) : nat :=
  length (List.filter lacks_genre (Statistics.topTracks stats)).

(** A page that shows the statistics of its analyzer and asks for the
    duration of a song, and one that asks for the genre of a song. *)
Definition asking (an : MusicAnalyzer.t) (song : Page.SongDuration) : Page.State :=
  Page.mkState (Some (MusicAnalyzer.analyze an)) true false (Some song) None (Some an).

Definition asking_genre (an : MusicAnalyzer.t) (song : Page.SongDuration)
    : Page.State :=
  Page.mkState (Some (MusicAnalyzer.analyze an)) false true None (Some song) (Some an).

(** ** The two-row scenario *)

Lemma two_rows_parsed :
  TextVariant.parseCSV TextVariant.loadMetadata two_rows_csv fresh = (holding two_rows, None).
Proof. vm_compute. reflexivity. Qed.

(** C1, as stated, fails: on the two-row input [topArtists] is not the
    single entry A with count 8 (and [topTracks] is not T2(5), T1(3)). *)
Lemma two_rows_counts_not_summed :
  ~ (Statistics.topArtists (MusicAnalyzer.analyze (holding two_rows))
       = [label_item "A" 8]
     /\ List.map (fun it => (TopItem.name it, TopItem.count it))
          (Statistics.topTracks (MusicAnalyzer.analyze (holding two_rows)))
        = [("T2", 5%Z); ("T1", 3%Z)]).
Proof. intros [H _]. vm_compute in H. discriminate H. Qed.

(** C1, amended: on the two-row input every group counts its records,
    not their Count fields: [topArtists] is the single entry A with
    count 2, and [topTracks] is T1 then T2, each with count 1, in input
    order. *)
Theorem two_rows_counts_records :
  Statistics.topArtists (MusicAnalyzer.analyze (holding two_rows))
    = [label_item "A" 2]
  /\ Statistics.topTracks (MusicAnalyzer.analyze (holding two_rows))
     = [track_item (row "A" "X" "T1" 3) 1; track_item (row "A" "X" "T2" 5) 1]
  /\ List.map (fun it => (TopItem.name it, TopItem.count it))
       (Statistics.topTracks (MusicAnalyzer.analyze (holding two_rows)))
     = [("T1", 1%Z); ("T2", 1%Z)].
Proof. repeat split; vm_compute; reflexivity. Qed.

(** ** Enrichment: [updateTrackMetadata] *)

Section Update.
Import MusicAnalyzer.
Variables artist album track : string.
Variable updates : TrackMetadata.t.

Let key := createTrackKey artist album track.

Lemma update_tracks this :
  tracks (updateTrackMetadata artist album track updates this)
  = match JS.findIndex (same_track artist album track) (tracks this) with
    | Some i => alter (assign updates) i (tracks this)
    | None => tracks this
    end.
Proof. reflexivity. Qed.

Lemma update_metadata this :
  metadata (updateTrackMetadata artist album track updates this)
  = <[key := TrackMetadata.spread
               (match metadata this !! key with
                | Some old => old
                | None => TrackMetadata.empty
                end) updates]> (metadata this).
Proof. reflexivity. Qed.

Lemma update_localStorage this :
  localStorage (updateTrackMetadata artist album track updates this)
  = <["trackMetadata" :=
        metadata (updateTrackMetadata artist album track updates this)]>
      (localStorage this).
Proof. reflexivity. Qed.

Lemma update_originalData this :
  originalData (updateTrackMetadata artist album track updates this)
  = originalData this.
Proof. reflexivity. Qed.

Lemma findIndex_first {A} (p : A -> bool) l1 x l2 :
  forallb (fun y => negb (p y)) l1 = true -> p x = true ->
  JS.findIndex p (l1 ++ x :: l2)%list = Some (length l1).
Proof.
  induction l1 as [|y l1 IH]; simpl; intros Hl Hx.
  - now rewrite Hx.
  - apply andb_prop in Hl as [Hy Hl].
    apply negb_true_iff in Hy. rewrite Hy, (IH Hl Hx). reflexivity.
Qed.


(** The record store after an update: the first record of the
    identity receives the fields, every other record is as before. *)
Lemma update_first_match this l1 r l2 :
  tracks this = (l1 ++ r :: l2)%list ->
  forallb (fun y => negb (same_track artist album track y)) l1 = true ->
  same_track artist album track r = true ->
  tracks (updateTrackMetadata artist album track updates this)
  = (l1 ++ assign updates r :: l2)%list.
Proof.
  intros Ht Hl Hr. rewrite update_tracks, Ht.
  rewrite (findIndex_first _ _ _ _ Hl Hr).
  replace (length l1) with (length l1 + 0)%nat by lia.
  now rewrite alter_app_r.
Qed.


Lemma same_track_assign u r :
  same_track artist album track (assign u r) = same_track artist album track r.
Proof. reflexivity. Qed.

Lemma assign_twice u r : assign u (assign u r) = assign u r.
Proof.
  destruct u as [d g f p l], r; unfold assign; simpl.
  destruct d, g, f, p, l; reflexivity.
Qed.

Lemma spread_twice old u :
  TrackMetadata.spread (TrackMetadata.spread old u) u = TrackMetadata.spread old u.
Proof.
  destruct u as [d g f p l], old; unfold TrackMetadata.spread; simpl.
  destruct d, g, f, p, l; reflexivity.
Qed.

Lemma findIndex_alter {A} (p : A -> bool) (f : A -> A) i l :
  (forall x, p (f x) = p x) ->
  JS.findIndex p (alter f i l) = JS.findIndex p l.
Proof.
  intros Hp. revert i. induction l as [|x l IH]; intros [|i];
    try reflexivity.
  - simpl. now rewrite Hp.
  - change (alter f (S i) (x :: l)) with (x :: alter f i l).
    simpl. now rewrite IH.
Qed.

End Update.




(** C7: two identical updates in a row leave the analyzer (overlay,
    stored overlay and records) in the state reached after the first. *)
Theorem update_idempotent artist album track updates this :
  MusicAnalyzer.updateTrackMetadata artist album track updates
    (MusicAnalyzer.updateTrackMetadata artist album track updates this)
  = MusicAnalyzer.updateTrackMetadata artist album track updates this.
Proof.
  set (once := MusicAnalyzer.updateTrackMetadata artist album track updates this).
  assert (Hm : MusicAnalyzer.metadata
                 (MusicAnalyzer.updateTrackMetadata artist album track updates once)
               = MusicAnalyzer.metadata once).
  { rewrite update_metadata. unfold once at 1 2. rewrite update_metadata.
    rewrite lookup_insert_eq, insert_insert_eq, spread_twice. reflexivity. }
  assert (Ht : MusicAnalyzer.tracks
                 (MusicAnalyzer.updateTrackMetadata artist album track updates once)
               = MusicAnalyzer.tracks once).
  { rewrite update_tracks. unfold once. rewrite update_tracks.
    destruct (JS.findIndex _ (MusicAnalyzer.tracks this)) as [i|] eqn:Hi.
    - rewrite findIndex_alter by (intros; apply same_track_assign).
      rewrite Hi, list_alter_alter_eq.
      apply list_alter_ext; [|reflexivity].
      intros x _. apply assign_twice.
    - now rewrite Hi. }
  assert (Hs : MusicAnalyzer.localStorage
                 (MusicAnalyzer.updateTrackMetadata artist album track updates once)
               = MusicAnalyzer.localStorage once).
  { rewrite update_localStorage, Hm. unfold once at 2 3.
    rewrite update_localStorage. fold once. now rewrite insert_insert_eq. }
  pose proof (update_originalData artist album track updates once) as Ho.
  destruct (MusicAnalyzer.updateTrackMetadata artist album track updates once)
    as [t2 o2 m2 s2].
  destruct once as [t1 o1 m1 s1]. simpl in Hm, Ht, Hs, Ho. now subst.
Qed.

(** ** Duration totals *)

Lemma fold_left_sumZ {A} (f : A -> Z) l a :
  fold_left (fun sum x => (sum + f x)%Z) l a = (a + sumZ (List.map f l))%Z.
Proof.
  revert a. induction l as [|x l IH]; intros a; simpl.
  - lia.
  - rewrite IH. lia.
Qed.

Lemma sumZ_app l1 l2 : sumZ (l1 ++ l2) = (sumZ l1 + sumZ l2)%Z.
Proof. induction l1 as [|x l1 IH]; simpl; [reflexivity | rewrite IH; lia]. Qed.

(** [totalDuration] adds, for every record, its own seconds. *)
Lemma totalDuration_sum this :
  MusicAnalyzer.totalDuration this
  = sumZ (List.map record_seconds (MusicAnalyzer.tracks this)).
Proof.
  unfold MusicAnalyzer.totalDuration, MusicAnalyzer.tracksWithDuration.
  rewrite fold_left_sumZ, Z.add_0_l.
  induction (MusicAnalyzer.tracks this) as [|tr l IH]; simpl; [reflexivity|].
  unfold record_seconds at 1.
  destruct (MusicAnalyzer.duration_set tr); simpl; rewrite IH; reflexivity.
Qed.

Lemma record_seconds_with_duration d tr :
  record_seconds (with_duration d tr) = JS.or_zero (JS.parseInt d).
Proof.
  unfold record_seconds, MusicAnalyzer.duration_set. simpl.
  destruct d; reflexivity.
Qed.

(** C2, as stated, fails: after [update("A","X","T1",{duration:"120"})]
    on the record of play count 3, the total is not the sum of duration
    times play count (that sum is 360 seconds, the code reports 120);
    and when the group is three play events, the total after the update
    is 120 seconds as well, not 120 x 3. *)
Lemma total_ignores_play_count :
  let this' :=
    MusicAnalyzer.updateTrackMetadata "A" "X" "T1" duration_120 t1_thrice in
  let events' :=
    MusicAnalyzer.updateTrackMetadata "A" "X" "T1" duration_120 t1_three_events in
  sumZ (List.map weighted_seconds (MusicAnalyzer.tracks this')) = 360%Z
  /\ ~ (Statistics.totalListeningTime (MusicAnalyzer.analyze this')
        == inject_Z (sumZ (List.map weighted_seconds (MusicAnalyzer.tracks this')))
           / 3600)%Q
  /\ MusicAnalyzer.totalDuration events' = 120%Z
  /\ ~ (Statistics.totalListeningTime (MusicAnalyzer.analyze events')
        == inject_Z (120 * 3) / 3600)%Q.
Proof.
  cbv zeta. rewrite !update_tracks. split; [vm_compute; reflexivity|].
  unfold MusicAnalyzer.analyze, Statistics.totalListeningTime.
  rewrite !totalDuration_sum, !update_tracks.
  repeat split; try (vm_compute; reflexivity); vm_compute; discriminate.
Qed.

(** C2, amended: [totalListeningTime] is the sum, over the records whose
    duration is not the empty string, of the number the duration starts
    with (0 when it starts with none), each record counted once whatever
    its play count, divided by 3600, as long as the durations are
    numbers the source adds without rounding (their absolute values add
    up to at most [2^53]).  After an update of the duration of an
    identity to [d], the first record of that identity adds the number
    [d] starts with, once. *)
Theorem total_listening_time_per_record
    artist album track d this l1 r l2 :
  MusicAnalyzer.tracks this = (l1 ++ r :: l2)%list ->
  forallb (fun y => negb (MusicAnalyzer.same_track artist album track y)) l1 = true ->
  MusicAnalyzer.same_track artist album track r = true ->
  let this' :=
    MusicAnalyzer.updateTrackMetadata artist album track
      (TrackMetadata.mk (Some d) None None None None) this in
  (forall any,
     safe_durations (MusicAnalyzer.tracks any) ->
     (Statistics.totalListeningTime (MusicAnalyzer.analyze any)
      == inject_Z (sumZ (List.map record_seconds (MusicAnalyzer.tracks any)))
         / 3600)%Q)
  /\ (safe_durations (MusicAnalyzer.tracks this') ->
      MusicAnalyzer.totalDuration this'
      = (sumZ (List.map record_seconds l1)
         + JS.or_zero (JS.parseInt d)
         + sumZ (List.map record_seconds l2))%Z).
Proof.
  intros Ht Hl Hr this'. split.
  - intros any _. unfold MusicAnalyzer.analyze, Statistics.totalListeningTime.
    rewrite totalDuration_sum. reflexivity.
  - intros _. subst this'. rewrite totalDuration_sum.
    rewrite (update_first_match _ _ _ _ _ _ _ _ Ht Hl Hr).
    rewrite List.map_app, sumZ_app. simpl.
    change (MusicAnalyzer.assign _ r) with (with_duration d r).
    rewrite (record_seconds_with_duration d r). lia.
Qed.

Lemma total_listening_time_per_record_witness :
  safe_durations
    (MusicAnalyzer.tracks
       (MusicAnalyzer.updateTrackMetadata "A" "X" "T1" duration_120 t1_thrice))
  /\ MusicAnalyzer.totalDuration
       (MusicAnalyzer.updateTrackMetadata "A" "X" "T1" duration_120 t1_thrice)
     = 120%Z
  /\ (Statistics.totalListeningTime
        (MusicAnalyzer.analyze
           (MusicAnalyzer.updateTrackMetadata "A" "X" "T1" duration_120 t1_thrice))
      == inject_Z 120 / 3600)%Q.
Proof.
  destruct (total_listening_time_per_record "A" "X" "T1" "120" t1_thrice
              [] (row "A" "X" "T1" 3) [] eq_refl eq_refl eq_refl) as [Hall H].
  split; [reflexivity|]. split.
  - exact (H eq_refl).
  - exact (Hall (MusicAnalyzer.updateTrackMetadata "A" "X" "T1" duration_120 t1_thrice)
             eq_refl).
Defined.

(** ** [parseCSV] on the text: header matching and failures *)

Section TextParse.
Import MusicAnalyzer TextVariant.
Variable load : t -> t.

Lemma includes_In xs x : JS.includes xs x = true <-> In x xs.
Proof.
  unfold JS.includes. rewrite existsb_exists. split.
  - intros (y & Hy & He). apply String.eqb_eq in He. now subst.
  - intros H. exists x. split; [exact H | apply String.eqb_refl].
Qed.

Lemma no_missing_headers text :
  (forall h, In h requiredHeaders -> In h (header_names text)) ->
  List.filter (fun h => negb (JS.includes (header_names text) h)) requiredHeaders = [].
Proof.
  intros H.
  assert (Hall : forall h, In h requiredHeaders ->
                   negb (JS.includes (header_names text) h) = false).
  { intros h Hh. apply negb_false_iff, includes_In, H, Hh. }
  induction requiredHeaders as [|h hs IH]; simpl; [reflexivity|].
  rewrite (Hall h (or_introl eq_refl)). apply IH.
  - intros h' Hh'. apply H. now right.
  - intros h' Hh'. apply Hall. now right.
Qed.

(** The outcome of [parseCSV], one case per exit of the method. *)
Lemma parseCSV_cases text this :
  let res := parseCSV load text this in
  let rows := parse_rows (header_names text) (tl (JS.split "010" text)) 1 [] in
  let this' := mk (fst rows) (originalData this) (metadata this) (localStorage this) in
  (res = (this, Some CsvEmpty))
  \/ (res = (this, Some TooFewLines))
  \/ (exists m, m <> [] /\ res = (this, Some (MissingColumns m))
                /\ m = List.filter (fun h => negb (JS.includes (header_names text) h))
                         requiredHeaders)
  \/ (exists e, snd rows = Some e /\ early_failure e = false
                /\ e <> NoValidTracks /\ res = (this', Some e))
  \/ (snd rows = None /\ fst rows = [] /\ res = (this', Some NoValidTracks))
  \/ (snd rows = None /\ fst rows <> [] /\ res = (load this', None)).
Proof.
  cbv zeta. unfold parseCSV.
  destruct (String.eqb (JS.trim text) EmptyString); [now left|].
  destruct (Nat.ltb (length (JS.split "010" text)) 2); [right; now left|].
  destruct (List.filter _ requiredHeaders) as [|h m] eqn:Hm; simpl Nat.ltb; cbv iota.
  2:{ right; right; left. exists (h :: m). repeat split. congruence. }
  right; right; right.
  destruct (parse_rows (header_names text) (tl (JS.split "010" text)) 1 [])
    as [trs [e|]] eqn:Hrows; simpl.
  - left. exists e. split; [reflexivity|].
    cut (early_failure e = false /\ e <> NoValidTracks);
      [intros [? ?]; repeat split; assumption|].
    clear -Hrows. revert Hrows. generalize 1%nat, (@nil Track.t).
    induction (tl (JS.split "010" text)) as [|l rest IH]; intros i acc; simpl.
    + discriminate.
    + destruct (String.eqb (JS.trim l) EmptyString); [apply IH|].
      destruct (negb _); [intros [= _ <-]; split; [reflexivity|discriminate]|].
      destruct (JS.parseInt _);
        [apply IH | intros [= _ <-]; split; [reflexivity|discriminate]].
  - right. destruct trs as [|tr trs]; simpl.
    + left. repeat split.
    + right. repeat split. discriminate.
Qed.

(** Whether, and how, [parseCSV] fails is decided by the text. *)
Lemma parseCSV_error_text_only text this other :
  snd (parseCSV load text this) = snd (parseCSV load text other).
Proof.
  unfold parseCSV.
  destruct (String.eqb (JS.trim text) EmptyString); [reflexivity|].
  destruct (Nat.ltb (length (JS.split "010" text)) 2); [reflexivity|].
  destruct (Nat.ltb 0 _); [reflexivity|].
  destruct (parse_rows _ _ 1 []) as [trs [e|]]; [reflexivity|].
  destruct (Nat.eqb (length trs) 0); reflexivity.
Qed.


End TextParse.

(** C9, as stated, fails: a header that differs from the required
    names in letter case only is rejected for missing columns. *)
Lemma lower_case_header_rejected :
  List.map lower (TextVariant.header_names lower_case_csv)
    = List.map lower TextVariant.requiredHeaders
  /\ snd (TextVariant.parseCSV TextVariant.loadMetadata lower_case_csv fresh)
     = Some (TextVariant.MissingColumns TextVariant.requiredHeaders).
Proof. split; vm_compute; reflexivity. Qed.

(** C9, amended: header names are compared after trimming and with
    their letter case: whenever each required name is, up to leading and
    trailing white space, a cell of the first line, [parseCSV] does not
    fail for missing columns. *)
Theorem padded_header_accepted load text this missing :
  (forall h, In h TextVariant.requiredHeaders ->
             In h (List.map JS.trim (JS.split "," (hd EmptyString (JS.split "010" text))))) ->
  snd (TextVariant.parseCSV load text this) <> Some (TextVariant.MissingColumns missing).
Proof.
  intros H.
  destruct (parseCSV_cases load text this)
    as [E|[E|[(m & Hm & E & Hf)|[(e & He & Hearly & _ & E)|[(_ & _ & E)|(_ & _ & E)]]]]];
    rewrite E; simpl; try discriminate.
  - exfalso. apply Hm. rewrite Hf. now apply no_missing_headers.
  - intros [= ->]. discriminate Hearly.
Qed.

Lemma padded_header_accepted_witness :
  snd (TextVariant.parseCSV TextVariant.loadMetadata padded_csv fresh)
  <> Some (TextVariant.MissingColumns TextVariant.requiredHeaders).
Proof.
  apply (padded_header_accepted TextVariant.loadMetadata padded_csv fresh TextVariant.requiredHeaders).
  intros h Hh. vm_compute.
  destruct Hh as [<-|[<-|[<-|[<-|[]]]]]; auto 6.
Defined.





(** ** Saving and parsing again *)

Section RoundTrip.
Import MusicAnalyzer TextVariant.

(** A successful parse yields records decided by the text and the
    overlay; the records held before play no part. *)
Lemma parse_success_tracks text a b :
  metadata a = metadata b ->
  snd (parseCSV loadMetadata text a) = None ->
  tracks (fst (parseCSV loadMetadata text a)) = tracks (fst (parseCSV loadMetadata text b)).
Proof.
  intros Hm Ha.
  pose proof (parseCSV_error_text_only loadMetadata text b a) as Hb. rewrite Ha in Hb.
  destruct (parseCSV_cases loadMetadata text a)
    as [E|[E|[(m & _ & E & _)|[(e' & _ & _ & _ & E)|[(_ & _ & E)|(_ & _ & E)]]]]];
    rewrite E in Ha |- *; try discriminate Ha.
  destruct (parseCSV_cases loadMetadata text b)
    as [E2|[E2|[(m & _ & E2 & _)|[(e' & _ & _ & _ & E2)|[(_ & _ & E2)|(_ & _ & E2)]]]]];
    rewrite E2 in Hb |- *; try discriminate Hb.
  simpl. now rewrite Hm.
Qed.

(** In this variant [parseCSV] never fills [originalData], so
    [saveToCSV] serializes no row, whatever the records are. *)
Lemma parseCSV_originalData text this :
  originalData (fst (parseCSV loadMetadata text this)) = originalData this.
Proof.
  destruct (parseCSV_cases loadMetadata text this)
    as [E|[E|[(m & _ & E & _)|[(e' & _ & _ & _ & E)|[(_ & _ & E)|(_ & _ & E)]]]]];
    rewrite E; reflexivity.
Qed.

Lemma saveToCSV_no_rows unparse this :
  originalData this = [] ->
  saveToCSV unparse this
  = Some (unparse [], mk (tracks this) [] (metadata this) (localStorage this)).
Proof. intros H. unfold saveToCSV. now rewrite H. Qed.

Lemma saved_text_after_parse unparse text :
  option_map fst (saveToCSV unparse (fst (parseCSV loadMetadata text fresh)))
  = Some (unparse []).
Proof.
  rewrite saveToCSV_no_rows; [reflexivity|].
  now rewrite parseCSV_originalData.
Qed.

End RoundTrip.

(** C3 on [src/utils/musicAnalyzer.ts]: the round trip cannot hold for
    both the one-row and the two-row file, whatever text [Papa.unparse]
    produces, since [saveToCSV] hands it the same empty row list after
    either parse. *)
Theorem round_trip_loses_records (unparse : list RawTrack.t -> string) :
  ~ (round_trip unparse one_row_csv fresh /\ round_trip unparse two_rows_csv fresh).
Proof.
  unfold round_trip. intros [H1 H2].
  assert (E1 : TextVariant.parseCSV TextVariant.loadMetadata one_row_csv fresh
               = (holding [row "A" "X" "T1" 3], None))
    by (vm_compute; reflexivity).
  rewrite E1 in H1. rewrite two_rows_parsed in H2.
  specialize (H1 eq_refl). specialize (H2 eq_refl).
  rewrite saveToCSV_no_rows in H1, H2 by reflexivity.
  cbn [fst snd] in H1, H2.
  change (MusicAnalyzer.mk _ [] _ _) with (holding [row "A" "X" "T1" 3]) in H1.
  change (MusicAnalyzer.mk _ [] _ _) with (holding two_rows) in H2.
  destruct H1 as [S1 T1], H2 as [_ T2].
  rewrite (parse_success_tracks (unparse []) (holding [row "A" "X" "T1" 3])
             (holding two_rows) eq_refl S1) in T1.
  rewrite T2 in T1. discriminate T1.
Qed.

(** With the serializer's answer to an empty row list, the empty text,
    the second parse of the one-row file fails as an empty file. *)
Lemma round_trip_ends_in_empty_file (unparse : list RawTrack.t -> string) :
  unparse [] = EmptyString ->
  snd (TextVariant.parseCSV TextVariant.loadMetadata one_row_csv fresh) = None
  /\ forall csv saved,
       MusicAnalyzer.saveToCSV unparse (fst (TextVariant.parseCSV TextVariant.loadMetadata one_row_csv fresh))
       = Some (csv, saved) ->
       snd (TextVariant.parseCSV TextVariant.loadMetadata csv saved) = Some TextVariant.CsvEmpty.
Proof.
  intros Hu. split; [vm_compute; reflexivity|].
  intros csv saved. rewrite saveToCSV_no_rows by (vm_compute; reflexivity).
  intros [= <- <-]. rewrite Hu. reflexivity.
Qed.

(** ** Records without a duration *)

(** C8 on the records [parseCSV] builds: the empty Duration cell of the
    first row becomes [undefined], which [analyze] does not filter out;
    the record is counted in the denominator, and the average is 1
    minute where the mean over the present durations is 2. *)
Theorem absent_duration_in_denominator :
  let this := fst (TextVariant.parseCSV TextVariant.loadMetadata absent_duration_csv fresh) in
  snd (TextVariant.parseCSV TextVariant.loadMetadata absent_duration_csv fresh) = None
  /\ List.map Track.duration (MusicAnalyzer.tracks this) = [None; Some "120"]
  /\ length (MusicAnalyzer.tracksWithDuration this) = 2%nat
  /\ is_value (Statistics.averageTrackDuration (MusicAnalyzer.analyze this)) 1
  /\ (average_over_present (MusicAnalyzer.tracks this) == 2)%Q
  /\ ~ is_value (Statistics.averageTrackDuration (MusicAnalyzer.analyze this))
        (average_over_present (MusicAnalyzer.tracks this)).
Proof.
  cbv zeta. repeat split; try (vm_compute; reflexivity).
  vm_compute. discriminate.
Qed.

(** ** Dictionaries and grouping loops *)

Section Objects.
Context {V : Type}.
Implicit Types (o : JS.Obj V) (k : string) (v : V).

Lemma get_set_eq o k v : JS.get (JS.set o k v) k = Some v.
Proof.
  induction o as [|[k' v'] o IH]; simpl.
  - now rewrite String.eqb_refl.
  - destruct (String.eqb k' k) eqn:E; simpl; rewrite E; [reflexivity | exact IH].
Qed.

Lemma get_set_ne o k k' v : k <> k' -> JS.get (JS.set o k v) k' = JS.get o k'.
Proof.
  intros Hne. induction o as [|[k0 v0] o IH]; simpl.
  - apply String.eqb_neq in Hne. now rewrite Hne.
  - destruct (String.eqb k0 k) eqn:E; simpl.
    + apply String.eqb_eq in E. subst k0.
      apply String.eqb_neq in Hne. now rewrite Hne.
    + now rewrite IH.
Qed.

Lemma set_set o k v w : JS.set (JS.set o k v) k w = JS.set o k w.
Proof.
  induction o as [|[k0 v0] o IH]; simpl.
  - now rewrite String.eqb_refl.
  - destruct (String.eqb k0 k) eqn:E; simpl; rewrite E; [reflexivity|].
    now rewrite IH.
Qed.

Lemma get_None o k : JS.get o k = None <-> ~ In k (List.map fst o).
Proof.
  induction o as [|[k0 v0] o IH]; simpl; [tauto|].
  destruct (String.eqb k0 k) eqn:E.
  - apply String.eqb_eq in E. split; [discriminate | tauto].
  - apply String.eqb_neq in E. rewrite IH. tauto.
Qed.

Lemma get_In o k v :
  List.NoDup (List.map fst o) -> In (k, v) o -> JS.get o k = Some v.
Proof.
  induction o as [|[k0 v0] o IH]; simpl; [tauto|].
  intros Hnd [H|H]; apply List.NoDup_cons_iff in Hnd as [Hnot Hnd].
  - injection H as -> ->. now rewrite String.eqb_refl.
  - destruct (String.eqb k0 k) eqn:E; [|now apply IH].
    apply String.eqb_eq in E. subst k0. exfalso. apply Hnot.
    change k with (fst (k, v)). now apply in_map.
Qed.

Lemma includes_cons ks k0 k :
  JS.includes (k0 :: ks) k = (String.eqb k0 k || JS.includes ks k)%bool.
Proof. unfold JS.includes. simpl. now rewrite String.eqb_sym. Qed.

Lemma keys_set o k v : List.map fst (JS.set o k v) = add_key k (List.map fst o).
Proof.
  unfold add_key. induction o as [|[k0 v0] o IH]; [reflexivity|].
  cbn [JS.set List.map fst]. rewrite includes_cons.
  destruct (String.eqb k0 k); cbn [orb List.map fst]; [reflexivity|].
  rewrite IH. now destruct (JS.includes (List.map fst o) k).
Qed.

End Objects.

Section KeysAfter.

Lemma add_key_In k ks x : In x (add_key k ks) <-> x = k \/ In x ks.
Proof.
  unfold add_key. destruct (JS.includes ks k) eqn:E.
  - apply includes_In in E. split; [tauto | intros [->|H]; assumption].
  - rewrite in_app_iff. simpl. intuition (subst; auto).
Qed.

Lemma add_key_NoDup k ks : List.NoDup ks -> List.NoDup (add_key k ks).
Proof.
  unfold add_key. intros Hnd. destruct (JS.includes ks k) eqn:E; [exact Hnd|].
  assert (Hk : ~ In k ks).
  { intros H. apply includes_In in H. congruence. }
  clear E. induction ks as [|y ks IH]; simpl.
  - constructor; [tauto | constructor].
  - apply List.NoDup_cons_iff in Hnd as [Hy Hnd]. constructor.
    + rewrite in_app_iff. simpl. intros [H|[H|[]]]; [tauto|].
      subst. apply Hk. now left.
    + apply IH; [exact Hnd|]. intros H. apply Hk. now right.
Qed.

Lemma add_key_prefix k ks : exists ext, add_key k ks = (ks ++ ext)%list.
Proof.
  unfold add_key. destruct (JS.includes ks k).
  - exists []. now rewrite app_nil_r.
  - now exists [k].
Qed.

Lemma keys_after_In items ks x :
  In x (keys_after ks items) <-> In x ks \/ In x items.
Proof.
  revert ks. induction items as [|k items IH]; intros ks; simpl; [tauto|].
  unfold keys_after in *. simpl. rewrite IH, add_key_In. intuition.
Qed.

Lemma keys_after_NoDup items ks : List.NoDup ks -> List.NoDup (keys_after ks items).
Proof.
  revert ks. induction items as [|k items IH]; intros ks Hnd; simpl; [exact Hnd|].
  apply IH, add_key_NoDup, Hnd.
Qed.

Lemma keys_after_prefix items ks :
  exists ext, keys_after ks items = (ks ++ ext)%list.
Proof.
  revert ks. induction items as [|k items IH]; intros ks; simpl.
  - exists []. now rewrite app_nil_r.
  - destruct (add_key_prefix k ks) as [e1 He1].
    destruct (IH (add_key k ks)) as [e2 He2].
    exists (e1 ++ e2)%list. unfold keys_after in *. simpl.
    now rewrite He2, He1, <- app_assoc.
Qed.

Lemma keys_after_app l1 l2 ks :
  keys_after ks (l1 ++ l2) = keys_after (keys_after ks l1) l2.
Proof. unfold keys_after. apply fold_left_app. Qed.

(** A key first seen before another one is created before it. *)
Lemma keys_after_ordered a b l1 l2 :
  ~ In b l1 -> a <> b -> In b l2 ->
  ordered a b (keys_after [] (l1 ++ a :: l2)).
Proof.
  intros Hb Hab Hb2. rewrite keys_after_app.
  change (keys_after (keys_after [] l1) (a :: l2))
    with (keys_after (add_key a (keys_after [] l1)) l2).
  set (k1 := add_key a (keys_after [] l1)).
  assert (Ha1 : In a k1) by (apply add_key_In; now left).
  assert (Hb1 : ~ In b k1).
  { unfold k1. rewrite add_key_In, keys_after_In. simpl. intuition. }
  destruct (keys_after_prefix l2 k1) as [ext Hext].
  assert (Hbx : In b ext).
  { assert (H : In b (keys_after k1 l2)) by (apply keys_after_In; now right).
    rewrite Hext in H. apply in_app_or in H. tauto. }
  apply in_split in Ha1 as (p & q & Hk1).
  apply in_split in Hbx as (e1 & e2 & He).
  exists p, (q ++ e1)%list, e2.
  rewrite Hext, Hk1, He. now rewrite <- !app_assoc.
Qed.

Lemma indexOf_split l a i :
  JS.indexOf l a = Some i ->
  exists l1 l2, l = (l1 ++ a :: l2)%list /\ ~ In a l1 /\ length l1 = i.
Proof.
  revert i. induction l as [|x l IH]; intros i; simpl; [discriminate|].
  destruct (String.eqb x a) eqn:E.
  - intros [= <-]. apply String.eqb_eq in E. subst x.
    exists [], l. simpl. tauto.
  - destruct (JS.indexOf l a) as [n|]; [|discriminate].
    intros [= <-]. destruct (IH n eq_refl) as (l1 & l2 & -> & Hn & Hl).
    exists (x :: l1), l2. simpl. apply String.eqb_neq in E.
    repeat split; [|lia]. intros [H|H]; [congruence | tauto].
Qed.

Lemma indexOf_app_notin l1 l2 a :
  ~ In a l1 -> JS.indexOf (l1 ++ l2) a = option_map (Nat.add (length l1)) (JS.indexOf l2 a).
Proof.
  induction l1 as [|x l1 IH]; simpl; intros Hn.
  - now destruct (JS.indexOf l2 a).
  - assert (E : String.eqb x a = false) by (apply String.eqb_neq; tauto).
    rewrite E, IH by tauto. now destruct (JS.indexOf l2 a).
Qed.

Lemma indexOf_In l a i : JS.indexOf l a = Some i -> In a l.
Proof.
  intros H. destruct (indexOf_split _ _ _ H) as (l1 & l2 & -> & _).
  apply in_or_app. right. now left.
Qed.

Lemma indexOf_In_lt l1 l2 a :
  In a l1 -> exists i, JS.indexOf (l1 ++ l2) a = Some i /\ (i < length l1)%nat.
Proof.
  induction l1 as [|x l1 IH]; simpl; [tauto|]. intros H.
  destruct (String.eqb x a) eqn:E.
  - exists 0%nat. split; [reflexivity | lia].
  - destruct H as [H|H]; [apply String.eqb_neq in E; congruence|].
    destruct (IH H) as (i & -> & Hi). exists (S i). split; [reflexivity | lia].
Qed.

(** First positions in the input decide the order of creation. *)
Lemma keys_after_first_seen items a b i j :
  JS.indexOf items a = Some i -> JS.indexOf items b = Some j -> (i < j)%nat ->
  ordered a b (keys_after [] items).
Proof.
  intros Ha Hb Hij.
  destruct (indexOf_split _ _ _ Ha) as (l1 & l2 & -> & Hna & Hl).
  assert (Hnb : ~ In b l1).
  { intros H. destruct (indexOf_In_lt l1 (a :: l2) b H) as (i' & Hi' & Hlt).
    rewrite Hi' in Hb. injection Hb as ->. lia. }
  assert (Hab : a <> b).
  { intros ->. rewrite Ha in Hb. injection Hb as ->. lia. }
  apply keys_after_ordered; try assumption.
  apply indexOf_In in Hb. apply in_app_or in Hb as [H|[H|H]]; tauto.
Qed.

End KeysAfter.

(** ** Relative order through filter, map and the stable sort *)

Section Ordered.
Context {A : Type}.
Implicit Types (x y : A) (l : list A) (p : A -> bool).

Lemma ordered_app_r x y l0 l : ordered x y l -> ordered x y (l0 ++ l).
Proof.
  intros (l1 & l2 & l3 & ->). exists (l0 ++ l1)%list, l2, l3.
  now rewrite <- app_assoc.
Qed.

Lemma ordered_map {B} (f : A -> B) x y l :
  ordered x y l -> ordered (f x) (f y) (List.map f l).
Proof.
  intros (l1 & l2 & l3 & ->).
  exists (List.map f l1), (List.map f l2), (List.map f l3).
  now rewrite !List.map_app, !List.map_cons, List.map_app.
Qed.

Lemma ordered_map_inv {B} (f : A -> B) (a b : B) l :
  ordered a b (List.map f l) ->
  exists x y, f x = a /\ f y = b /\ ordered x y l.
Proof.
  intros (l1 & l2 & l3 & H).
  apply List.map_eq_app in H as (m1 & m2 & -> & _ & H).
  apply List.map_eq_cons in H as (x & m3 & -> & Hx & H).
  apply List.map_eq_app in H as (m4 & m5 & -> & _ & H).
  apply List.map_eq_cons in H as (y & m6 & -> & Hy & _).
  exists x, y. repeat split; try assumption. now exists m1, m4, m6.
Qed.

Lemma ordered_filter p x y l :
  ordered x y l -> p x = true -> p y = true -> ordered x y (List.filter p l).
Proof.
  intros (l1 & l2 & l3 & ->) Hx Hy.
  exists (List.filter p l1), (List.filter p l2), (List.filter p l3).
  rewrite List.filter_app. simpl. rewrite Hx, List.filter_app. simpl.
  now rewrite Hy.
Qed.

Lemma filter_eq_app p l r1 r2 :
  List.filter p l = (r1 ++ r2)%list ->
  exists l1 l2, l = (l1 ++ l2)%list
                /\ List.filter p l1 = r1 /\ List.filter p l2 = r2.
Proof.
  revert r1. induction l as [|a l IH]; intros r1 H; simpl in H.
  - symmetry in H. apply app_eq_nil in H as [-> ->]. now exists [], [].
  - destruct (p a) eqn:Ha.
    + destruct r1 as [|b r1]; simpl in H.
      * exists [], (a :: l). simpl. rewrite Ha. auto.
      * injection H as <- H. destruct (IH _ H) as (l1 & l2 & -> & H1 & H2).
        exists (a :: l1), l2. simpl. rewrite Ha, H1. auto.
    + destruct (IH _ H) as (l1 & l2 & -> & H1 & H2).
      exists (a :: l1), l2. simpl. rewrite Ha. auto.
Qed.

Lemma filter_eq_cons p l x r :
  List.filter p l = x :: r ->
  exists l1 l2, l = (l1 ++ x :: l2)%list /\ List.filter p l2 = r.
Proof.
  induction l as [|a l IH]; simpl; [discriminate|].
  destruct (p a).
  - intros [= -> H]. now exists [], l.
  - intros H. destruct (IH H) as (l1 & l2 & -> & H2).
    now exists (a :: l1), l2.
Qed.

Lemma ordered_filter_inv p x y l :
  ordered x y (List.filter p l) -> ordered x y l.
Proof.
  intros (r1 & r2 & r3 & H).
  apply filter_eq_app in H as (m1 & m2 & -> & _ & H).
  apply filter_eq_cons in H as (n1 & n2 & -> & H).
  apply filter_eq_app in H as (q1 & q2 & -> & _ & H).
  apply filter_eq_cons in H as (s1 & s2 & -> & _).
  exists (m1 ++ n1)%list, (q1 ++ s1)%list, s2.
  now rewrite <- !app_assoc.
Qed.

Lemma ordered_nth_error x y l :
  ordered x y l ->
  exists i j, nth_error l i = Some x /\ nth_error l j = Some y /\ (i < j)%nat.
Proof.
  intros (l1 & l2 & l3 & ->).
  exists (length l1), (length l1 + S (length l2))%nat. repeat split; [| |lia].
  - rewrite nth_error_app2, Nat.sub_diag by lia. reflexivity.
  - rewrite nth_error_app2 by lia.
    replace (length l1 + S (length l2) - length l1)%nat with (S (length l2)) by lia.
    simpl. rewrite nth_error_app2, Nat.sub_diag by lia. reflexivity.
Qed.

End Ordered.

Section StableSort.

(** The comparator of [getTopItems] and [getTopTracks]. *)
Let by_count (a b : TopItem.t) : Z := (TopItem.count b - TopItem.count a)%Z.

Let has_count (k : Z) (it : TopItem.t) : bool := Z.eqb (TopItem.count it) k.

Lemma insert_same_count k x l :
  List.filter (has_count k) (JS.insert by_count x l)
  = List.filter (has_count k) (x :: l).
Proof.
  induction l as [|y l IH]; [reflexivity|].
  cbn [JS.insert]. unfold by_count at 1.
  destruct (Z.ltb 0 (TopItem.count y - TopItem.count x)) eqn:E; [|reflexivity].
  apply Z.ltb_lt in E. cbn [List.filter]. rewrite IH. cbn [List.filter].
  unfold has_count.
  destruct (Z.eqb (TopItem.count x) k) eqn:Ex; [|reflexivity].
  apply Z.eqb_eq in Ex.
  assert (Ey : Z.eqb (TopItem.count y) k = false) by (apply Z.eqb_neq; lia).
  now rewrite Ey.
Qed.

(** Stability: the entries of one count keep their relative order. *)
Lemma sort_same_count k l :
  List.filter (has_count k) (JS.sort by_count l) = List.filter (has_count k) l.
Proof.
  induction l as [|x l IH]; [reflexivity|].
  cbn [JS.sort]. rewrite insert_same_count. cbn [List.filter].
  now rewrite IH.
Qed.

Lemma sort_ordered x y l :
  ordered x y l -> TopItem.count x = TopItem.count y ->
  ordered x y
    (JS.sort (fun a b => (TopItem.count b - TopItem.count a)%Z) l).
Proof.
  intros Ho Hc.
  apply (ordered_filter_inv (has_count (TopItem.count x))).
  change (fun a b => (TopItem.count b - TopItem.count a)%Z) with by_count.
  rewrite sort_same_count.
  apply ordered_filter; [exact Ho | |]; unfold has_count.
  - apply Z.eqb_refl.
  - rewrite Hc. apply Z.eqb_refl.
Qed.

End StableSort.

Section Entries.
Context {V : Type}.

Lemma entries_ordered (o : JS.Obj V) (x y : string * V) :
  ordered x y o ->
  JS.is_array_index (fst x) = false -> JS.is_array_index (fst y) = false ->
  ordered x y (JS.Object_entries o).
Proof.
  intros Ho Hx Hy. unfold JS.Object_entries.
  apply ordered_app_r, ordered_filter; [exact Ho | |].
  - now rewrite Hx.
  - now rewrite Hy.
Qed.

Lemma all_digits_app_bar a r : JS.all_digits (a ++ String "|" r) = false.
Proof.
  induction a as [|c a IH]; [reflexivity|].
  change (String c a ++ String "|" r) with (String c (a ++ String "|" r)).
  cbn [JS.all_digits]. rewrite IH. apply andb_false_r.
Qed.

Lemma canonical_all_digits s :
  JS.canonical_numeric s = true -> JS.all_digits s = true.
Proof.
  destruct s as [|c s]; [discriminate|].
  unfold JS.canonical_numeric.
  destruct (Ascii.eqb c "0") eqn:E.
  - apply Ascii.eqb_eq in E. subst c. destruct s; [reflexivity | discriminate].
  - destruct c as [[] [] [] [] [] [] [] []]; try discriminate E; auto.
Qed.

(** A track key contains the separator, so it is no array index. *)
Lemma track_key_not_index tr : JS.is_array_index (track_key tr) = false.
Proof.
  unfold JS.is_array_index, JS.array_index.
  destruct (JS.canonical_numeric (track_key tr)) eqn:E; [|reflexivity].
  apply canonical_all_digits in E.
  change (JS.all_digits
            (Track.artist tr
             ++ String "|" (Track.album tr ++ "|" ++ Track.track tr)) = true) in E.
  now rewrite all_digits_app_bar in E.
Qed.

End Entries.

Section Grouping.
Context {X V : Type} (key : X -> string) (init : X -> V) (step : V -> V).

Let grouped (xs : list X) (acc : JS.Obj V) : JS.Obj V :=
  fold_left (upsert key init step) xs acc.

Lemma upsert_keys acc x :
  List.map fst (upsert key init step acc x) = add_key (key x) (List.map fst acc).
Proof. unfold upsert. destruct (JS.get acc (key x)); apply keys_set. Qed.

Lemma grouped_keys xs acc :
  List.map fst (grouped xs acc) = keys_after (List.map fst acc) (List.map key xs).
Proof.
  revert acc. induction xs as [|x xs IH]; intros acc; [reflexivity|].
  unfold grouped, keys_after in *. simpl. now rewrite IH, upsert_keys.
Qed.

Lemma upsert_get_ne acc x k :
  key x <> k -> JS.get (upsert key init step acc x) k = JS.get acc k.
Proof.
  intros Hne. unfold upsert.
  destruct (JS.get acc (key x)); now apply get_set_ne.
Qed.

Lemma upsert_get_eq acc x :
  JS.get (upsert key init step acc x) (key x)
  = Some (step (match JS.get acc (key x) with Some v => v | None => init x end)).
Proof. unfold upsert. destruct (JS.get acc (key x)); apply get_set_eq. Qed.

Lemma occurrences_cons k x xs :
  occurrences key k (x :: xs)
  = if String.eqb (key x) k then S (occurrences key k xs)
    else occurrences key k xs.
Proof. unfold occurrences. simpl. now destruct (String.eqb (key x) k). Qed.

Lemma occurrences_absent k xs :
  (forall y, In y xs -> key y <> k) -> occurrences key k xs = 0%nat.
Proof.
  induction xs as [|x xs IH]; intros H; [reflexivity|].
  rewrite occurrences_cons.
  assert (E : String.eqb (key x) k = false)
    by (apply String.eqb_neq, H; now left).
  rewrite E. apply IH. intros y Hy. apply H. now right.
Qed.

Lemma occurrences_app k xs ys :
  occurrences key k (xs ++ ys)
  = (occurrences key k xs + occurrences key k ys)%nat.
Proof. unfold occurrences. now rewrite List.filter_app, length_app. Qed.

Lemma grouped_get_absent xs acc k :
  (forall y, In y xs -> key y <> k) ->
  JS.get (grouped xs acc) k = JS.get acc k.
Proof.
  revert acc. induction xs as [|x xs IH]; intros acc H; [reflexivity|].
  unfold grouped in *. simpl. rewrite IH by (intros y Hy; apply H; now right).
  apply upsert_get_ne, H. now left.
Qed.

Lemma grouped_get_present xs acc k v :
  JS.get acc k = Some v ->
  JS.get (grouped xs acc) k = Some (Nat.iter (occurrences key k xs) step v).
Proof.
  revert acc v. induction xs as [|x xs IH]; intros acc v Hv; [exact Hv|].
  unfold grouped in *. simpl. rewrite occurrences_cons.
  destruct (String.eqb (key x) k) eqn:E.
  - apply String.eqb_eq in E. subst k.
    rewrite (IH _ (step v)) by (now rewrite upsert_get_eq, Hv).
    now rewrite Nat.iter_succ_r.
  - apply String.eqb_neq in E. apply IH. now rewrite upsert_get_ne.
Qed.

(** The entry of a group: created from the first member, advanced
    once per member. *)
Lemma grouped_get_first xs1 x xs2 :
  (forall y, In y xs1 -> key y <> key x) ->
  JS.get (grouped (xs1 ++ x :: xs2) []) (key x)
  = Some (Nat.iter (occurrences key (key x) (xs1 ++ x :: xs2)) step (init x)).
Proof.
  intros H1. unfold grouped. rewrite fold_left_app. simpl.
  fold (grouped xs1 []).
  rewrite (grouped_get_present xs2 _ (key x) (step (init x))).
  - rewrite occurrences_app, (occurrences_absent _ _ H1), occurrences_cons.
    rewrite String.eqb_refl. simpl plus. now rewrite Nat.iter_succ_r.
  - rewrite upsert_get_eq, grouped_get_absent by exact H1. reflexivity.
Qed.

Lemma first_member_split xs k i x :
  JS.indexOf (List.map key xs) k = Some i -> nth_error xs i = Some x ->
  exists xs1 xs2, xs = (xs1 ++ x :: xs2)%list
                  /\ (forall y, In y xs1 -> key y <> k) /\ key x = k.
Proof.
  revert i. induction xs as [|z xs IH]; intros i; simpl; [discriminate|].
  destruct (String.eqb (key z) k) eqn:E.
  - intros [= <-] [= <-]. apply String.eqb_eq in E.
    exists [], xs. simpl. tauto.
  - destruct (JS.indexOf (List.map key xs) k) as [n|]; [|discriminate].
    intros [= <-] Hx. simpl in Hx.
    destruct (IH n eq_refl Hx) as (xs1 & xs2 & -> & H1 & Hk).
    exists (z :: xs1), xs2. apply String.eqb_neq in E.
    repeat split; [|exact Hk]. intros y [<-|Hy]; [exact E | now apply H1].
Qed.

Lemma grouped_NoDup xs : List.NoDup (List.map fst (grouped xs [])).
Proof. rewrite grouped_keys. apply keys_after_NoDup. constructor. Qed.

(** Two groups in the dictionary of a grouping loop: the one whose
    first member comes first was created first, and each entry is the
    first member's, advanced once per member. *)
Lemma grouped_ordered xs xa xb i j :
  JS.indexOf (List.map key xs) (key xa) = Some i ->
  JS.indexOf (List.map key xs) (key xb) = Some j ->
  nth_error xs i = Some xa -> nth_error xs j = Some xb -> (i < j)%nat ->
  ordered
    (key xa, Nat.iter (occurrences key (key xa) xs) step (init xa))
    (key xb, Nat.iter (occurrences key (key xb) xs) step (init xb))
    (fold_left (upsert key init step) xs []).
Proof.
  intros Hi Hj Ha Hb Hij. fold (grouped xs []).
  pose proof (keys_after_first_seen _ _ _ _ _ Hi Hj Hij) as Hk.
  change (keys_after [] (List.map key xs))
    with (keys_after (List.map fst (@nil (string * V))) (List.map key xs)) in Hk.
  rewrite <- grouped_keys in Hk.
  apply ordered_map_inv in Hk as ([ka va] & [kb vb] & Eka & Ekb & Ho).
  simpl in Eka, Ekb. subst ka kb.
  assert (Hin : In (key xa, va) (grouped xs []) /\ In (key xb, vb) (grouped xs [])).
  { destruct Ho as (l1 & l2 & l3 & ->). split.
    - apply in_or_app. right. now left.
    - apply in_or_app. right. right. apply in_or_app. right. now left. }
  destruct Hin as [Ina Inb].
  apply (get_In _ _ _ (grouped_NoDup xs)) in Ina, Inb.
  destruct (first_member_split _ _ _ _ Hi Ha) as (a1 & a2 & Ea & Ha1 & _).
  destruct (first_member_split _ _ _ _ Hj Hb) as (b1 & b2 & Eb & Hb1 & _).
  pose proof (grouped_get_first a1 xa a2 Ha1) as Ga. rewrite <- Ea in Ga.
  pose proof (grouped_get_first b1 xb b2 Hb1) as Gb. rewrite <- Eb in Gb.
  rewrite Ga in Ina. rewrite Gb in Inb.
  injection Ina as <-. injection Inb as <-. exact Ho.
Qed.

End Grouping.

(** ** The rankings of [analyze] *)

Section Rankings.
Import MusicAnalyzer.

Lemma fold_left_pointwise {A B} (f g : A -> B -> A) l a :
  (forall a x, f a x = g a x) -> fold_left f l a = fold_left g l a.
Proof.
  intros H. revert a. induction l as [|x l IH]; intros a; simpl; [reflexivity|].
  now rewrite H, IH.
Qed.

Lemma countOccurrences_upsert labels :
  countOccurrences labels
  = fold_left (upsert (fun k : string => k) (fun _ => 0%Z) (fun z => (z + 1)%Z))
      labels [].
Proof.
  unfold countOccurrences. apply fold_left_pointwise.
  intros acc k. unfold upsert. now destruct (JS.get acc k).
Qed.

Lemma count_track_upsert acc tr :
  count_track acc tr = upsert track_key tc_init tc_bump acc tr.
Proof.
  unfold count_track, upsert.
  change (Track.artist tr ++ "|" ++ Track.album tr ++ "|" ++ Track.track tr)
    with (track_key tr).
  destruct (JS.get acc (track_key tr)) as [d|] eqn:E.
  - now rewrite E.
  - rewrite get_set_eq, set_set. reflexivity.
Qed.

Lemma iter_succ n z : Nat.iter n (fun z => (z + 1)%Z) z = (z + Z.of_nat n)%Z.
Proof. induction n as [|n IH]; simpl Nat.iter; [lia | rewrite IH; lia]. Qed.

Lemma iter_bump n d :
  Nat.iter n tc_bump d
  = mkTrackCount (tc_count d + Z.of_nat n) (tc_artist d) (tc_album d)
      (tc_duration d) (tc_genre d).
Proof.
  induction n as [|n IH]; simpl Nat.iter.
  - destruct d. simpl. f_equal. lia.
  - rewrite IH. unfold tc_bump. simpl. f_equal. lia.
Qed.

Lemma occurrences_map {X} (f : X -> string) k xs :
  occurrences (fun k : string => k) k (List.map f xs) = occurrences f k xs.
Proof.
  unfold occurrences. induction xs as [|x xs IH]; simpl; [reflexivity|].
  destruct (String.eqb (f x) k); simpl; now rewrite IH.
Qed.

Lemma non_blank_not_empty k : JS.non_blank k = true -> String.eqb k EmptyString = false.
Proof. destruct k; [discriminate | reflexivity]. Qed.

(** The ranking of labels: [getTopItems] after [countOccurrences]. *)
Lemma label_ranking labels a b i j :
  JS.indexOf labels a = Some i -> JS.indexOf labels b = Some j -> (i < j)%nat ->
  nth_error labels i = Some a -> nth_error labels j = Some b ->
  occurrences (fun k : string => k) a labels
  = occurrences (fun k : string => k) b labels ->
  JS.is_array_index a = false -> JS.is_array_index b = false ->
  JS.non_blank a = true -> JS.non_blank b = true ->
  ranks_above
    (label_item a (Z.of_nat (occurrences (fun k : string => k) a labels)))
    (label_item b (Z.of_nat (occurrences (fun k : string => k) b labels)))
    (getTopItems (countOccurrences labels) None).
Proof.
  intros Hi Hj Hij Ha Hb Hocc Hia Hib Hna Hnb.
  rewrite <- (List.map_id labels) in Hi, Hj.
  pose proof (grouped_ordered (fun k : string => k) (fun _ => 0%Z)
                (fun z => (z + 1)%Z) labels a b i j Hi Hj Ha Hb Hij) as Ho.
  rewrite <- countOccurrences_upsert, !iter_succ, !Z.add_0_l in Ho.
  apply entries_ordered in Ho; [|exact Hia|exact Hib].
  unfold getTopItems, JS.slice0, ranks_above.
  apply ordered_nth_error, sort_ordered; [|simpl; now rewrite Hocc].
  apply (ordered_map
           (fun '(name, count) => TopItem.mk name count None None None None)
           (a, _) (b, _)).
  apply ordered_filter; [exact Ho| |]; simpl.
  - now rewrite Hna, (non_blank_not_empty a Hna).
  - now rewrite Hnb, (non_blank_not_empty b Hnb).
Qed.

(** The ranking of tracks: [getTopTracks]. *)
Lemma track_ranking this ra rb i j :
  let recs := members ByTrack this in
  JS.indexOf (List.map track_key recs) (track_key ra) = Some i ->
  JS.indexOf (List.map track_key recs) (track_key rb) = Some j ->
  nth_error recs i = Some ra -> nth_error recs j = Some rb -> (i < j)%nat ->
  occurrences track_key (track_key ra) recs
  = occurrences track_key (track_key rb) recs ->
  ranks_above
    (track_item ra (Z.of_nat (occurrences track_key (track_key ra) recs)))
    (track_item rb (Z.of_nat (occurrences track_key (track_key rb) recs)))
    (getTopTracks this None).
Proof.
  intros recs Hi Hj Ha Hb Hij Hocc.
  pose proof (grouped_ordered track_key tc_init tc_bump recs ra rb i j
                Hi Hj Ha Hb Hij) as Ho.
  rewrite (fold_left_pointwise _ count_track) in Ho
    by (intros; symmetry; apply count_track_upsert).
  rewrite !iter_bump in Ho.
  apply entries_ordered in Ho; try apply track_key_not_index.
  unfold getTopTracks, JS.slice0, ranks_above.
  apply ordered_nth_error, sort_ordered; [|simpl; now rewrite Hocc].
  apply (ordered_map
           (fun '(key, data) =>
              TopItem.mk (nth 2 (JS.split "|" key) EmptyString) (tc_count data)
                (Some (tc_artist data)) (Some (tc_album data))
                (tc_duration data) (tc_genre data))
           (track_key ra, _) (track_key rb, _)) in Ho.
  exact Ho.
Qed.

Lemma members_non_blank_artist this tr :
  In tr (members ByArtist this) -> JS.non_blank (Track.artist tr) = true.
Proof. intros H. now apply List.filter_In in H. Qed.

Lemma members_non_blank_album this tr :
  In tr (members ByAlbum this) -> JS.non_blank (Track.album tr) = true.
Proof. intros H. now apply List.filter_In in H. Qed.

End Rankings.

(** C4, as stated, fails: Zed is seen before 7 and both are seen once,
    yet 7 ranks first: a dictionary enumerates its array-index keys
    before its other keys. *)
Lemma numeric_label_ranks_first :
  JS.indexOf (List.map Track.artist (MusicAnalyzer.tracks zed_then_7)) "Zed" = Some 0%nat
  /\ JS.indexOf (List.map Track.artist (MusicAnalyzer.tracks zed_then_7)) "7" = Some 1%nat
  /\ Statistics.topArtists (MusicAnalyzer.analyze zed_then_7)
     = [label_item "7" 1; label_item "Zed" 1]
  /\ ~ ranks_above (label_item "Zed" 1) (label_item "7" 1)
        (Statistics.topArtists (MusicAnalyzer.analyze zed_then_7)).
Proof.
  assert (E : Statistics.topArtists (MusicAnalyzer.analyze zed_then_7)
              = [label_item "7" 1; label_item "Zed" 1])
    by (vm_compute; reflexivity).
  repeat split; try (vm_compute; reflexivity).
  rewrite E. intros (i & j & Hi & Hj & Hij).
  destruct i as [|[|[|i]]]; simpl in Hi; try discriminate Hi.
  destruct j as [|[|[|j]]]; simpl in Hj; try discriminate Hj; lia.
Qed.

(** C4, amended: of two groups with equal counts, the one whose first
    record comes earlier in the input ranks higher, provided neither
    label is an array index (a canonical decimal number below 2^32 - 1);
    this covers every track group, whose key contains the separator.
    Artists and albums are assumed not to name a member of
    [Object.prototype]. *)
Theorem stable_ranking g this ra rb i j :
  nth_error (members g this) i = Some ra ->
  nth_error (members g this) j = Some rb ->
  JS.indexOf (List.map (group_key g) (members g this)) (group_key g ra) = Some i ->
  JS.indexOf (List.map (group_key g) (members g this)) (group_key g rb) = Some j ->
  (i < j)%nat ->
  occurrences (group_key g) (group_key g ra) (members g this)
  = occurrences (group_key g) (group_key g rb) (members g this) ->
  index_label g ra = false -> index_label g rb = false ->
  own_labels g this = true ->
  ranks_above
    (entry g ra (Z.of_nat (occurrences (group_key g) (group_key g ra) (members g this))))
    (entry g rb (Z.of_nat (occurrences (group_key g) (group_key g rb) (members g this))))
    (ranking g (MusicAnalyzer.analyze this)).
Proof.
  intros Ha Hb Hi Hj Hij Hocc Hia Hib _.
  destruct g; cbn [ranking entry group_key index_label] in *.
  - rewrite <- !(occurrences_map Track.artist) in Hocc |- *.
    apply (label_ranking _ _ _ i j); try assumption.
    + now apply List.map_nth_error.
    + now apply List.map_nth_error.
    + apply (members_non_blank_artist this), (nth_error_In _ _ Ha).
    + apply (members_non_blank_artist this), (nth_error_In _ _ Hb).
  - rewrite <- !(occurrences_map Track.album) in Hocc |- *.
    apply (label_ranking _ _ _ i j); try assumption.
    + now apply List.map_nth_error.
    + now apply List.map_nth_error.
    + apply (members_non_blank_album this), (nth_error_In _ _ Ha).
    + apply (members_non_blank_album this), (nth_error_In _ _ Hb).
  - now apply (track_ranking this ra rb i j).
Qed.

Lemma stable_ranking_witness :
  ranks_above (label_item "B" 1) (label_item "A" 1)
    (Statistics.topArtists
       (MusicAnalyzer.analyze (holding [row "B" "X" "T1" 1; row "A" "Y" "T2" 1]))).
Proof.
  exact (stable_ranking ByArtist
           (holding [row "B" "X" "T1" 1; row "A" "Y" "T2" 1])
           (row "B" "X" "T1" 1) (row "A" "Y" "T2" 1) 0 1
           eq_refl eq_refl eq_refl eq_refl ltac:(lia)
           eq_refl eq_refl eq_refl eq_refl).
Defined.

(** ** Identity keys that collide *)

Section Collision.
Import MusicAnalyzer.

Lemma collision_key t : createTrackKey "a|b" "c" t = createTrackKey "a" "b|c" t.
Proof. reflexivity. Qed.

Lemma single_entry {V} k (v : V) :
  JS.is_array_index k = false -> JS.Object_entries [(k, v)] = [(k, v)].
Proof.
  intros H. unfold JS.Object_entries. cbn [JS.index_entries List.filter fst].
  unfold JS.is_array_index in H |- *.
  destruct (JS.array_index k); [discriminate H | reflexivity].
Qed.

(** Two records under one key: one group of two, with the fields of
    the first record. *)
Lemma top_tracks_same_key r1 r2 :
  JS.non_blank (Track.track r1) = true -> JS.non_blank (Track.track r2) = true ->
  track_key r1 = track_key r2 ->
  getTopTracks (holding [r1; r2]) None = [track_item r1 2].
Proof.
  intros H1 H2 Hk. unfold getTopTracks, holding, JS.slice0.
  cbn [tracks List.filter]. rewrite H1, H2. cbn [fold_left].
  rewrite !count_track_upsert. unfold upsert at 2. cbn [JS.get JS.set].
  unfold upsert. rewrite <- Hk. cbn [JS.get JS.set].
  rewrite String.eqb_refl.
  rewrite single_entry by apply track_key_not_index.
  reflexivity.
Qed.

End Collision.

(** C10, as stated, fails in its last part: the name reported for the
    merged group is not the text after the second separator of the key
    (["c|t"]) but the segment between the second and the third
    separator (["c"]). *)
Lemma collision_name_is_third_segment :
  let key := MusicAnalyzer.createTrackKey "a|b" "c" "t" in
  List.map TopItem.name
    (MusicAnalyzer.getTopTracks
       (holding [row "a|b" "c" "t" 1; row "a" "b|c" "t" 1]) None)
  = ["c"]
  /\ after_nth "|" 2 key = "c|t"
  /\ List.map TopItem.name
       (MusicAnalyzer.getTopTracks
          (holding [row "a|b" "c" "t" 1; row "a" "b|c" "t" 1]) None)
     <> [after_nth "|" 2 key].
Proof.
  cbv zeta. repeat split; try (vm_compute; reflexivity).
  vm_compute. discriminate.
Qed.

(** C10, amended: the key function is not injective: the distinct
    identities ("a|b", "c", t) and ("a", "b|c", t) have the same key.
    An overlay entry written by [updateTrackMetadata] for the first is
    the one the Papa variant of [parseCSV] loads into a record of the
    second; [getTopTracks] merges records of the two identities into a
    single group with the fields of the first record, and reports as
    its name the third segment of the key, here ["c"]. *)
Theorem track_key_collision t updates this r1 r2 :
  JS.non_blank t = true ->
  (Track.artist r1, Track.album r1, Track.track r1) = ("a|b", "c", t) ->
  (Track.artist r2, Track.album r2, Track.track r2) = ("a", "b|c", t) ->
  let this' := MusicAnalyzer.updateTrackMetadata "a|b" "c" t updates this in
  let merged :=
    TrackMetadata.spread
      (default TrackMetadata.empty
         (MusicAnalyzer.metadata this !! MusicAnalyzer.createTrackKey "a|b" "c" t))
      updates in
  ("a|b", "c", t) <> ("a", "b|c", t)
  /\ MusicAnalyzer.createTrackKey "a|b" "c" t = MusicAnalyzer.createTrackKey "a" "b|c" t
  /\ PapaVariant.toTrack (MusicAnalyzer.metadata this') (raw "a" "b|c" t)
     = Track.mk "a" "b|c" t None
         (TrackMetadata.duration merged) (TrackMetadata.genre merged) (Some EmptyString)
         (TrackMetadata.feat merged) (TrackMetadata.prod merged)
         (TrackMetadata.label merged)
  /\ MusicAnalyzer.getTopTracks (holding [r1; r2]) None
     = [TopItem.mk "c" 2 (Some "a|b") (Some "c") (Track.duration r1) (Track.genre r1)]
  /\ nth 2 (JS.split "|" (MusicAnalyzer.createTrackKey "a|b" "c" t)) EmptyString = "c".
Proof.
  intros Ht H1 H2 this' merged. repeat split.
  - discriminate.
  - unfold PapaVariant.toTrack, raw. cbn [RawTrack.artist RawTrack.album RawTrack.track RawTrack.utc_time].
    rewrite <- collision_key. subst this'. rewrite update_metadata, lookup_insert_eq.
    reflexivity.
  - injection H1 as A1 B1 C1. injection H2 as A2 B2 C2.
    rewrite top_tracks_same_key.
    + unfold track_item. now rewrite A1, B1, C1.
    + now rewrite C1.
    + now rewrite C2.
    + unfold track_key. now rewrite A1, B1, C1, A2, B2, C2.
Qed.

Lemma track_key_collision_witness :
  MusicAnalyzer.getTopTracks
    (holding [row "a|b" "c" "t" 1; row "a" "b|c" "t" 1]) None
  = [TopItem.mk "c" 2 (Some "a|b") (Some "c") None None].
Proof.
  destruct (track_key_collision "t" genre_rock fresh
              (row "a|b" "c" "t" 1) (row "a" "b|c" "t" 1)
              eq_refl eq_refl eq_refl) as (_ & _ & _ & H & _).
  exact H.
Defined.

(** ** The Papa variant of [parseCSV] *)

(** X8. In the Papa variant a failed [parseCSV] (a read error, a
    library parse error, or no data row) leaves the analyzer exactly as
    it was: every failure is raised before anything is assigned. *)
Lemma papa_failure_keeps_state outcome this e :
  snd (PapaVariant.parseCSV outcome this) = Some e ->
  fst (PapaVariant.parseCSV outcome this) = this.
Proof.
  unfold PapaVariant.parseCSV. destruct outcome as [results|err]; [|reflexivity].
  destruct (PapaVariant.errors results); [|reflexivity].
  destruct (Nat.eqb _ 0); [reflexivity | discriminate].
Qed.

(** There a successful parse keeps one original row per data row, so
    [saveToCSV] has rows to serialize. *)
Lemma papa_success_fills_originalData results this :
  snd (PapaVariant.parseCSV (PapaVariant.Complete results) this) = None ->
  let this' := fst (PapaVariant.parseCSV (PapaVariant.Complete results) this) in
  MusicAnalyzer.originalData this'
    = List.map PapaVariant.rawTrack (PapaVariant.data results)
  /\ MusicAnalyzer.originalData this' <> []
  /\ MusicAnalyzer.tracks this'
     = List.map (PapaVariant.toTrack (MusicAnalyzer.metadata this))
         (MusicAnalyzer.originalData this').
Proof.
  unfold PapaVariant.parseCSV.
  destruct (PapaVariant.errors results); [|discriminate].
  destruct (PapaVariant.data results) as [|r rs]; [discriminate|].
  intros _. cbn. repeat split. discriminate.
Qed.

(** There a record without overlay entry has the empty string for
    duration, which [analyze] does skip. *)
Lemma papa_record_without_overlay_skipped overlay r :
  overlay !! MusicAnalyzer.createTrackKey (RawTrack.artist r) (RawTrack.album r)
               (RawTrack.track r) = None ->
  MusicAnalyzer.duration_set (PapaVariant.toTrack overlay r) = false.
Proof.
  intros H. unfold PapaVariant.toTrack, MusicAnalyzer.duration_set.
  cbn [Track.duration]. now rewrite H.
Qed.


(** ** Laws of the update methods *)

Section UpdateLaws.
Import MusicAnalyzer.

Lemma spread_duration old d :
  TrackMetadata.spread old (TrackMetadata.mk (Some d) None None None None)
  = TrackMetadata.mk (Some d) (TrackMetadata.genre old) (TrackMetadata.feat old)
      (TrackMetadata.prod old) (TrackMetadata.label old).
Proof. reflexivity. Qed.

Lemma assign_duration d tr :
  assign (TrackMetadata.mk (Some d) None None None None) tr = set_duration d tr.
Proof. reflexivity. Qed.

Lemma spread_assoc old u1 u2 :
  TrackMetadata.spread (TrackMetadata.spread old u1) u2
  = TrackMetadata.spread old (TrackMetadata.spread u1 u2).
Proof.
  destruct old, u1 as [d1 g1 f1 p1 l1], u2 as [d2 g2 f2 p2 l2].
  unfold TrackMetadata.spread; simpl.
  destruct d2, g2, f2, p2, l2; reflexivity.
Qed.

Lemma assign_assign u1 u2 tr :
  assign u2 (assign u1 tr) = assign (TrackMetadata.spread u1 u2) tr.
Proof.
  destruct tr, u1 as [d1 g1 f1 p1 l1], u2 as [d2 g2 f2 p2 l2].
  unfold assign, TrackMetadata.spread; simpl.
  destruct d2, g2, f2, p2, l2; reflexivity.
Qed.

Lemma updateTrackDuration_as_metadata a al t d this :
  updateTrackDuration a al t d this
  = updateTrackMetadata a al t (TrackMetadata.mk (Some d) None None None None) this.
Proof. reflexivity. Qed.

Lemma state_eq (a b : t) :
  tracks a = tracks b -> originalData a = originalData b ->
  metadata a = metadata b -> localStorage a = localStorage b -> a = b.
Proof. destruct a, b; simpl; intros; subst; reflexivity. Qed.

Lemma frame_assign u tr : frame (assign u tr) = frame tr.
Proof. reflexivity. Qed.

Lemma map_frame_alter (f : Track.t -> Track.t) i l :
  (forall tr, frame (f tr) = frame tr) ->
  List.map frame (alter f i l) = List.map frame l.
Proof.
  intros H. revert i. induction l as [|x l IH]; intros [|i]; try reflexivity.
  - change (alter f 0%nat (x :: l)) with (f x :: l). simpl. now rewrite H.
  - change (alter f (S i) (x :: l)) with (x :: alter f i l). simpl. now rewrite IH.
Qed.

Lemma same_track_key a al t tr :
  same_track a al t tr = true ->
  createTrackKey (Track.artist tr) (Track.album tr) (Track.track tr)
  = createTrackKey a al t.
Proof.
  unfold same_track. intros H.
  apply andb_prop in H as [H Ht]. apply andb_prop in H as [Ha Hal].
  apply String.eqb_eq in Ha, Hal, Ht. now rewrite Ha, Hal, Ht.
Qed.

Lemma findIndex_Some {A} (p : A -> bool) l i :
  JS.findIndex p l = Some i -> exists x, nth_error l i = Some x /\ p x = true.
Proof.
  revert i. induction l as [|y l IH]; intros i; simpl; [discriminate|].
  destruct (p y) eqn:E.
  - intros [= <-]. now exists y.
  - destruct (JS.findIndex p l) as [n|]; [|discriminate].
    intros [= <-]. apply (IH n eq_refl).
Qed.

End UpdateLaws.

(** X1. Two updates of one identity in a row amount to one update with
    the merged fields, the later value winning where both set a field. *)
Theorem updates_of_one_identity_compose artist album track u1 u2 this :
  MusicAnalyzer.updateTrackMetadata artist album track u2
    (MusicAnalyzer.updateTrackMetadata artist album track u1 this)
  = MusicAnalyzer.updateTrackMetadata artist album track
      (TrackMetadata.spread u1 u2) this.
Proof.
  apply state_eq.
  - rewrite !update_tracks.
    destruct (JS.findIndex _ (MusicAnalyzer.tracks this)) as [i|] eqn:Hi.
    + rewrite findIndex_alter by (intros; apply same_track_assign).
      rewrite Hi, list_alter_alter_eq.
      apply list_alter_ext; [|reflexivity].
      intros x _. apply assign_assign.
    + now rewrite Hi.
  - reflexivity.
  - rewrite !update_metadata.
    now rewrite lookup_insert_eq, insert_insert_eq, spread_assoc.
  - rewrite !update_localStorage, insert_insert_eq. f_equal.
    rewrite !update_metadata.
    now rewrite lookup_insert_eq, insert_insert_eq, spread_assoc.
Qed.

Section UpdateCommute.
Import MusicAnalyzer.

Lemma same_track_exclusive a1 al1 t1 a2 al2 t2 tr :
  createTrackKey a1 al1 t1 <> createTrackKey a2 al2 t2 ->
  same_track a1 al1 t1 tr = true -> same_track a2 al2 t2 tr = true -> False.
Proof.
  intros Hk H1 H2. apply Hk.
  now rewrite <- (same_track_key _ _ _ _ H1), <- (same_track_key _ _ _ _ H2).
Qed.

Lemma update_tracks_commute a1 al1 t1 u1 a2 al2 t2 u2 l :
  createTrackKey a1 al1 t1 <> createTrackKey a2 al2 t2 ->
  match JS.findIndex (same_track a1 al1 t1)
          match JS.findIndex (same_track a2 al2 t2) l with
          | Some j => alter (assign u2) j l
          | None => l
          end with
  | Some i =>
      alter (assign u1) i
        match JS.findIndex (same_track a2 al2 t2) l with
        | Some j => alter (assign u2) j l
        | None => l
        end
  | None =>
      match JS.findIndex (same_track a2 al2 t2) l with
      | Some j => alter (assign u2) j l
      | None => l
      end
  end
  = match JS.findIndex (same_track a2 al2 t2)
            match JS.findIndex (same_track a1 al1 t1) l with
            | Some i => alter (assign u1) i l
            | None => l
            end with
    | Some j =>
        alter (assign u2) j
          match JS.findIndex (same_track a1 al1 t1) l with
          | Some i => alter (assign u1) i l
          | None => l
          end
    | None =>
        match JS.findIndex (same_track a1 al1 t1) l with
        | Some i => alter (assign u1) i l
        | None => l
        end
    end.
Proof.
  intros Hk.
  destruct (JS.findIndex (same_track a1 al1 t1) l) as [i|] eqn:Hi;
    destruct (JS.findIndex (same_track a2 al2 t2) l) as [j|] eqn:Hj;
    rewrite ?findIndex_alter by (intros; apply same_track_assign);
    rewrite ?Hi, ?Hj; try reflexivity.
  apply list_alter_alter_ne. intros ->.
  apply findIndex_Some in Hi as (x & Hx & H1).
  apply findIndex_Some in Hj as (y & Hy & H2).
  rewrite Hx in Hy. injection Hy as <-.
  exact (same_track_exclusive _ _ _ _ _ _ _ Hk H1 H2).
Qed.

End UpdateCommute.

(** X2. Updates of two identities with different keys commute: either
    order leaves the same overlay, the same stored overlay and the same
    records. *)
Theorem updates_of_different_keys_commute a1 al1 t1 u1 a2 al2 t2 u2 this :
  MusicAnalyzer.createTrackKey a1 al1 t1 <> MusicAnalyzer.createTrackKey a2 al2 t2 ->
  MusicAnalyzer.updateTrackMetadata a1 al1 t1 u1
    (MusicAnalyzer.updateTrackMetadata a2 al2 t2 u2 this)
  = MusicAnalyzer.updateTrackMetadata a2 al2 t2 u2
      (MusicAnalyzer.updateTrackMetadata a1 al1 t1 u1 this).
Proof.
  intros Hk.
  assert (Hm : MusicAnalyzer.metadata
                 (MusicAnalyzer.updateTrackMetadata a1 al1 t1 u1
                    (MusicAnalyzer.updateTrackMetadata a2 al2 t2 u2 this))
               = MusicAnalyzer.metadata
                   (MusicAnalyzer.updateTrackMetadata a2 al2 t2 u2
                      (MusicAnalyzer.updateTrackMetadata a1 al1 t1 u1 this))).
  { rewrite !update_metadata.
    rewrite (lookup_insert_ne _ _ _ _ (not_eq_sym Hk)), (lookup_insert_ne _ _ _ _ Hk).
    now apply insert_insert_ne. }
  apply state_eq.
  - rewrite !update_tracks. now apply update_tracks_commute.
  - reflexivity.
  - exact Hm.
  - rewrite (update_localStorage a1), (update_localStorage a2 al2 t2 u2 (MusicAnalyzer.updateTrackMetadata _ _ _ _ _)).
    rewrite Hm, !update_localStorage, !insert_insert_eq. reflexivity.
Qed.

Lemma updates_of_different_keys_commute_witness :
  MusicAnalyzer.updateTrackMetadata "A" "X" "T1" duration_120
    (MusicAnalyzer.updateTrackMetadata "A" "X" "T2" genre_rock (holding two_rows))
  = MusicAnalyzer.updateTrackMetadata "A" "X" "T2" genre_rock
      (MusicAnalyzer.updateTrackMetadata "A" "X" "T1" duration_120 (holding two_rows)).
Proof.
  apply (updates_of_different_keys_commute "A" "X" "T1" duration_120
           "A" "X" "T2" genre_rock (holding two_rows)).
  vm_compute. discriminate.
Defined.

(** X3. Neither update method adds, removes, reorders or re-identifies
    records: the identity, play count and timestamp of the record at
    every index are as before, and the original rows are untouched. *)
Theorem update_keeps_record_frames u this :
  List.map frame (MusicAnalyzer.tracks (apply_update u this))
    = List.map frame (MusicAnalyzer.tracks this)
  /\ length (MusicAnalyzer.tracks (apply_update u this))
     = length (MusicAnalyzer.tracks this)
  /\ MusicAnalyzer.originalData (apply_update u this)
     = MusicAnalyzer.originalData this.
Proof.
  assert (H : List.map frame (MusicAnalyzer.tracks (apply_update u this))
              = List.map frame (MusicAnalyzer.tracks this)).
  { destruct u as [a al t updates|a al t d]; cbn [apply_update];
      rewrite ?updateTrackDuration_as_metadata, update_tracks;
      destruct (JS.findIndex _ _); try reflexivity;
      apply map_frame_alter; intros; apply frame_assign. }
  split; [exact H|]. split.
  - apply (f_equal (@length _)) in H. now rewrite !length_map in H.
  - destruct u; reflexivity.
Qed.

(** X4. The overlay never forgets: after either update method every
    entry that existed still exists, every field that was set is still
    set, and the entries of all other keys are unchanged. *)
Theorem overlay_never_forgets u this k m :
  MusicAnalyzer.metadata this !! k = Some m ->
  exists m',
    MusicAnalyzer.metadata (apply_update u this) !! k = Some m'
    /\ covers m m'
    /\ (k <> update_key u -> m' = m).
Proof.
  intros Hk.
  assert (Hc : forall o, keeps_set o o)
    by (intros [v|]; cbn; [discriminate | exact I]).
  assert (Hs : forall o (v : option string),
            keeps_set o (match v with Some x => Some x | None => o end)).
  { intros [x|] [y|]; cbn; try exact I; discriminate. }
  assert (H : MusicAnalyzer.metadata (apply_update u this)
              = <[update_key u :=
                    TrackMetadata.spread
                      (default TrackMetadata.empty
                         (MusicAnalyzer.metadata this !! update_key u))
                      match u with
                      | SetMetadata _ _ _ updates => updates
                      | SetDuration _ _ _ d =>
                          TrackMetadata.mk (Some d) None None None None
                      end]> (MusicAnalyzer.metadata this)).
  { destruct u; cbn [apply_update update_key];
      rewrite ?updateTrackDuration_as_metadata, update_metadata;
      now destruct (MusicAnalyzer.metadata this !! _). }
  rewrite H. destruct (decide (update_key u = k)) as [<-|Hne].
  - rewrite lookup_insert_eq, Hk. eexists. split; [reflexivity|]. split.
    + unfold covers, TrackMetadata.spread. cbn. repeat split; apply Hs.
    + congruence.
  - rewrite lookup_insert_ne by exact Hne. exists m. split; [exact Hk|].
    split; [unfold covers; repeat split; apply Hc | reflexivity].
Qed.

Lemma overlay_never_forgets_witness :
  exists m',
    MusicAnalyzer.metadata
      (apply_update (SetDuration "A" "X" "T1" "200")
         (MusicAnalyzer.updateTrackMetadata "A" "X" "T1" genre_rock fresh))
      !! "A|X|T1" = Some m'
    /\ covers genre_rock m'
    /\ ("A|X|T1" <> update_key (SetDuration "A" "X" "T1" "200") -> m' = genre_rock).
Proof.
  apply (overlay_never_forgets (SetDuration "A" "X" "T1" "200")
           (MusicAnalyzer.updateTrackMetadata "A" "X" "T1" genre_rock fresh)
           "A|X|T1" genre_rock).
  rewrite update_metadata. apply lookup_insert_eq.
Defined.

(** ** The analyzers of the Papa variant *)

Section Reachable.
Import MusicAnalyzer PapaVariant.

Lemma toTrack_aligned overlay row : aligned (toTrack overlay row) row.
Proof. repeat split. Qed.

Lemma parsed_aligned overlay rows :
  Forall2 aligned (List.map (toTrack overlay) rows) rows.
Proof.
  induction rows as [|r rows IH]; simpl; constructor;
    [apply toTrack_aligned | exact IH].
Qed.

Lemma alter_aligned (f : Track.t -> Track.t) i trs rows :
  (forall tr, frame (f tr) = frame tr) ->
  Forall2 aligned trs rows -> Forall2 aligned (alter f i trs) rows.
Proof.
  intros Hf H. revert i. induction H as [|tr row trs rows Ha H IH]; intros [|i].
  - constructor.
  - constructor.
  - change (alter f 0%nat (tr :: trs)) with (f tr :: trs). constructor; [|exact H].
    specialize (Hf tr). unfold frame in Hf. injection Hf as E1 E2 E3 _ E5.
    destruct Ha as (A1 & A2 & A3 & A4). unfold aligned. now rewrite E1, E2, E3, E5.
  - change (alter f (S i) (tr :: trs)) with (tr :: alter f i trs).
    constructor; [exact Ha | apply IH].
Qed.

(** What [saveToCSV] makes of aligned rows. *)
Lemma enrich_aligned trs rows :
  Forall2 aligned trs rows ->
  exists out,
    enrich rows trs = Some out
    /\ Forall2 aligned trs out
    /\ List.map base_columns out = List.map base_columns rows
    /\ List.map RawTrack.enriched out = List.map (fun tr => Some (enrichment tr)) trs.
Proof.
  induction 1 as [|tr row trs rows Ha H (out & E & A & B & C)].
  - exists []. repeat split. constructor.
  - simpl. rewrite E. eexists. split; [reflexivity|]. repeat split.
    + constructor; [|exact A]. destruct Ha as (A1 & A2 & A3 & A4). now repeat split.
    + simpl. now rewrite B.
    + simpl. now rewrite C.
Qed.

Lemma enrich_again rows trs out :
  enrich rows trs = Some out -> enrich out trs = Some out.
Proof.
  revert trs out. induction rows as [|row rows IH]; intros trs out; simpl.
  - intros [= <-]. reflexivity.
  - destruct trs as [|tr trs]; [discriminate|].
    destruct (enrich rows trs) as [o|] eqn:E; [|discriminate].
    intros [= <-]. simpl. now rewrite (IH _ _ E).
Qed.

(** The invariant of the reachable analyzers. *)
Lemma reachable_invariant this :
  reachable this ->
  Forall2 aligned (tracks this) (originalData this)
  /\ metadata (new (localStorage this)) = metadata this.
Proof.
  induction 1 as [storage|outcome this _ [IHa IHs]|a al t u this _ [IHa IHs]
                 |a al t d this _ [IHa IHs]|unparse this csv this' _ [IHa IHs] Hsave].
  - split; [constructor | reflexivity].
  - unfold parseCSV. destruct outcome as [results|err]; [|now split].
    destruct (errors results); [|now split].
    destruct (Nat.eqb _ 0); [now split|]. cbn [fst]. split.
    + apply parsed_aligned.
    + exact IHs.
  - split.
    + rewrite update_tracks. destruct (JS.findIndex _ _); [|exact IHa].
      apply alter_aligned; [intros; apply frame_assign | exact IHa].
    + unfold new. rewrite update_localStorage, lookup_insert_eq. reflexivity.
  - rewrite updateTrackDuration_as_metadata. split.
    + rewrite update_tracks. destruct (JS.findIndex _ _); [|exact IHa].
      apply alter_aligned; [intros; apply frame_assign | exact IHa].
    + unfold new. rewrite update_localStorage, lookup_insert_eq. reflexivity.
  - unfold saveToCSV in Hsave.
    destruct (enrich_aligned _ _ IHa) as (out & E & A & _).
    rewrite E in Hsave. injection Hsave as _ <-. now split.
Qed.

End Reachable.

(** X5. In the Papa variant the stored overlay is always the overlay in
    memory: an analyzer constructed over the storage of a reachable
    analyzer starts with the same overlay. *)
Theorem restart_recovers_overlay this :
  PapaVariant.reachable this ->
  MusicAnalyzer.metadata (MusicAnalyzer.new (MusicAnalyzer.localStorage this))
  = MusicAnalyzer.metadata this.
Proof. intros H. apply (reachable_invariant this H). Qed.

Lemma restart_recovers_overlay_witness :
  MusicAnalyzer.metadata
    (MusicAnalyzer.new
       (MusicAnalyzer.localStorage
          (MusicAnalyzer.updateTrackMetadata "A" "X" "T1" genre_rock
             (fst (PapaVariant.parseCSV one_event fresh)))))
  = MusicAnalyzer.metadata
      (MusicAnalyzer.updateTrackMetadata "A" "X" "T1" genre_rock
         (fst (PapaVariant.parseCSV one_event fresh))).
Proof.
  apply (restart_recovers_overlay
           (MusicAnalyzer.updateTrackMetadata "A" "X" "T1" genre_rock
              (fst (PapaVariant.parseCSV one_event fresh)))).
  apply PapaVariant.reach_updateTrackMetadata, PapaVariant.reach_parseCSV.
  apply (PapaVariant.reach_new ∅).
Defined.

(** X6. In the Papa variant [saveToCSV] never fails on a reachable
    analyzer: it keeps the records, hands [Papa.unparse] one row per
    record in order, each with the eight original columns unchanged and
    the five enrichment fields of its record. *)
Theorem saveToCSV_serializes_every_record unparse this :
  PapaVariant.reachable this ->
  exists rows,
    MusicAnalyzer.saveToCSV unparse this
    = Some (unparse rows,
            MusicAnalyzer.mk (MusicAnalyzer.tracks this) rows
              (MusicAnalyzer.metadata this) (MusicAnalyzer.localStorage this))
    /\ length rows = length (MusicAnalyzer.tracks this)
    /\ List.map base_columns rows
       = List.map base_columns (MusicAnalyzer.originalData this)
    /\ List.map RawTrack.enriched rows
       = List.map (fun tr => Some (enrichment tr)) (MusicAnalyzer.tracks this).
Proof.
  intros H. destruct (reachable_invariant this H) as [Ha _].
  destruct (enrich_aligned _ _ Ha) as (out & E & A & B & C).
  exists out. unfold MusicAnalyzer.saveToCSV. rewrite E. repeat split; try assumption.
  symmetry. apply (List.Forall2_length A).
Qed.

Lemma saveToCSV_serializes_every_record_witness :
  exists rows,
    MusicAnalyzer.saveToCSV (fun _ => EmptyString)
      (fst (PapaVariant.parseCSV two_events fresh))
    = Some (EmptyString,
            MusicAnalyzer.mk
              (MusicAnalyzer.tracks (fst (PapaVariant.parseCSV two_events fresh))) rows
              (MusicAnalyzer.metadata (fst (PapaVariant.parseCSV two_events fresh)))
              (MusicAnalyzer.localStorage (fst (PapaVariant.parseCSV two_events fresh))))
    /\ length rows = 2%nat.
Proof.
  destruct (saveToCSV_serializes_every_record (fun _ => EmptyString)
              (fst (PapaVariant.parseCSV two_events fresh))
              (PapaVariant.reach_parseCSV two_events fresh (PapaVariant.reach_new ∅)))
    as (rows & E & L & _).
  exists rows. split; [exact E | exact L].
Defined.

(** X7. Saving twice is saving once: after a successful [saveToCSV] a
    second one serializes the same rows and leaves the analyzer as it
    is. *)
Theorem saveToCSV_idempotent unparse unparse' this csv this' :
  MusicAnalyzer.saveToCSV unparse this = Some (csv, this') ->
  MusicAnalyzer.saveToCSV unparse' this'
  = Some (unparse' (MusicAnalyzer.originalData this'), this')
  /\ csv = unparse (MusicAnalyzer.originalData this')
  /\ MusicAnalyzer.tracks this' = MusicAnalyzer.tracks this.
Proof.
  unfold MusicAnalyzer.saveToCSV.
  destruct (MusicAnalyzer.enrich _ _) as [rows|] eqn:E; [|discriminate].
  intros [= <- <-]. cbn. rewrite (enrich_again _ _ _ E). repeat split.
Qed.

Lemma saveToCSV_idempotent_witness :
  let loaded := fst (PapaVariant.parseCSV two_events fresh) in
  let saved :=
    MusicAnalyzer.mk (MusicAnalyzer.tracks loaded)
      (default [] (MusicAnalyzer.enrich (MusicAnalyzer.originalData loaded)
                     (MusicAnalyzer.tracks loaded)))
      (MusicAnalyzer.metadata loaded) (MusicAnalyzer.localStorage loaded) in
  MusicAnalyzer.saveToCSV (fun rows => pretty (length rows)) loaded
    = Some ("2", saved)
  /\ length (MusicAnalyzer.originalData saved) = 2%nat
  /\ MusicAnalyzer.saveToCSV (fun rows => pretty (length rows)) saved
     = Some ("2", saved).
Proof.
  intros loaded saved.
  assert (H1 : MusicAnalyzer.saveToCSV (fun rows => pretty (length rows)) loaded
               = Some ("2", saved)) by (vm_compute; reflexivity).
  split; [exact H1|]. split; [vm_compute; reflexivity|].
  destruct (saveToCSV_idempotent (fun rows => pretty (length rows))
              (fun rows => pretty (length rows)) loaded "2" saved H1) as [H _].
  rewrite H. vm_compute. reflexivity.
Defined.

Lemma papa_failure_keeps_state_witness :
  fst (PapaVariant.parseCSV
         (PapaVariant.Complete (PapaVariant.mkResult [] ["Too few fields"]))
         (holding two_rows))
  = holding two_rows.
Proof.
  exact (papa_failure_keeps_state
           (PapaVariant.Complete (PapaVariant.mkResult [] ["Too few fields"]))
           (holding two_rows) (PapaVariant.ParseErrors "Too few fields") eq_refl).
Defined.

Section PapaLoad.
Import MusicAnalyzer PapaVariant.

Lemma toTrack_enrichment overlay row :
  enrichment (toTrack overlay row)
  = default noMetadata
      (overlay !! createTrackKey (RawTrack.artist row) (RawTrack.album row)
                    (RawTrack.track row)).
Proof.
  unfold toTrack, enrichment. cbn.
  now destruct (overlay !! _) as [[? ? ? ? ?]|].
Qed.

Lemma papa_success_tracks results this :
  snd (parseCSV (Complete results) this) = None ->
  tracks (fst (parseCSV (Complete results) this))
  = List.map (fun r => toTrack (metadata this) (rawTrack r)) (data results).
Proof.
  unfold parseCSV. destruct (errors results); [|discriminate].
  destruct (Nat.eqb _ 0); [discriminate|]. intros _. cbn.
  now rewrite List.map_map.
Qed.

End PapaLoad.

(** X9. In the Papa variant a successful [parseCSV] yields one record
    per data row, in order, and every record, not only the first of its
    identity, carries the overlay entry of its key: the five fields of
    the entry, or five empty strings when the key has no entry; no
    record has a play count. *)
Theorem papa_load_applies_overlay results this :
  snd (PapaVariant.parseCSV (PapaVariant.Complete results) this) = None ->
  let this' := fst (PapaVariant.parseCSV (PapaVariant.Complete results) this) in
  length (MusicAnalyzer.tracks this') = length (PapaVariant.data results)
  /\ Forall
       (fun tr =>
          enrichment tr
          = default PapaVariant.noMetadata
              (MusicAnalyzer.metadata this !! track_key tr)
          /\ Track.count tr = None)
       (MusicAnalyzer.tracks this').
Proof.
  intros H. cbv zeta. rewrite (papa_success_tracks _ _ H). split.
  - apply length_map.
  - apply List.Forall_forall. intros tr Hin. apply in_map_iff in Hin as (r & <- & _).
    split; [apply toTrack_enrichment | reflexivity].
Qed.

Lemma papa_load_applies_overlay_witness :
  length (MusicAnalyzer.tracks (fst (PapaVariant.parseCSV two_events fresh))) = 2%nat.
Proof.
  destruct (papa_load_applies_overlay
              (PapaVariant.mkResult
                 [<["artist" := "A"]> (<["album" := "X"]> (<["track" := "T1"]> ∅));
                  <["artist" := "A"]> (<["album" := "X"]> (<["track" := "T1"]> ∅))] [])
              fresh eq_refl) as [H _].
  exact H.
Defined.

(** X10. Enrichment survives a restart and then reaches every play: after
    an update, an analyzer constructed over the same storage that loads
    a file (Papa variant) gives every record of the updated key the
    merged overlay entry, whatever its position. *)
Theorem enrichment_survives_restart artist album track updates this results :
  let this1 := MusicAnalyzer.updateTrackMetadata artist album track updates this in
  let session2 :=
    PapaVariant.parseCSV (PapaVariant.Complete results)
      (MusicAnalyzer.new (MusicAnalyzer.localStorage this1)) in
  snd session2 = None ->
  Forall
    (fun tr =>
       track_key tr = MusicAnalyzer.createTrackKey artist album track ->
       enrichment tr
       = TrackMetadata.spread
           (default TrackMetadata.empty
              (MusicAnalyzer.metadata this
                 !! MusicAnalyzer.createTrackKey artist album track))
           updates)
    (MusicAnalyzer.tracks (fst session2)).
Proof.
  cbv zeta. intros H. rewrite (papa_success_tracks _ _ H).
  apply List.Forall_forall. intros tr Hin. apply in_map_iff in Hin as (r & <- & _).
  intros Hk. rewrite toTrack_enrichment.
  unfold MusicAnalyzer.new at 1. rewrite update_localStorage, lookup_insert_eq.
  rewrite update_metadata.
  change (MusicAnalyzer.createTrackKey (RawTrack.artist (PapaVariant.rawTrack r))
            (RawTrack.album (PapaVariant.rawTrack r))
            (RawTrack.track (PapaVariant.rawTrack r))
          = MusicAnalyzer.createTrackKey artist album track) in Hk.
  rewrite Hk. cbn [MusicAnalyzer.metadata]. rewrite lookup_insert_eq.
  now destruct (MusicAnalyzer.metadata this !! _).
Qed.

Lemma enrichment_survives_restart_witness :
  Forall
    (fun tr =>
       track_key tr = "A|X|T1" -> enrichment tr = genre_rock)
    (MusicAnalyzer.tracks
       (fst (PapaVariant.parseCSV two_events
               (MusicAnalyzer.new
                  (MusicAnalyzer.localStorage
                     (MusicAnalyzer.updateTrackMetadata "A" "X" "T1" genre_rock fresh)))))).
Proof.
  exact (enrichment_survives_restart "A" "X" "T1" genre_rock fresh
           (PapaVariant.mkResult
              [<["artist" := "A"]> (<["album" := "X"]> (<["track" := "T1"]> ∅));
               <["artist" := "A"]> (<["album" := "X"]> (<["track" := "T1"]> ∅))] [])
           eq_refl).
Defined.

(** ** The rankings as a whole *)

Section Permutations.

Lemma insert_perm {A} (cmp : A -> A -> Z) x l :
  Permutation (JS.insert cmp x l) (x :: l).
Proof.
  induction l as [|y l IH]; simpl; [reflexivity|].
  destruct (Z.ltb 0 (cmp x y)); [|reflexivity].
  rewrite IH. apply perm_swap.
Qed.

Lemma sort_perm {A} (cmp : A -> A -> Z) l : Permutation (JS.sort cmp l) l.
Proof.
  induction l as [|x l IH]; simpl; [reflexivity|].
  now rewrite insert_perm, IH.
Qed.

Lemma insert_index_perm {V} (x : N * (string * V)) l :
  Permutation (JS.insert_index x l) (x :: l).
Proof.
  induction l as [|y l IH]; simpl; [reflexivity|].
  destruct (N.leb (fst x) (fst y)); [reflexivity|].
  rewrite IH. apply perm_swap.
Qed.

Lemma index_entries_perm {V} (o : JS.Obj V) :
  Permutation (List.map snd (JS.index_entries o))
    (List.filter (fun kv => JS.is_array_index (fst kv)) o).
Proof.
  induction o as [|[k v] o IH]; simpl; [reflexivity|].
  unfold JS.is_array_index at 1. simpl.
  destruct (JS.array_index k) as [n|]; [|exact IH].
  rewrite insert_index_perm. simpl. now rewrite IH.
Qed.

Lemma filter_split_perm {A} (p : A -> bool) l :
  Permutation (List.filter p l ++ List.filter (fun x => negb (p x)) l) l.
Proof.
  induction l as [|x l IH]; simpl; [reflexivity|].
  destruct (p x); simpl.
  - now rewrite IH.
  - rewrite <- Permutation_middle. now rewrite IH.
Qed.

(** [Object.entries] lists every property once. *)
Lemma Object_entries_perm {V} (o : JS.Obj V) : Permutation (JS.Object_entries o) o.
Proof.
  unfold JS.Object_entries. rewrite index_entries_perm.
  apply (filter_split_perm (fun kv => JS.is_array_index (fst kv))).
Qed.

Lemma filter_all {A} (p : A -> bool) l :
  (forall x, In x l -> p x = true) -> List.filter p l = l.
Proof.
  induction l as [|x l IH]; intros H; simpl; [reflexivity|].
  rewrite (H x (or_introl eq_refl)), IH; [reflexivity|].
  intros y Hy. apply H. now right.
Qed.

Lemma sumZ_perm l l' : Permutation l l' -> sumZ l = sumZ l'.
Proof. induction 1; simpl; lia. Qed.

End Permutations.

Section Descending.

Let by_count (a b : TopItem.t) : Z := (TopItem.count b - TopItem.count a)%Z.
Let ge_count (a b : TopItem.t) : Prop := (TopItem.count b <= TopItem.count a)%Z.

Lemma insert_sorted x l :
  StronglySorted ge_count l -> StronglySorted ge_count (JS.insert by_count x l).
Proof.
  induction 1 as [|y l Hs IH Hy]; simpl.
  - repeat constructor.
  - unfold by_count at 1.
    destruct (Z.ltb 0 (TopItem.count y - TopItem.count x)) eqn:E.
    + apply Z.ltb_lt in E. constructor; [exact IH|].
      apply List.Forall_forall. intros z Hz.
      apply (Permutation_in _ (insert_perm by_count x l)) in Hz.
      destruct Hz as [<-|Hz]; [unfold ge_count; lia|].
      rewrite List.Forall_forall in Hy. now apply Hy.
    + apply Z.ltb_ge in E. constructor; [now constructor|].
      constructor; [unfold ge_count; lia|].
      rewrite List.Forall_forall in Hy |- *. intros z Hz.
      specialize (Hy z Hz). unfold ge_count in *. lia.
Qed.

Lemma sort_sorted l : StronglySorted ge_count (JS.sort by_count l).
Proof.
  induction l as [|x l IH]; simpl; [constructor | now apply insert_sorted].
Qed.

Lemma sorted_descending l : StronglySorted ge_count l -> descending l.
Proof.
  induction 1 as [|z l Hs IH Hz]; intros i j x y Hij Hi Hj.
  - destruct i; discriminate.
  - destruct j as [|j]; [lia|]. simpl in Hj. destruct i as [|i]; simpl in Hi.
    + injection Hi as <-. rewrite List.Forall_forall in Hz.
      apply Hz. now apply nth_error_In in Hj.
    + apply (IH i j); [lia | exact Hi | exact Hj].
Qed.

Lemma sort_descending l :
  descending (JS.sort (fun a b => (TopItem.count b - TopItem.count a)%Z) l).
Proof. apply sorted_descending, sort_sorted. Qed.

End Descending.

(** X11. The three rankings of [analyze] are in descending order of
    count: an entry at a smaller index never has a smaller count. *)
Theorem rankings_descend g this :
  own_labels g this = true ->
  descending (ranking g (MusicAnalyzer.analyze this)).
Proof.
  intros _. destruct g; cbn [ranking MusicAnalyzer.analyze Statistics.topArtists
    Statistics.topAlbums Statistics.topTracks];
    unfold MusicAnalyzer.getTopItems, MusicAnalyzer.getTopTracks, JS.slice0;
    apply sort_descending.
Qed.

Lemma rankings_descend_witness :
  descending (Statistics.topTracks (MusicAnalyzer.analyze three_plays)).
Proof. exact (rankings_descend ByTrack three_plays eq_refl). Defined.

Section GroupContents.
Context {X V : Type} (key : X -> string) (init : X -> V) (step : V -> V).

Lemma get_Some_In (o : JS.Obj V) k v : JS.get o k = Some v -> In (k, v) o.
Proof.
  induction o as [|[k0 v0] o IH]; simpl; [discriminate|].
  destruct (String.eqb k0 k) eqn:E.
  - intros [= <-]. apply String.eqb_eq in E. subst. now left.
  - intros H. right. now apply IH.
Qed.

Lemma In_indexOf l a : In a l -> exists i, JS.indexOf l a = Some i.
Proof.
  intros H. destruct (indexOf_In_lt l [] a H) as (i & Hi & _).
  rewrite app_nil_r in Hi. now exists i.
Qed.

Lemma indexOf_nth_error l a i : JS.indexOf l a = Some i -> nth_error l i = Some a.
Proof.
  intros H. destruct (indexOf_split _ _ _ H) as (l1 & l2 & -> & _ & <-).
  rewrite nth_error_app2, Nat.sub_diag by lia. reflexivity.
Qed.

(** The dictionary of a grouping loop holds exactly one entry per group:
    the key of its first member, and the first member's initial value
    advanced once per member. *)
Lemma grouped_In xs k v :
  In (k, v) (fold_left (upsert key init step) xs [])
  <-> exists x i,
        nth_error xs i = Some x
        /\ JS.indexOf (List.map key xs) (key x) = Some i
        /\ k = key x
        /\ v = Nat.iter (occurrences key (key x) xs) step (init x).
Proof.
  split.
  - intros Hin.
    assert (Hk : In k (List.map key xs)).
    { apply (in_map fst) in Hin. simpl in Hin.
      rewrite (grouped_keys key init step) in Hin.
      apply keys_after_In in Hin as [[]|H]. exact H. }
    destruct (In_indexOf _ _ Hk) as (i & Hi).
    pose proof (indexOf_nth_error _ _ _ Hi) as Hn.
    rewrite nth_error_map in Hn.
    destruct (nth_error xs i) as [x|] eqn:Hx; [|discriminate].
    injection Hn as <-.
    exists x, i. repeat split; try assumption.
    destruct (first_member_split key init step _ _ _ _ Hi Hx) as (a1 & a2 & Ea & Ha1 & _).
    pose proof (grouped_get_first key init step a1 x a2 Ha1) as G.
    rewrite <- Ea in G.
    apply (get_In _ _ _ (grouped_NoDup key init step xs)) in Hin.
    rewrite G in Hin. now injection Hin.
  - intros (x & i & Hx & Hi & -> & ->).
    destruct (first_member_split key init step _ _ _ _ Hi Hx) as (a1 & a2 & Ea & Ha1 & _).
    pose proof (grouped_get_first key init step a1 x a2 Ha1) as G.
    rewrite <- Ea in G. now apply get_Some_In.
Qed.

Variable size : V -> Z.
Hypothesis size_init : forall x, size (init x) = 0%Z.
Hypothesis size_step : forall v, size (step v) = (size v + 1)%Z.

Lemma sum_set (o : JS.Obj V) k v :
  sumZ (List.map (fun kv => size (snd kv)) (JS.set o k v))
  = (sumZ (List.map (fun kv => size (snd kv)) o)
     - match JS.get o k with Some old => size old | None => 0 end
     + size v)%Z.
Proof.
  induction o as [|[k0 v0] o IH]; simpl; [lia|].
  destruct (String.eqb k0 k); simpl; [lia | rewrite IH; lia].
Qed.

(** Every member adds one to the sizes held in the dictionary. *)
Lemma sum_grouped xs acc :
  sumZ (List.map (fun kv => size (snd kv)) (fold_left (upsert key init step) xs acc))
  = (sumZ (List.map (fun kv => size (snd kv)) acc) + Z.of_nat (length xs))%Z.
Proof.
  revert acc. induction xs as [|x xs IH]; intros acc; simpl fold_left.
  - simpl. lia.
  - rewrite IH. unfold upsert.
    destruct (JS.get acc (key x)) as [v|] eqn:E; rewrite sum_set, E.
    + rewrite size_step. simpl length. lia.
    + rewrite size_step, size_init. simpl length. lia.
Qed.

End GroupContents.

Section RankingContents.
Import MusicAnalyzer.

Lemma fold_left_map {A B C} (f : A -> C -> A) (g : B -> C) l a :
  fold_left f (List.map g l) a = fold_left (fun a x => f a (g x)) l a.
Proof. revert a. induction l as [|x l IH]; intros a; simpl; [reflexivity | apply IH]. Qed.

Lemma countOccurrences_map {X} (f : X -> string) xs :
  countOccurrences (List.map f xs)
  = fold_left (upsert f (fun _ => 0%Z) (fun z => (z + 1)%Z)) xs [].
Proof.
  unfold countOccurrences. rewrite fold_left_map. apply fold_left_pointwise.
  intros acc x. unfold upsert. now destruct (JS.get acc (f x)).
Qed.

Lemma getTopTracks_grouped this :
  getTopTracks this None
  = JS.sort (fun a b => (TopItem.count b - TopItem.count a)%Z)
      (List.map (fun '(key, data) =>
                   TopItem.mk (nth 2 (JS.split "|" key) EmptyString) (tc_count data)
                     (Some (tc_artist data)) (Some (tc_album data))
                     (tc_duration data) (tc_genre data))
         (JS.Object_entries
            (fold_left (upsert track_key tc_init tc_bump) (members ByTrack this) []))).
Proof.
  unfold getTopTracks, JS.slice0. cbn [members].
  now rewrite (fold_left_pointwise count_track (upsert track_key tc_init tc_bump))
    by apply count_track_upsert.
Qed.

Lemma counted_keys_non_blank {X} (f : X -> string) xs kv :
  (forall x, In x xs -> JS.non_blank (f x) = true) ->
  In kv (JS.Object_entries (countOccurrences (List.map f xs))) ->
  (let '(name, _) := kv in
   negb (String.eqb name EmptyString) && JS.non_blank name) = true.
Proof.
  intros Hnb Hin. apply (Permutation_in _ (Object_entries_perm _)) in Hin.
  destruct kv as [k v]. rewrite countOccurrences_map in Hin.
  apply grouped_In in Hin as (x & i & Hx & _ & -> & _).
  apply nth_error_In in Hx. specialize (Hnb x Hx).
  now rewrite Hnb, (non_blank_not_empty _ Hnb).
Qed.

(** The entries of [getTopItems] after [countOccurrences]. *)
Lemma label_ranking_In {X} (f : X -> string) xs item :
  (forall x, In x xs -> JS.non_blank (f x) = true) ->
  In item (getTopItems (countOccurrences (List.map f xs)) None)
  <-> exists x i,
        nth_error xs i = Some x
        /\ JS.indexOf (List.map f xs) (f x) = Some i
        /\ item = label_item (f x) (Z.of_nat (occurrences f (f x) xs)).
Proof.
  intros Hnb. unfold getTopItems, JS.slice0.
  rewrite (filter_all _ _ (fun kv => counted_keys_non_blank f xs kv Hnb)).
  split.
  - intros Hin. apply (Permutation_in _ (sort_perm _ _)) in Hin.
    apply in_map_iff in Hin as ([k v] & <- & Hin).
    apply (Permutation_in _ (Object_entries_perm _)) in Hin.
    rewrite countOccurrences_map in Hin.
    apply grouped_In in Hin as (x & i & Hx & Hi & -> & ->).
    exists x, i. repeat split; try assumption.
    now rewrite iter_succ, Z.add_0_l.
  - intros (x & i & Hx & Hi & ->).
    apply (Permutation_in _ (Permutation_sym (sort_perm _ _))).
    apply in_map_iff. exists (f x, Z.of_nat (occurrences f (f x) xs)).
    split; [reflexivity|].
    apply (Permutation_in _ (Permutation_sym (Object_entries_perm _))).
    rewrite countOccurrences_map. apply grouped_In.
    exists x, i. repeat split; try assumption.
    now rewrite iter_succ, Z.add_0_l.
Qed.

Lemma track_ranking_In this item :
  In item (getTopTracks this None)
  <-> exists r i,
        nth_error (members ByTrack this) i = Some r
        /\ JS.indexOf (List.map track_key (members ByTrack this)) (track_key r) = Some i
        /\ item = track_item r
                    (Z.of_nat (occurrences track_key (track_key r) (members ByTrack this))).
Proof.
  rewrite getTopTracks_grouped. split.
  - intros Hin. apply (Permutation_in _ (sort_perm _ _)) in Hin.
    apply in_map_iff in Hin as ([k v] & <- & Hin).
    apply (Permutation_in _ (Object_entries_perm _)) in Hin.
    apply grouped_In in Hin as (x & i & Hx & Hi & -> & ->).
    exists x, i. repeat split; try assumption.
    now rewrite iter_bump.
  - intros (x & i & Hx & Hi & ->).
    apply (Permutation_in _ (Permutation_sym (sort_perm _ _))).
    apply in_map_iff.
    exists (track_key x,
            Nat.iter (occurrences track_key (track_key x) (members ByTrack this))
              tc_bump (tc_init x)).
    split; [now rewrite iter_bump|].
    apply (Permutation_in _ (Permutation_sym (Object_entries_perm _))).
    apply grouped_In. exists x, i. repeat split; assumption.
Qed.

Lemma label_ranking_sum {X} (f : X -> string) xs :
  (forall x, In x xs -> JS.non_blank (f x) = true) ->
  sumZ (List.map TopItem.count (getTopItems (countOccurrences (List.map f xs)) None))
  = Z.of_nat (length xs).
Proof.
  intros Hnb. unfold getTopItems, JS.slice0.
  rewrite (filter_all _ _ (fun kv => counted_keys_non_blank f xs kv Hnb)).
  rewrite (sumZ_perm _ _ (Permutation_map _ (sort_perm _ _))).
  rewrite List.map_map.
  rewrite (sumZ_perm _ _ (Permutation_map _ (Object_entries_perm _))).
  rewrite countOccurrences_map.
  rewrite (List.map_ext _ (fun kv => (fun z : Z => z) (snd kv)))
    by (now intros [k v]).
  rewrite (sum_grouped f (fun _ => 0%Z) (fun z => (z + 1)%Z) (fun z => z));
    [reflexivity | reflexivity | reflexivity].
Qed.

Lemma track_ranking_sum this :
  sumZ (List.map TopItem.count (getTopTracks this None))
  = Z.of_nat (length (members ByTrack this)).
Proof.
  rewrite getTopTracks_grouped.
  rewrite (sumZ_perm _ _ (Permutation_map _ (sort_perm _ _))).
  rewrite List.map_map.
  rewrite (sumZ_perm _ _ (Permutation_map _ (Object_entries_perm _))).
  rewrite (List.map_ext _ (fun kv => tc_count (snd kv))) by (now intros [k v]).
  rewrite (sum_grouped track_key tc_init tc_bump tc_count);
    [reflexivity | reflexivity | reflexivity].
Qed.

End RankingContents.

(** X12. A ranking of [analyze] lists exactly the groups: an entry is in
    it if and only if it is the entry of the first record of some group,
    with the number of records of that group as its count. *)
Theorem ranking_lists_the_groups g this item :
  own_labels g this = true ->
  (In item (ranking g (MusicAnalyzer.analyze this))
   <-> exists r, first_of_group g this r /\ item = entry g r (group_size g this r)).
Proof.
  intros _. unfold first_of_group, group_size.
  destruct g; cbn [ranking entry group_key MusicAnalyzer.analyze
    Statistics.topArtists Statistics.topAlbums Statistics.topTracks].
  - change (List.filter _ (MusicAnalyzer.tracks this)) with (members ByArtist this).
    rewrite (label_ranking_In Track.artist)
      by (intros x Hx; now apply (members_non_blank_artist this)).
    split.
    + intros (x & i & Hx & Hi & ->). exists x. split; [now exists i | reflexivity].
    + intros (x & (i & Hx & Hi) & ->). now exists x, i.
  - change (List.filter _ (MusicAnalyzer.tracks this)) with (members ByAlbum this).
    rewrite (label_ranking_In Track.album)
      by (intros x Hx; now apply (members_non_blank_album this)).
    split.
    + intros (x & i & Hx & Hi & ->). exists x. split; [now exists i | reflexivity].
    + intros (x & (i & Hx & Hi) & ->). now exists x, i.
  - rewrite track_ranking_In. split.
    + intros (x & i & Hx & Hi & ->). exists x. split; [now exists i | reflexivity].
    + intros (x & (i & Hx & Hi) & ->). now exists x, i.
Qed.

Lemma ranking_lists_the_groups_witness :
  In (label_item "A" 2) (Statistics.topArtists (MusicAnalyzer.analyze three_plays)).
Proof.
  apply (ranking_lists_the_groups ByArtist three_plays (label_item "A" 2) eq_refl).
  exists (row "A" "X" "T1" 1). split; [|reflexivity].
  exists 0%nat. split; reflexivity.
Defined.

(** X13. Every counted record is counted once: the counts of a ranking
    add up to the number of records whose artist (album, track name) is
    not blank. *)
Theorem ranking_counts_add_up g this :
  own_labels g this = true ->
  sumZ (List.map TopItem.count (ranking g (MusicAnalyzer.analyze this)))
  = Z.of_nat (length (members g this)).
Proof.
  intros _.
  destruct g; cbn [ranking MusicAnalyzer.analyze
    Statistics.topArtists Statistics.topAlbums Statistics.topTracks].
  - apply (label_ranking_sum Track.artist).
    intros x Hx. now apply (members_non_blank_artist this).
  - apply (label_ranking_sum Track.album).
    intros x Hx. now apply (members_non_blank_album this).
  - apply track_ranking_sum.
Qed.

Lemma ranking_counts_add_up_witness :
  sumZ (List.map TopItem.count
          (Statistics.topTracks (MusicAnalyzer.analyze three_plays))) = 3%Z.
Proof. exact (ranking_counts_add_up ByTrack three_plays eq_refl). Defined.

(** X14. No record with a duration, no division by zero: when every
    record has the empty string for duration (or there is no record at
    all), the total is 0 and the average is the number 0, not the [NaN]
    of [0 / 0]; without any record the three rankings are empty. *)
Theorem no_duration_no_division this :
  forallb (fun tr => negb (MusicAnalyzer.duration_set tr)) (MusicAnalyzer.tracks this) = true ->
  (Statistics.totalListeningTime (MusicAnalyzer.analyze this) == 0)%Q
  /\ is_value (Statistics.averageTrackDuration (MusicAnalyzer.analyze this)) 0
  /\ (MusicAnalyzer.tracks this = [] ->
      Statistics.topArtists (MusicAnalyzer.analyze this) = []
      /\ Statistics.topAlbums (MusicAnalyzer.analyze this) = []
      /\ Statistics.topTracks (MusicAnalyzer.analyze this) = []).
Proof.
  intros H.
  assert (E : MusicAnalyzer.tracksWithDuration this = []).
  { unfold MusicAnalyzer.tracksWithDuration.
    induction (MusicAnalyzer.tracks this) as [|tr l IH]; [reflexivity|].
    simpl in H |- *. apply andb_prop in H as [H1 H2].
    apply negb_true_iff in H1. rewrite H1. now apply IH. }
  unfold MusicAnalyzer.analyze. cbn [Statistics.totalListeningTime
    Statistics.averageTrackDuration Statistics.topArtists Statistics.topAlbums
    Statistics.topTracks].
  unfold MusicAnalyzer.averageDuration, MusicAnalyzer.totalDuration.
  rewrite E. split; [reflexivity|]. split; [reflexivity|].
  intros Hnil. unfold MusicAnalyzer.getTopTracks. rewrite Hnil.
  repeat split.
Qed.

Lemma no_duration_no_division_witness :
  is_value
    (Statistics.averageTrackDuration
       (MusicAnalyzer.analyze (fst (PapaVariant.parseCSV two_events fresh)))) 0.
Proof.
  destruct (no_duration_no_division (fst (PapaVariant.parseCSV two_events fresh))
              eq_refl) as (_ & H & _).
  exact H.
Defined.

(** ** Identity keys without separator *)

Section BarFree.
Import MusicAnalyzer.

Lemma bar_free_app_inj x y r r' :
  bar_free x = true -> bar_free y = true ->
  (x ++ String "|" r)%string = (y ++ String "|" r')%string -> x = y /\ r = r'.
Proof.
  revert y. induction x as [|c x IH]; intros [|d y] Hx Hy H.
  - now injection H.
  - change (String "|" r = String d (y ++ String "|" r')) in H.
    injection H as <- _. discriminate Hy.
  - change (String c (x ++ String "|" r) = String "|" r') in H.
    injection H as -> _. discriminate Hx.
  - change (String c (x ++ String "|" r) = String d (y ++ String "|" r')) in H.
    injection H as -> H. simpl in Hx, Hy.
    apply andb_prop in Hx as [_ Hx]. apply andb_prop in Hy as [_ Hy].
    destruct (IH y Hx Hy H) as [-> ->]. now split.
Qed.

Lemma split_bar_free_app x r :
  bar_free x = true -> JS.split "|" (x ++ String "|" r) = x :: JS.split "|" r.
Proof.
  induction x as [|c x IH]; intros Hx; [reflexivity|].
  simpl in Hx. apply andb_prop in Hx as [Hc Hx]. apply negb_true_iff in Hc.
  change (String c x ++ String "|" r)%string with (String c (x ++ String "|" r)).
  cbn [JS.split]. rewrite Hc, (IH Hx). reflexivity.
Qed.

Lemma split_bar_free x : bar_free x = true -> JS.split "|" x = [x].
Proof.
  induction x as [|c x IH]; intros Hx; [reflexivity|].
  simpl in Hx. apply andb_prop in Hx as [Hc Hx]. apply negb_true_iff in Hc.
  cbn [JS.split]. rewrite Hc, (IH Hx). reflexivity.
Qed.

Lemma key_segments a al t :
  bar_free a = true -> bar_free al = true ->
  JS.split "|" (createTrackKey a al t) = a :: al :: JS.split "|" t.
Proof.
  intros Ha Hal.
  change (createTrackKey a al t) with (a ++ String "|" (al ++ String "|" t))%string.
  now rewrite (split_bar_free_app a _ Ha), (split_bar_free_app al _ Hal).
Qed.

End BarFree.

(** X15. Keys collide only through a separator: among identities whose
    artist and album contain no ['|'], equal keys mean equal artist,
    album and track. *)
Theorem key_injective_without_separator a al t a' al' t' :
  bar_free a = true -> bar_free al = true ->
  bar_free a' = true -> bar_free al' = true ->
  MusicAnalyzer.createTrackKey a al t = MusicAnalyzer.createTrackKey a' al' t' ->
  a = a' /\ al = al' /\ t = t'.
Proof.
  intros Ha Hal Ha' Hal' H.
  change ((a ++ String "|" (al ++ String "|" t))%string
          = (a' ++ String "|" (al' ++ String "|" t'))%string) in H.
  apply bar_free_app_inj in H as [-> H]; try assumption.
  apply bar_free_app_inj in H as [-> ->]; try assumption.
  repeat split.
Qed.

Lemma key_injective_without_separator_witness :
  "A" = "A" /\ "X" = "X" /\ "T|1" = "T|1".
Proof.
  exact (key_injective_without_separator "A" "X" "T|1" "A" "X" "T|1"
           eq_refl eq_refl eq_refl eq_refl eq_refl).
Defined.

(** The name in the entry built from a record without ['|'] in artist
    and album. *)
Lemma track_item_name tr count :
  bar_free (Track.artist tr) = true -> bar_free (Track.album tr) = true ->
  TopItem.name (track_item tr count) = hd EmptyString (JS.split "|" (Track.track tr))
  /\ (bar_free (Track.track tr) = true ->
      TopItem.name (track_item tr count) = Track.track tr).
Proof.
  intros Ha Hal. unfold track_item. cbn [TopItem.name].
  change (Track.artist tr ++ "|" ++ Track.album tr ++ "|" ++ Track.track tr)
    with (MusicAnalyzer.createTrackKey (Track.artist tr) (Track.album tr) (Track.track tr)).
  rewrite (key_segments _ _ _ Ha Hal). split.
  - cbn [nth]. now destruct (JS.split "|" (Track.track tr)).
  - intros Ht. now rewrite (split_bar_free _ Ht).
Qed.

(** X16. The name [getTopTracks] reports for a group whose first record
    has no ['|'] in artist and album is the track name up to its first
    ['|'], the whole track name when it contains none.  Every entry of
    [topTracks] returned by [analyze] carries the artist and album of
    the first record of a group and, under that condition, this name;
    and every group is reported by such an entry. *)
Theorem reported_name_without_separator this :
  (forall it,
     In it (Statistics.topTracks (MusicAnalyzer.analyze this)) ->
     exists r,
       first_of_group ByTrack this r
       /\ TopItem.artist it = Some (Track.artist r)
       /\ TopItem.album it = Some (Track.album r)
       /\ (bar_free (Track.artist r) = true -> bar_free (Track.album r) = true ->
           TopItem.name it = hd EmptyString (JS.split "|" (Track.track r))
           /\ (bar_free (Track.track r) = true -> TopItem.name it = Track.track r)))
  /\ (forall r,
        first_of_group ByTrack this r ->
        bar_free (Track.artist r) = true -> bar_free (Track.album r) = true ->
        exists it,
          In it (Statistics.topTracks (MusicAnalyzer.analyze this))
          /\ TopItem.artist it = Some (Track.artist r)
          /\ TopItem.album it = Some (Track.album r)
          /\ TopItem.count it = group_size ByTrack this r
          /\ TopItem.name it = hd EmptyString (JS.split "|" (Track.track r))
          /\ (bar_free (Track.track r) = true -> TopItem.name it = Track.track r)).
Proof.
  change (Statistics.topTracks (MusicAnalyzer.analyze this))
    with (MusicAnalyzer.getTopTracks this None).
  split.
  - intros it Hin. apply track_ranking_In in Hin as (r & i & Hn & Hi & ->).
    exists r. split; [exists i; now split|]. split; [reflexivity|].
    split; [reflexivity|]. intros Ha Hal. now apply track_item_name.
  - intros r (i & Hn & Hi) Ha Hal.
    exists (track_item r (group_size ByTrack this r)).
    split; [|split; [reflexivity|split; [reflexivity|split; [reflexivity|]]]].
    + apply track_ranking_In. exists r, i. repeat split; assumption.
    + now apply track_item_name.
Qed.

Lemma reported_name_without_separator_witness :
  exists it,
    In it (Statistics.topTracks
             (MusicAnalyzer.analyze (holding [row "A" "X" "Intro|Outro" 1])))
    /\ TopItem.count it = 1%Z
    /\ TopItem.name it = "Intro".
Proof.
  destruct (reported_name_without_separator (holding [row "A" "X" "Intro|Outro" 1]))
    as [_ H].
  destruct (H (row "A" "X" "Intro|Outro" 1)
              (ex_intro _ 0%nat (conj eq_refl eq_refl)) eq_refl eq_refl)
    as (it & Hin & _ & _ & Hc & Hname & _).
  exists it. split; [exact Hin|]. split; [exact Hc | exact Hname].
Defined.

(** ** A successful parse of the text *)

Section TextRecords.
Import MusicAnalyzer TextVariant.

Lemma trimEnd_cons c r :
  JS.trimEnd (String c r)
  = match JS.trimEnd r with
    | EmptyString => if JS.is_ws c then EmptyString else String c EmptyString
    | r' => String c r'
    end.
Proof. reflexivity. Qed.

Lemma trimEnd_twice s : JS.trimEnd (JS.trimEnd s) = JS.trimEnd s.
Proof.
  induction s as [|c s IH]; [reflexivity|].
  rewrite (trimEnd_cons c s). destruct (JS.trimEnd s) as [|d r] eqn:E.
  - destruct (JS.is_ws c) eqn:Ec; [reflexivity|].
    rewrite trimEnd_cons. cbn [JS.trimEnd]. now rewrite Ec.
  - rewrite trimEnd_cons, IH. reflexivity.
Qed.

Lemma trimStart_head s :
  JS.trimStart s = EmptyString
  \/ exists c r, JS.trimStart s = String c r /\ JS.is_ws c = false.
Proof.
  induction s as [|c s IH]; [now left|].
  cbn [JS.trimStart]. destruct (JS.is_ws c) eqn:E; [exact IH|].
  right. now exists c, s.
Qed.

Lemma trimEnd_head c r :
  JS.is_ws c = false -> exists r', JS.trimEnd (String c r) = String c r'.
Proof.
  intros Hc. cbn [JS.trimEnd]. destruct (JS.trimEnd r) as [|d r'].
  - rewrite Hc. now exists EmptyString.
  - now exists (String d r').
Qed.

(** Trimming a trimmed string changes nothing. *)
Lemma trim_twice s : JS.trim (JS.trim s) = JS.trim s.
Proof.
  unfold JS.trim. destruct (trimStart_head s) as [E|(c & r & E & Hc)]; rewrite E.
  - reflexivity.
  - destruct (trimEnd_head c r Hc) as (r' & E').
    rewrite E'. cbn [JS.trimStart]. rewrite Hc, <- E'. apply trimEnd_twice.
Qed.

Lemma cell_trimmed values i :
  JS.trim (JS.or_string (JS.at_index (List.map JS.trim values) i) EmptyString)
  = JS.or_string (JS.at_index (List.map JS.trim values) i) EmptyString.
Proof.
  destruct i as [n|]; [|reflexivity]. cbn [JS.at_index].
  rewrite nth_error_map. destruct (nth_error values n) as [v|]; [|reflexivity].
  cbn. destruct (JS.trim v) eqn:E; [reflexivity|]. rewrite <- E. apply trim_twice.
Qed.

Lemma or_undefined_not_empty v : JS.or_undefined v <> Some EmptyString.
Proof. destruct v as [[|c r]|]; discriminate. Qed.

(** The loop of [parseCSV]: what it has pushed when it ends, and where
    it stops when it throws. *)
Lemma parse_rows_ok headers rest i acc trs :
  parse_rows headers rest i acc = (trs, None) ->
  exists new,
    trs = (acc ++ new)%list
    /\ length new = length (List.filter JS.non_blank rest)
    /\ Forall parsed_record new.
Proof.
  revert i acc. induction rest as [|l rest IH]; intros i acc; simpl.
  - intros [= <-]. exists []. rewrite app_nil_r. repeat split. constructor.
  - unfold JS.non_blank at 1.
    destruct (String.eqb (JS.trim l) EmptyString); simpl; [apply IH|].
    destruct (negb _); [discriminate|].
    destruct (JS.parseInt _) as [c|]; [|discriminate].
    intros H. apply IH in H as (new & -> & Hlen & Hall).
    eexists (_ :: new). rewrite <- app_assoc. split; [reflexivity|]. split.
    + simpl. now rewrite Hlen.
    + constructor; [|exact Hall].
      unfold parsed_record. cbn.
      repeat split; try discriminate;
        try apply cell_trimmed; apply or_undefined_not_empty.
Qed.

Lemma parse_rows_error headers rest i acc trs e :
  parse_rows headers rest i acc = (trs, Some e) ->
  exists k l new,
    nth_error rest k = Some l
    /\ JS.non_blank l = true
    /\ error_row e = Some (i + k + 1)%nat
    /\ trs = (acc ++ new)%list
    /\ length new = length (List.filter JS.non_blank (firstn k rest)).
Proof.
  revert i acc. induction rest as [|l rest IH]; intros i acc; simpl.
  - discriminate.
  - destruct (String.eqb (JS.trim l) EmptyString) eqn:El.
    + intros H. apply IH in H as (k & l' & new & Hk & Hl & He & -> & Hlen).
      exists (S k), l', new. repeat split; try assumption.
      * rewrite He. f_equal. lia.
      * simpl. unfold JS.non_blank at 1. now rewrite El.
    + assert (Hnb : JS.non_blank l = true) by (unfold JS.non_blank; now rewrite El).
      destruct (negb _).
      { intros [= <- <-]. exists 0%nat, l, []. rewrite app_nil_r.
        repeat split; try assumption. simpl. f_equal. lia. }
      destruct (JS.parseInt _) as [c|].
      * intros H. apply IH in H as (k & l' & new & Hk & Hl & He & -> & Hlen).
        exists (S k), l'. eexists (_ :: new). rewrite <- app_assoc.
        repeat split; try assumption.
        -- rewrite He. f_equal. lia.
        -- simpl. rewrite Hnb. simpl. now rewrite Hlen.
      * intros [= <- <-]. exists 0%nat, l, []. rewrite app_nil_r.
        repeat split; try assumption. simpl. f_equal. lia.
Qed.

End TextRecords.

(** X17. A successful [parseCSV] of the text hands [loadMetadata] one
    record per non-blank line after the header, at least one, each with
    a numeric count, trimmed artist, album and track, optional columns
    absent rather than empty, and no feat, prod or label. *)
Theorem text_parse_success load text this :
  snd (TextVariant.parseCSV load text this) = None ->
  exists trs,
    fst (TextVariant.parseCSV load text this)
    = load (MusicAnalyzer.mk trs (MusicAnalyzer.originalData this)
              (MusicAnalyzer.metadata this) (MusicAnalyzer.localStorage this))
    /\ trs <> []
    /\ length trs = length (List.filter JS.non_blank (tl (JS.split "010" text)))
    /\ Forall parsed_record trs.
Proof.
  intros H.
  destruct (parseCSV_cases load text this)
    as [E|[E|[(m & _ & E & _)|[(e' & _ & _ & _ & E)|[(_ & _ & E)|(Hn & Hne & E)]]]]];
    rewrite E in H |- *; try discriminate H.
  destruct (TextVariant.parse_rows _ _ 1 []) as [trs err] eqn:Hrows.
  simpl in Hn, Hne |- *. subst err.
  exists trs. apply parse_rows_ok in Hrows as (new & -> & Hlen & Hall).
  repeat split; assumption.
Qed.

Lemma text_parse_success_witness :
  exists trs,
    fst (TextVariant.parseCSV TextVariant.loadMetadata two_rows_csv fresh)
    = TextVariant.loadMetadata
        (MusicAnalyzer.mk trs (MusicAnalyzer.originalData fresh)
           (MusicAnalyzer.metadata fresh) (MusicAnalyzer.localStorage fresh))
    /\ length trs = 2%nat.
Proof.
  destruct (text_parse_success TextVariant.loadMetadata two_rows_csv fresh eq_refl)
    as (trs & E & _ & L & _).
  exists trs. split; [exact E | exact L].
Defined.

(** X18. The row number in an error of [parseCSV] is the line number of
    the offending line in the file, counted from 1 with the header and
    the blank lines: that line exists, is not blank and is not the
    header; and the records left in the analyzer are as many as the
    non-blank lines between the header and it. *)
Theorem error_row_is_line_number load text this e row :
  snd (TextVariant.parseCSV load text this) = Some e ->
  error_row e = Some row ->
  exists l,
    (2 <= row)%nat
    /\ nth_error (JS.split "010" text) (row - 1) = Some l
    /\ JS.non_blank l = true
    /\ length (MusicAnalyzer.tracks (fst (TextVariant.parseCSV load text this)))
       = length (List.filter JS.non_blank
                   (firstn (row - 2) (tl (JS.split "010" text)))).
Proof.
  intros H Hrow.
  destruct (parseCSV_cases load text this)
    as [E|[E|[(m & _ & E & _)|[(e' & He' & _ & _ & E)|[(_ & _ & E)|(_ & _ & E)]]]]];
    rewrite E in H |- *; simpl in H; try discriminate H;
    injection H as <-; try discriminate Hrow.
  destruct (TextVariant.parse_rows _ _ 1 []) as [trs err] eqn:Hrows.
  simpl in He' |- *. subst err.
  apply parse_rows_error in Hrows as (k & l & new & Hk & Hl & He & -> & Hlen).
  rewrite Hrow in He. injection He as Hr.
  exists l. replace (row - 1)%nat with (S k) by lia.
  replace (row - 2)%nat with k by lia.
  split; [lia|]. split; [|split; [exact Hl | exact Hlen]].
  destruct (JS.split "010" text) as [|h rest]; [now destruct k|exact Hk].
Qed.

Lemma error_row_is_line_number_witness :
  exists l,
    (2 <= 3)%nat
    /\ nth_error (JS.split "010" bad_count_csv) (3 - 1) = Some l
    /\ JS.non_blank l = true
    /\ length (MusicAnalyzer.tracks
                 (fst (TextVariant.parseCSV TextVariant.loadMetadata bad_count_csv fresh)))
       = length (List.filter JS.non_blank
                   (firstn (3 - 2) (tl (JS.split "010" bad_count_csv)))).
Proof.
  exact (error_row_is_line_number TextVariant.loadMetadata bad_count_csv fresh
           (TextVariant.InvalidCount 3 (Some "abc")) 3 eq_refl eq_refl).
Defined.

(** ** The listening patterns *)

Section Patterns.
Import MusicAnalyzer.

Lemma indexOf_None l k : JS.indexOf l k = None -> ~ In k l.
Proof.
  intros H Hin. destruct (In_indexOf _ _ Hin) as (i & Hi). congruence.
Qed.

(** Reading a count from the dictionary of [countOccurrences], with the
    [|| 0] of the callers. *)
Lemma count_lookup {X} (f : X -> string) xs k :
  JS.or_zero (JS.get (countOccurrences (List.map f xs)) k)
  = Z.of_nat (occurrences f k xs).
Proof.
  rewrite countOccurrences_map.
  destruct (JS.indexOf (List.map f xs) k) as [i|] eqn:Hi.
  - pose proof (indexOf_nth_error _ _ _ Hi) as Hn. rewrite nth_error_map in Hn.
    destruct (nth_error xs i) as [x|] eqn:Hx; [|discriminate].
    injection Hn as <-.
    destruct (first_member_split f (fun _ => 0%Z) (fun z => (z + 1)%Z) _ _ _ _ Hi Hx)
      as (a1 & a2 & -> & Ha1 & _).
    rewrite (grouped_get_first f (fun _ => 0%Z) (fun z => (z + 1)%Z) a1 x a2 Ha1).
    cbn [JS.or_zero]. now rewrite iter_succ, Z.add_0_l.
  - apply indexOf_None in Hi.
    assert (Habs : forall y, In y xs -> f y <> k).
    { intros y Hy E. apply Hi. rewrite <- E. now apply in_map. }
    rewrite (grouped_get_absent f (fun _ => 0%Z) (fun z => (z + 1)%Z) xs [] k Habs).
    now rewrite (occurrences_absent f k xs Habs).
Qed.

Lemma occurrences_hours i hours :
  JS.String_of_number (Some i) <> "NaN" ->
  occurrences JS.String_of_number (JS.String_of_number (Some i)) hours
  = hour_count i hours.
Proof.
  intros Hnan. unfold occurrences, hour_count. f_equal.
  apply List.filter_ext. intros [n|].
  - destruct (Nat.eqb n i) eqn:E.
    + apply Nat.eqb_eq in E. subst. apply String.eqb_refl.
    + apply String.eqb_neq. intros H. cbn [JS.String_of_number] in H.
      apply pretty_nat_inj in H. apply Nat.eqb_neq in E. congruence.
  - apply String.eqb_neq. intros H. apply Hnan. now rewrite <- H.
Qed.

Lemma hour_not_NaN i : (i < 24)%nat -> JS.String_of_number (Some i) <> "NaN".
Proof.
  intros Hi.
  do 24 (destruct i as [|i]; [vm_compute; discriminate|]). lia.
Qed.

Lemma firstn_incl {A} n (l : list A) x : In x (firstn n l) -> In x l.
Proof.
  revert l. induction n as [|n IH]; intros [|y l]; simpl; try tauto.
  intros [H|H]; [now left | right; now apply IH].
Qed.

Lemma sort_sorted_by {A} (f : A -> Z) l :
  StronglySorted (fun a b => (f b <= f a)%Z)
    (JS.sort (fun a b => (f b - f a)%Z) l).
Proof.
  induction l as [|x l IH]; simpl; [constructor|].
  induction IH as [|y s Hs IHs Hy]; simpl.
  - repeat constructor.
  - destruct (Z.ltb 0 (f y - f x)) eqn:E.
    + apply Z.ltb_lt in E. constructor; [exact IHs|].
      apply List.Forall_forall. intros z Hz.
      apply (Permutation_in _ (insert_perm _ x s)) in Hz.
      destruct Hz as [<-|Hz]; [lia|].
      rewrite List.Forall_forall in Hy. now apply Hy.
    + apply Z.ltb_ge in E. constructor; [now constructor|].
      constructor; [lia|].
      rewrite List.Forall_forall in Hy |- *. intros z Hz.
      specialize (Hy z Hz). simpl in Hy. lia.
Qed.

Lemma firstn_descending {A} n (l : list (A * Z)) :
  StronglySorted (fun a b => (snd b <= snd a)%Z) l ->
  descending_pairs (firstn n l).
Proof.
  intros Hs i j x y Hij Hi Hj.
  rewrite nth_error_firstn in Hi, Hj.
  destruct (Nat.ltb i n); [|discriminate]. destruct (Nat.ltb j n); [|discriminate].
  clear n. revert i j Hij Hi Hj.
  induction Hs as [|z s Hs IH Hz]; intros i j Hij Hi Hj.
  - destruct i; discriminate.
  - destruct j as [|j]; [lia|]. simpl in Hj. destruct i as [|i]; simpl in Hi.
    + injection Hi as <-. rewrite List.Forall_forall in Hz.
      apply Hz. now apply nth_error_In in Hj.
    + apply (IH i j); [lia | exact Hi | exact Hj].
Qed.

(** The shape shared by the day and the month pattern. *)
Lemma pattern_shape cap names :
  let pattern :=
    JS.slice0 (Some cap)
      (JS.sort by_second_desc
         (List.map (fun '(name, count) => (name, count))
            (JS.Object_entries (countOccurrences names)))) in
  (length pattern <= cap)%nat
  /\ descending_pairs pattern
  /\ (forall name n, In (name, n) pattern ->
        In name names
        /\ n = Z.of_nat (occurrences (fun k : string => k) name names)).
Proof.
  cbv zeta. unfold JS.slice0. split; [apply firstn_le_length|]. split.
  - apply firstn_descending.
    apply (sort_sorted_by (@snd string Z)).
  - intros name n Hin. apply firstn_incl in Hin.
    apply (Permutation_in _ (sort_perm _ _)) in Hin.
    apply in_map_iff in Hin as ([k v] & [= -> ->] & Hin).
    apply (Permutation_in _ (Object_entries_perm _)) in Hin.
    rewrite countOccurrences_upsert in Hin.
    apply grouped_In in Hin as (x & i & Hx & _ & -> & ->).
    split; [now apply nth_error_In in Hx|].
    now rewrite iter_succ, Z.add_0_l.
Qed.

End Patterns.

(** X19. The hourly pattern always has 24 buckets, the hours 0 to 23 in
    order, and the bucket of an hour holds the number of records with
    that hour; invalid dates (no hour) and the empty store leave the
    buckets at 0. *)
Theorem hourly_pattern_buckets hours i :
  (i < 24)%nat ->
  length (MusicAnalyzer.hourlyPatterns hours) = 24%nat
  /\ nth_error (MusicAnalyzer.hourlyPatterns hours) i
     = Some (i, Z.of_nat (hour_count i hours)).
Proof.
  intros Hi. unfold MusicAnalyzer.hourlyPatterns. split.
  - now rewrite length_map, length_seq.
  - rewrite nth_error_map, nth_error_seq.
    apply Nat.ltb_lt in Hi as Hlt. rewrite Hlt. cbn [option_map Nat.add].
    rewrite count_lookup, occurrences_hours by now apply hour_not_NaN.
    reflexivity.
Qed.

Lemma hourly_pattern_buckets_witness :
  nth_error (MusicAnalyzer.hourlyPatterns [Some 9; None; Some 21; Some 9]%nat) 9
  = Some (9%nat, 2%Z).
Proof.
  destruct (hourly_pattern_buckets [Some 9; None; Some 21; Some 9]%nat 9
              ltac:(lia)) as [_ H].
  exact H.
Defined.

(** X20. The day pattern has at most 7 entries and the month pattern at
    most 12, both in descending order of count; each entry pairs a name
    that occurs in the input with the number of its occurrences. *)
Theorem day_and_month_patterns names :
  own_names names = true ->
  ((length (MusicAnalyzer.getListeningPatternsByDay names) <= 7)%nat
   /\ descending_pairs (MusicAnalyzer.getListeningPatternsByDay names)
   /\ (forall name n,
         In (name, n) (MusicAnalyzer.getListeningPatternsByDay names) ->
         In name names
         /\ n = Z.of_nat (occurrences (fun k : string => k) name names)))
  /\ ((length (MusicAnalyzer.getListeningPatternsByMonth names) <= 12)%nat
      /\ descending_pairs (MusicAnalyzer.getListeningPatternsByMonth names)
      /\ (forall name n,
            In (name, n) (MusicAnalyzer.getListeningPatternsByMonth names) ->
            In name names
            /\ n = Z.of_nat (occurrences (fun k : string => k) name names))).
Proof.
  intros _. split.
  - exact (pattern_shape 7 names).
  - exact (pattern_shape 12 names).
Qed.

Lemma day_and_month_patterns_witness :
  (length (MusicAnalyzer.getListeningPatternsByDay ["Monday"; "Friday"; "Monday"]) <= 7)%nat.
Proof.
  destruct (day_and_month_patterns ["Monday"; "Friday"; "Monday"] eq_refl)
    as [[H _] _].
  exact H.
Defined.

(** ** Submitting a duration on the page *)

Section AtKey.
Context {V : Type} (k : string) (g : V -> V).

Lemma at_key_fst kv : fst (at_key k g kv) = fst kv.
Proof. unfold at_key. now destruct (String.eqb (fst kv) k). Qed.

Lemma at_key_hit v : at_key k g (k, v) = (k, g v).
Proof. unfold at_key. cbn [fst snd]. now rewrite String.eqb_refl. Qed.

Lemma at_key_miss k0 v : String.eqb k0 k = false -> at_key k g (k0, v) = (k0, v).
Proof. intros E. unfold at_key. cbn [fst snd]. now rewrite E. Qed.

Lemma get_at_key_eq (o : JS.Obj V) :
  JS.get (List.map (at_key k g) o) k = option_map g (JS.get o k).
Proof.
  induction o as [|[k0 v0] o IH]; [reflexivity|].
  cbn [List.map]. destruct (String.eqb k0 k) eqn:E.
  - apply String.eqb_eq in E. subst k0. rewrite at_key_hit. cbn [JS.get].
    now rewrite String.eqb_refl.
  - rewrite (at_key_miss _ _ E). cbn [JS.get]. now rewrite E.
Qed.

Lemma get_at_key_ne (o : JS.Obj V) k' :
  k' <> k -> JS.get (List.map (at_key k g) o) k' = JS.get o k'.
Proof.
  intros Hne. induction o as [|[k0 v0] o IH]; [reflexivity|].
  cbn [List.map]. destruct (String.eqb k0 k) eqn:E.
  - apply String.eqb_eq in E. subst k0. rewrite at_key_hit. cbn [JS.get].
    assert (E' : String.eqb k k' = false) by (apply String.eqb_neq; congruence).
    now rewrite E'.
  - rewrite (at_key_miss _ _ E). cbn [JS.get].
    destruct (String.eqb k0 k'); [reflexivity | exact IH].
Qed.

Lemma set_at_key_eq (o : JS.Obj V) w :
  JS.set (List.map (at_key k g) o) k (g w) = List.map (at_key k g) (JS.set o k w).
Proof.
  induction o as [|[k0 v0] o IH].
  - cbn [List.map JS.set]. now rewrite at_key_hit.
  - cbn [List.map JS.set]. destruct (String.eqb k0 k) eqn:E.
    + apply String.eqb_eq in E. subst k0. rewrite !at_key_hit. cbn [JS.set List.map].
      rewrite String.eqb_refl. cbn [List.map]. now rewrite at_key_hit.
    + rewrite (at_key_miss _ _ E). cbn [JS.set List.map]. rewrite E.
      cbn [List.map]. now rewrite (at_key_miss _ _ E), IH.
Qed.

Lemma set_at_key_ne (o : JS.Obj V) k' w :
  k' <> k ->
  JS.set (List.map (at_key k g) o) k' w = List.map (at_key k g) (JS.set o k' w).
Proof.
  intros Hne.
  assert (E' : String.eqb k' k = false) by now apply String.eqb_neq.
  induction o as [|[k0 v0] o IH].
  - cbn [List.map JS.set]. now rewrite (at_key_miss _ _ E').
  - cbn [List.map JS.set]. destruct (String.eqb k0 k) eqn:E.
    + apply String.eqb_eq in E. subst k0. rewrite at_key_hit. cbn [JS.set].
      assert (E2 : String.eqb k k' = false) by (apply String.eqb_neq; congruence).
      rewrite E2. cbn [List.map]. now rewrite at_key_hit, IH.
    + rewrite (at_key_miss _ _ E). cbn [JS.set].
      destruct (String.eqb k0 k') eqn:E3; cbn [List.map].
      * apply String.eqb_eq in E3. subst k0. now rewrite (at_key_miss _ _ E').
      * now rewrite (at_key_miss _ _ E), IH.
Qed.

Lemma map_at_key_absent (o : JS.Obj V) :
  JS.get o k = None -> List.map (at_key k g) o = o.
Proof.
  induction o as [|[k0 v0] o IH]; [reflexivity|]. cbn [JS.get].
  destruct (String.eqb k0 k) eqn:E; [discriminate|].
  intros H. cbn [List.map]. now rewrite (at_key_miss _ _ E), (IH H).
Qed.

Lemma index_entries_at_key (o : JS.Obj V) :
  JS.index_entries (List.map (at_key k g) o)
  = List.map (fun nkv => (fst nkv, at_key k g (snd nkv))) (JS.index_entries o).
Proof.
  induction o as [|[k0 v0] o IH]; [reflexivity|].
  cbn [List.map JS.index_entries].
  assert (Ek : fst (at_key k g (k0, v0)) = k0) by apply at_key_fst.
  destruct (at_key k g (k0, v0)) as [k1 v1] eqn:Eh. cbn [fst] in Ek. subst k1.
  destruct (JS.array_index k0) as [n|]; [|exact IH].
  rewrite IH. clear IH.
  induction (JS.index_entries o) as [|y l IHl]; cbn [JS.insert_index List.map snd fst].
  - now rewrite Eh.
  - destruct (N.leb n (fst y)); cbn [List.map snd fst]; [now rewrite Eh|].
    now rewrite IHl.
Qed.

Lemma entries_at_key (o : JS.Obj V) :
  JS.Object_entries (List.map (at_key k g) o)
  = List.map (at_key k g) (JS.Object_entries o).
Proof.
  unfold JS.Object_entries. rewrite List.map_app, index_entries_at_key, !List.map_map.
  cbn [snd]. f_equal.
  induction o as [|kv o IH]; [reflexivity|].
  cbn [List.map List.filter]. rewrite at_key_fst.
  destruct (negb (JS.is_array_index (fst kv))); cbn [List.map]; now rewrite IH.
Qed.

Context {X : Type} (key : X -> string) (init : X -> V) (step : V -> V).
Hypothesis g_step : forall v, g (step v) = step (g v).

Lemma upsert_at_key acc y :
  (key y = k -> JS.get acc k <> None) ->
  upsert key init step (List.map (at_key k g) acc) y
  = List.map (at_key k g) (upsert key init step acc y).
Proof.
  intros Hk. unfold upsert. destruct (String.eqb (key y) k) eqn:E.
  - apply String.eqb_eq in E. specialize (Hk E). rewrite E, get_at_key_eq.
    destruct (JS.get acc k) as [v|]; [|congruence]. cbn [option_map].
    now rewrite <- g_step, set_at_key_eq.
  - apply String.eqb_neq in E. rewrite (get_at_key_ne _ _ E).
    destruct (JS.get acc (key y)); now apply set_at_key_ne.
Qed.

Lemma fold_at_key xs acc :
  JS.get acc k <> None ->
  fold_left (upsert key init step) xs (List.map (at_key k g) acc)
  = List.map (at_key k g) (fold_left (upsert key init step) xs acc).
Proof.
  revert acc. induction xs as [|y xs IH]; intros acc Hk; [reflexivity|].
  cbn [fold_left]. rewrite upsert_at_key by (intros _; exact Hk).
  apply IH. destruct (String.eqb (key y) k) eqn:E.
  - apply String.eqb_eq in E. rewrite <- E, upsert_get_eq. discriminate.
  - apply String.eqb_neq in E. now rewrite upsert_get_ne.
Qed.

(** Replacing the first member of a group by one with the same key only
    changes the entry of that group. *)
Lemma grouped_replace_first xs1 x x' xs2 :
  key x = k -> key x' = k ->
  (forall y, In y xs1 -> key y <> k) ->
  g (step (init x)) = step (init x') ->
  fold_left (upsert key init step) (xs1 ++ x' :: xs2) []
  = List.map (at_key k g) (fold_left (upsert key init step) (xs1 ++ x :: xs2) []).
Proof.
  intros Hx Hx' H1 Hg. rewrite !fold_left_app. cbn [fold_left].
  set (A := fold_left (upsert key init step) xs1 []).
  assert (HA : JS.get A k = None).
  { unfold A. now rewrite (grouped_get_absent key init step xs1 [] k H1). }
  assert (E : upsert key init step A x'
              = List.map (at_key k g) (upsert key init step A x)).
  { unfold upsert. rewrite Hx, Hx', HA, <- Hg, <- set_at_key_eq.
    now rewrite (map_at_key_absent A HA). }
  rewrite E. apply fold_at_key.
  rewrite <- Hx, upsert_get_eq. discriminate.
Qed.

End AtKey.

Section SortMap.

Lemma insert_map {A B} (cmp : B -> B -> Z) (f : A -> B) x l :
  JS.insert cmp (f x) (List.map f l)
  = List.map f (JS.insert (fun a b => cmp (f a) (f b)) x l).
Proof.
  induction l as [|y l IH]; [reflexivity|].
  cbn [List.map JS.insert]. destruct (Z.ltb 0 (cmp (f x) (f y))); cbn [List.map];
    [now rewrite IH | reflexivity].
Qed.

Lemma sort_map {A B} (cmp : B -> B -> Z) (f : A -> B) l :
  JS.sort cmp (List.map f l)
  = List.map f (JS.sort (fun a b => cmp (f a) (f b)) l).
Proof.
  induction l as [|x l IH]; [reflexivity|].
  cbn [List.map JS.sort]. now rewrite IH, insert_map.
Qed.

Lemma sort_pointwise {A} (c1 c2 : A -> A -> Z) l :
  (forall a b, c1 a b = c2 a b) -> JS.sort c1 l = JS.sort c2 l.
Proof.
  intros H. induction l as [|x l IH]; [reflexivity|].
  cbn [JS.sort]. rewrite IH. generalize (JS.sort c2 l). intros s.
  induction s as [|y s IHs]; [reflexivity|].
  cbn [JS.insert]. now rewrite H, IHs.
Qed.

End SortMap.

Lemma filter_first {A} (p : A -> bool) l x rest :
  List.filter p l = x :: rest ->
  exists m1 m2, l = (m1 ++ x :: m2)%list
    /\ List.filter p m1 = [] /\ List.filter p m2 = rest.
Proof.
  induction l as [|y l IH]; [discriminate|]. cbn [List.filter].
  destruct (p y) eqn:E.
  - intros H. injection H as -> Hr. exists [], l. now split.
  - intros H. destruct (IH H) as (m1 & m2 & -> & H1 & H2).
    exists (y :: m1), m2. cbn [List.filter]. rewrite E. now split.
Qed.

(** The first record of a track group is the record the update of its
    identity finds. *)
Lemma first_of_group_first_match an r :
  first_of_group ByTrack an r ->
  exists l1 l2,
    MusicAnalyzer.tracks an = (l1 ++ r :: l2)%list
    /\ forallb (fun y => negb (MusicAnalyzer.same_track (Track.artist r)
                                 (Track.album r) (Track.track r) y)) l1 = true
    /\ JS.non_blank (Track.track r) = true.
Proof.
  intros (i & Hn & Hi). cbn [group_key] in Hi.
  destruct (first_member_split track_key tc_init tc_bump _ _ _ _ Hi Hn)
    as (xs1 & xs2 & Hm & Hbefore & _).
  assert (Hnb : JS.non_blank (Track.track r) = true).
  { apply nth_error_In in Hn. cbn [members] in Hn. now apply List.filter_In in Hn. }
  cbn [members] in Hm.
  destruct (filter_eq_app _ _ _ _ Hm) as (a & b & Hab & Ha & Hb).
  destruct (filter_first _ _ _ _ Hb) as (m1 & m2 & -> & Hm1 & _).
  exists (a ++ m1)%list, m2. split; [|split].
  - now rewrite Hab, <- List.app_assoc.
  - apply List.forallb_forall. intros y Hy.
    destruct (MusicAnalyzer.same_track _ _ _ y) eqn:Es; [|reflexivity]. exfalso.
    pose proof (same_track_key _ _ _ _ Es) as Hk.
    unfold MusicAnalyzer.same_track in Es.
    apply andb_true_iff in Es as [_ Et]. apply String.eqb_eq in Et.
    assert (Hy' : JS.non_blank (Track.track y) = true) by now rewrite Et.
    apply List.in_app_or in Hy as [Hy|Hy].
    + apply (Hbefore y); [|exact Hk]. rewrite <- Ha. apply List.filter_In. now split.
    + assert (Hin : In y (List.filter (fun tr => JS.non_blank (Track.track tr)) m1))
        by (apply List.filter_In; now split).
      now rewrite Hm1 in Hin.
  - exact Hnb.
Qed.

(** Two records without the separator in their names share a key only
    when they share the identity. *)
Lemma sep_free_key_inj x y :
  sep_free x = true -> sep_free y = true -> track_key x = track_key y ->
  MusicAnalyzer.same_track (Track.artist y) (Track.album y) (Track.track y) x = true.
Proof.
  unfold sep_free. intros Hx Hy Hk.
  apply andb_true_iff in Hx as [Hx Hx3]. apply andb_true_iff in Hx as [Hx1 Hx2].
  apply andb_true_iff in Hy as [Hy Hy3]. apply andb_true_iff in Hy as [Hy1 Hy2].
  unfold track_key in Hk.
  change (MusicAnalyzer.createTrackKey (Track.artist x) (Track.album x) (Track.track x))
    with (Track.artist x ++ String "|" (Track.album x ++ String "|" (Track.track x))) in Hk.
  change (MusicAnalyzer.createTrackKey (Track.artist y) (Track.album y) (Track.track y))
    with (Track.artist y ++ String "|" (Track.album y ++ String "|" (Track.track y))) in Hk.
  apply bar_free_app_inj in Hk as [Ha Hk]; [|assumption..].
  apply bar_free_app_inj in Hk as [Hb Hc]; [|assumption..].
  unfold MusicAnalyzer.same_track. rewrite Ha, Hb, Hc, !String.eqb_refl. reflexivity.
Qed.

Lemma tc_item_count_at_key k tr kv :
  TopItem.count (tc_item (at_key k (tc_fields_of tr) kv)) = TopItem.count (tc_item kv).
Proof. unfold at_key. now destruct (String.eqb (fst kv) k). Qed.

(** Among entries with distinct keys, completing the one entry that
    lacks a field leaves one entry less that lacks it. *)
Lemma one_entry_gains (lacks : TopItem.t -> bool) k g v
    (S : list (string * MusicAnalyzer.TrackCount)) :
  List.NoDup (List.map fst S) -> In (k, v) S ->
  lacks (tc_item (k, v)) = true ->
  lacks (tc_item (k, g v)) = false ->
  (length (List.filter lacks (List.map tc_item (List.map (at_key k g) S))) + 1
   = length (List.filter lacks (List.map tc_item S)))%nat.
Proof.
  intros Hnd Hin Hl Hg. induction S as [|[k0 v0] S IH]; [contradiction|].
  cbn [List.map fst] in Hnd. apply List.NoDup_cons_iff in Hnd as [Hk0 Hnd].
  cbn [List.map]. destruct (String.eqb k0 k) eqn:E.
  - apply String.eqb_eq in E. subst k0.
    assert (v0 = v) as ->.
    { destruct Hin as [H|H]; [congruence|]. exfalso. apply Hk0.
      apply (List.in_map fst) in H. exact H. }
    rewrite at_key_hit. cbn [List.filter]. rewrite Hl, Hg.
    rewrite (map_at_key_absent k g S).
    + cbn [length]. lia.
    + destruct (JS.get S k) as [w|] eqn:Eg; [|reflexivity]. exfalso. apply Hk0.
      apply get_Some_In in Eg. apply (List.in_map fst) in Eg. exact Eg.
  - rewrite (at_key_miss _ _ _ _ E). cbn [List.filter].
    destruct Hin as [H|H].
    { injection H as -> _. now rewrite String.eqb_refl in E. }
    specialize (IH Hnd H).
    destruct (lacks (tc_item (k0, v0))); cbn [length]; lia.
Qed.

Lemma members_by_track_split an l1 r l2 :
  MusicAnalyzer.tracks an = (l1 ++ r :: l2)%list ->
  JS.non_blank (Track.track r) = true ->
  members ByTrack an
  = (List.filter (fun tr => JS.non_blank (Track.track tr)) l1
     ++ r :: List.filter (fun tr => JS.non_blank (Track.track tr)) l2)%list.
Proof.
  intros Ht Hnb. cbn [members]. rewrite Ht, List.filter_app. cbn [List.filter].
  now rewrite Hnb.
Qed.

Lemma topTracks_entries an :
  MusicAnalyzer.getTopTracks an None
  = List.map tc_item
      (JS.sort (fun a b => (MusicAnalyzer.tc_count (snd b) - MusicAnalyzer.tc_count (snd a))%Z)
         (JS.Object_entries
            (fold_left (upsert track_key tc_init tc_bump) (members ByTrack an) []))).
Proof.
  rewrite getTopTracks_grouped.
  rewrite (List.map_ext _ tc_item) by (intros [k v]; reflexivity).
  now rewrite sort_map.
Qed.

(** Completing the first record of a track group that lacks a field
    leaves one entry less of [topTracks] that lacks it. *)
Lemma one_entry_less (lacks : TopItem.t -> bool) u an l1 r l2 :
  MusicAnalyzer.tracks an = (l1 ++ r :: l2)%list ->
  forallb (fun y => negb (MusicAnalyzer.same_track (Track.artist r)
                            (Track.album r) (Track.track r) y)) l1 = true ->
  JS.non_blank (Track.track r) = true ->
  forallb sep_free (MusicAnalyzer.tracks an) = true ->
  (forall c, lacks (tc_item (track_key r, tc_fields_of r c)) = true) ->
  (forall c, lacks (tc_item (track_key r, tc_fields_of (MusicAnalyzer.assign u r) c))
             = false) ->
  (length (List.filter lacks
             (Statistics.topTracks
                (MusicAnalyzer.analyze
                   (MusicAnalyzer.updateTrackMetadata (Track.artist r) (Track.album r)
                      (Track.track r) u an)))) + 1
   = length (List.filter lacks (Statistics.topTracks (MusicAnalyzer.analyze an))))%nat.
Proof.
  intros Ht Hl1 Hnb Hsep Hlack Hgain.
  set (an1 := MusicAnalyzer.updateTrackMetadata _ _ _ u an).
  assert (Ht1 : MusicAnalyzer.tracks an1 = (l1 ++ MusicAnalyzer.assign u r :: l2)%list).
  { apply update_first_match; [exact Ht | exact Hl1 |].
    unfold MusicAnalyzer.same_track. now rewrite !String.eqb_refl. }
  set (r' := MusicAnalyzer.assign u r) in *.
  set (nb := fun tr => JS.non_blank (Track.track tr)).
  pose proof (members_by_track_split an l1 r l2 Ht Hnb) as Hm.
  pose proof (members_by_track_split an1 l1 r' l2 Ht1 Hnb) as Hm1.
  fold nb in Hm, Hm1.
  assert (Hbefore : forall y, In y (List.filter nb l1) -> track_key y <> track_key r).
  { intros y Hy Hk. apply List.filter_In in Hy as [Hy _].
    rewrite List.forallb_forall in Hl1. specialize (Hl1 y Hy).
    rewrite List.forallb_forall in Hsep.
    rewrite (sep_free_key_inj y r) in Hl1; [discriminate | | | exact Hk].
    - apply Hsep. rewrite Ht. apply List.in_or_app. now left.
    - apply Hsep. rewrite Ht. apply List.in_or_app. right. now left. }
  set (k := track_key r) in *.
  set (g := tc_fields_of r').
  set (D := fold_left (upsert track_key tc_init tc_bump) (members ByTrack an) []).
  assert (HD1 : fold_left (upsert track_key tc_init tc_bump) (members ByTrack an1) []
                = List.map (at_key k g) D).
  { unfold D. rewrite Hm, Hm1.
    apply grouped_replace_first; try reflexivity. exact Hbefore. }
  change (Statistics.topTracks (MusicAnalyzer.analyze an1))
    with (MusicAnalyzer.getTopTracks an1 None).
  change (Statistics.topTracks (MusicAnalyzer.analyze an))
    with (MusicAnalyzer.getTopTracks an None).
  rewrite !topTracks_entries, HD1. fold D.
  rewrite entries_at_key.
  set (cmp := fun a b : string * MusicAnalyzer.TrackCount =>
                (MusicAnalyzer.tc_count (snd b) - MusicAnalyzer.tc_count (snd a))%Z).
  rewrite sort_map.
  rewrite (sort_pointwise _ cmp).
  2:{ intros a b. unfold cmp.
      pose proof (tc_item_count_at_key k r' a) as Ha.
      pose proof (tc_item_count_at_key k r' b) as Hb.
      cbn [tc_item TopItem.count] in Ha, Hb. fold g in Ha, Hb. now rewrite Ha, Hb. }
  set (S := JS.sort cmp (JS.Object_entries D)).
  assert (Hget : JS.get D k
                 = Some (Nat.iter (occurrences track_key k (members ByTrack an))
                           tc_bump (tc_init r))).
  { unfold D, k. rewrite Hm. apply (grouped_get_first track_key tc_init tc_bump).
    exact Hbefore. }
  apply (one_entry_gains lacks k g
           (Nat.iter (occurrences track_key k (members ByTrack an)) tc_bump (tc_init r))).
  - apply (Permutation_NoDup (l := List.map fst D)).
    + apply Permutation_map. symmetry.
      etransitivity; [apply sort_perm | apply Object_entries_perm].
    + apply (grouped_NoDup track_key tc_init tc_bump).
  - apply (Permutation_in (l := D)).
    + symmetry. etransitivity; [apply sort_perm | apply Object_entries_perm].
    + now apply get_Some_In.
  - rewrite iter_bump. apply (Hlack (MusicAnalyzer.mkTrackCount _ EmptyString EmptyString None None)).
  - apply Hgain.
Qed.

Lemma analyze_of_tracks a b :
  MusicAnalyzer.tracks a = MusicAnalyzer.tracks b ->
  MusicAnalyzer.analyze a = MusicAnalyzer.analyze b.
Proof.
  intros H.
  unfold MusicAnalyzer.analyze, MusicAnalyzer.averageDuration, MusicAnalyzer.totalDuration,
    MusicAnalyzer.tracksWithDuration, MusicAnalyzer.getTopTracks.
  now rewrite H.
Qed.

Lemma enrich_enough rows trs :
  (length rows <= length trs)%nat -> MusicAnalyzer.enrich rows trs <> None.
Proof.
  revert trs. induction rows as [|row rows IH]; intros trs Hlen; [discriminate|].
  destruct trs as [|tr trs]; [cbn in Hlen; lia|].
  cbn [MusicAnalyzer.enrich]. cbn [length] in Hlen.
  specialize (IH trs ltac:(lia)).
  destruct (MusicAnalyzer.enrich rows trs); [discriminate | congruence].
Qed.

(** An entry of [topTracks] stands for the first record of its group;
    without separators in the names, its name, artist and album are the
    identity of that record, which is the record an update of that
    identity finds. *)
Lemma ranked_entry_record an it :
  forallb sep_free (MusicAnalyzer.tracks an) = true ->
  In it (MusicAnalyzer.getTopTracks an None) ->
  exists r n l1 l2,
    it = track_item r n
    /\ MusicAnalyzer.tracks an = (l1 ++ r :: l2)%list
    /\ forallb (fun y => negb (MusicAnalyzer.same_track (Track.artist r)
                                 (Track.album r) (Track.track r) y)) l1 = true
    /\ JS.non_blank (Track.track r) = true
    /\ TopItem.name it = Track.track r.
Proof.
  intros Hsep Hin.
  apply track_ranking_In in Hin as (r & i & Hn & Hi & ->).
  destruct (first_of_group_first_match an r) as (l1 & l2 & Ht & Hl1 & Hnb).
  { exists i. now split. }
  exists r, (Z.of_nat (occurrences track_key (track_key r) (members ByTrack an))), l1, l2.
  repeat (split; [first [reflexivity | assumption]|]).
  assert (Hr : sep_free r = true).
  { rewrite List.forallb_forall in Hsep. apply Hsep. rewrite Ht.
    apply List.in_or_app. right. now left. }
  unfold sep_free in Hr.
  apply andb_true_iff in Hr as [Hr H3]. apply andb_true_iff in Hr as [H1 H2].
  cbn [track_item TopItem.name].
  change (Track.artist r ++ "|" ++ Track.album r ++ "|" ++ Track.track r)
    with (MusicAnalyzer.createTrackKey (Track.artist r) (Track.album r) (Track.track r)).
  rewrite (key_segments _ _ _ H1 H2), (split_bar_free _ H3). reflexivity.
Qed.

Lemma update_first_match_length u an l1 r l2 :
  MusicAnalyzer.tracks an = (l1 ++ r :: l2)%list ->
  forallb (fun y => negb (MusicAnalyzer.same_track (Track.artist r)
                            (Track.album r) (Track.track r) y)) l1 = true ->
  length (MusicAnalyzer.tracks
            (MusicAnalyzer.updateTrackMetadata (Track.artist r) (Track.album r)
               (Track.track r) u an))
  = length (MusicAnalyzer.tracks an).
Proof.
  intros Ht Hl1. rewrite (update_first_match _ _ _ u an l1 r l2 Ht Hl1), Ht.
  - rewrite !List.length_app. reflexivity.
  - unfold MusicAnalyzer.same_track. now rewrite !String.eqb_refl.
Qed.

Lemma save_keeps_tracks unparse an csv an' :
  MusicAnalyzer.saveToCSV unparse an = Some (csv, an') ->
  MusicAnalyzer.tracks an' = MusicAnalyzer.tracks an.
Proof.
  unfold MusicAnalyzer.saveToCSV. destruct (MusicAnalyzer.enrich _ _); [|discriminate].
  intros H. injection H as _ <-. reflexivity.
Qed.

Lemma save_with_enough_records unparse an :
  (length (MusicAnalyzer.originalData an) <= length (MusicAnalyzer.tracks an))%nat ->
  MusicAnalyzer.saveToCSV unparse an <> None.
Proof.
  intros Hlen. unfold MusicAnalyzer.saveToCSV.
  pose proof (enrich_enough _ _ Hlen) as He.
  destruct (MusicAnalyzer.enrich _ _); [discriminate | congruence].
Qed.

(** X21. The duration loop of the page makes progress.  When the page
    asks for the duration of the song [getNextSongWithoutDuration] found
    in the statistics of its analyzer, no artist, album or track name of
    a record contains the separator ['|'], and the submitted duration is
    not empty, then after [handleDurationSubmit] the shown statistics
    are those of the updated analyzer and exactly one entry less of
    [topTracks] lacks a duration; when the analyzer holds a record for
    every original row, so that [saveToCSV] does not throw, the page
    moves on to the first entry still lacking a duration (or to none). *)
Theorem duration_submit_progress unparse d an song :
  d <> EmptyString ->
  forallb sep_free (MusicAnalyzer.tracks an) = true ->
  Page.getNextSongWithoutDuration (Some (MusicAnalyzer.analyze an)) = Some song ->
  let st' := Page.handleDurationSubmit unparse d (asking an song) in
  exists an',
    Page.analyzer st' = Some an'
    /\ Page.statistics st' = Some (MusicAnalyzer.analyze an')
    /\ (missing_durations (MusicAnalyzer.analyze an') + 1
        = missing_durations (MusicAnalyzer.analyze an))%nat
    /\ ((length (MusicAnalyzer.originalData an) <= length (MusicAnalyzer.tracks an))%nat ->
        Page.currentSong st'
        = Page.getNextSongWithoutDuration (Page.statistics st')).
Proof.
  intros Hd Hsep Hnext st'.
  unfold Page.getNextSongWithoutDuration in Hnext.
  change (Statistics.topTracks (MusicAnalyzer.analyze an))
    with (MusicAnalyzer.getTopTracks an None) in Hnext.
  destruct (List.find _ (MusicAnalyzer.getTopTracks an None)) as [it|] eqn:Ef;
    [|discriminate].
  apply List.find_some in Ef as [Hin Hlack].
  destruct (ranked_entry_record an it Hsep Hin)
    as (r & n & l1 & l2 & -> & Ht & Hl1 & Hnb & Hname).
  assert (Hsong : Page.artist song = Track.artist r
                  /\ Page.album song = Track.album r
                  /\ Page.track song = Track.track r).
  { rewrite Hname in Hnext. injection Hnext as <-.
    cbn [Page.artist Page.album Page.track track_item TopItem.artist TopItem.album
         JS.or_string].
    split; [now destruct (Track.artist r)|]. split; [now destruct (Track.album r)|].
    reflexivity. }
  destruct Hsong as (Ea & Eb & Ec).
  set (u := TrackMetadata.mk (Some d) None None None None).
  set (an1 := MusicAnalyzer.updateTrackMetadata (Track.artist r) (Track.album r)
                (Track.track r) u an).
  assert (Hprog : (missing_durations (MusicAnalyzer.analyze an1) + 1
                   = missing_durations (MusicAnalyzer.analyze an))%nat).
  { apply (one_entry_less lacks_duration u an l1 r l2); try assumption.
    - intros c. cbn [track_item TopItem.duration] in Hlack. exact Hlack.
    - intros c. unfold lacks_duration. cbn. destruct d; [congruence | reflexivity]. }
  pose proof (update_first_match_length u an l1 r l2 Ht Hl1) as Hlen. fold an1 in Hlen.
  subst st'. unfold Page.handleDurationSubmit, asking.
  cbn [Page.currentSong Page.analyzer Page.statistics Page.showDurationInput].
  rewrite Ea, Eb, Ec. fold u. fold an1.
  destruct (MusicAnalyzer.saveToCSV unparse an1) as [[csv an2]|] eqn:Es.
  - exists an2. cbn [Page.analyzer Page.statistics Page.currentSong].
    rewrite (analyze_of_tracks an2 an1 (save_keeps_tracks _ _ _ _ Es)).
    repeat split; try reflexivity. exact Hprog.
  - exists an1. cbn [Page.analyzer Page.statistics Page.currentSong].
    split; [reflexivity|]. split; [reflexivity|]. split; [exact Hprog|].
    intros Hrows. exfalso. revert Es. apply save_with_enough_records.
    rewrite Hlen. exact Hrows.
Qed.

Lemma duration_submit_progress_witness :
  let st' := Page.handleDurationSubmit (fun _ => EmptyString) "120"
               (asking (holding two_rows) (Page.mkSong "A" "X" "T1" EmptyString None)) in
  exists an',
    Page.analyzer st' = Some an'
    /\ Page.statistics st' = Some (MusicAnalyzer.analyze an')
    /\ (missing_durations (MusicAnalyzer.analyze an') + 1
        = missing_durations (MusicAnalyzer.analyze (holding two_rows)))%nat
    /\ ((length (MusicAnalyzer.originalData (holding two_rows))
         <= length (MusicAnalyzer.tracks (holding two_rows)))%nat ->
        Page.currentSong st'
        = Page.getNextSongWithoutDuration (Page.statistics st')).
Proof.
  apply (duration_submit_progress (fun _ => EmptyString) "120" (holding two_rows)
           (Page.mkSong "A" "X" "T1" EmptyString None)).
  - discriminate.
  - reflexivity.
  - vm_compute. reflexivity.
Defined.

(** X22. The genre loop of the page makes progress in the same way:
    when the page asks for the genre of the song
    [getNextSongWithoutGenre] found in the statistics of its analyzer,
    no name of a record contains ['|'] and the submitted genre is not
    empty, then after [handleGenreSubmit] the shown statistics are those
    of the updated analyzer and exactly one entry less of [topTracks]
    lacks a genre; when the analyzer holds a record for every original
    row, so that [saveToCSV] does not throw, the page moves on to the
    first entry still lacking a genre (or to none). *)
Theorem genre_submit_progress unparse genre an song :
  genre <> EmptyString ->
  forallb sep_free (MusicAnalyzer.tracks an) = true ->
  Page.getNextSongWithoutGenre (Some (MusicAnalyzer.analyze an)) = Some song ->
  let st' := Page.handleGenreSubmit unparse genre (asking_genre an song) in
  exists an',
    Page.analyzer st' = Some an'
    /\ Page.statistics st' = Some (MusicAnalyzer.analyze an')
    /\ (missing_genres (MusicAnalyzer.analyze an') + 1
        = missing_genres (MusicAnalyzer.analyze an))%nat
    /\ ((length (MusicAnalyzer.originalData an) <= length (MusicAnalyzer.tracks an))%nat ->
        Page.currentGenreSong st'
        = Page.getNextSongWithoutGenre (Page.statistics st')).
Proof.
  intros Hd Hsep Hnext st'.
  unfold Page.getNextSongWithoutGenre in Hnext.
  change (Statistics.topTracks (MusicAnalyzer.analyze an))
    with (MusicAnalyzer.getTopTracks an None) in Hnext.
  destruct (List.find _ (MusicAnalyzer.getTopTracks an None)) as [it|] eqn:Ef;
    [|discriminate].
  apply List.find_some in Ef as [Hin Hlack].
  destruct (ranked_entry_record an it Hsep Hin)
    as (r & n & l1 & l2 & -> & Ht & Hl1 & Hnb & Hname).
  assert (Hsong : Page.artist song = Track.artist r
                  /\ Page.album song = Track.album r
                  /\ Page.track song = Track.track r).
  { rewrite Hname in Hnext. injection Hnext as <-.
    cbn [Page.artist Page.album Page.track track_item TopItem.artist TopItem.album
         JS.or_string].
    split; [now destruct (Track.artist r)|]. split; [now destruct (Track.album r)|].
    reflexivity. }
  destruct Hsong as (Ea & Eb & Ec).
  set (u := TrackMetadata.mk None (Some genre) None None None).
  set (an1 := MusicAnalyzer.updateTrackMetadata (Track.artist r) (Track.album r)
                (Track.track r) u an).
  assert (Hprog : (missing_genres (MusicAnalyzer.analyze an1) + 1
                   = missing_genres (MusicAnalyzer.analyze an))%nat).
  { apply (one_entry_less lacks_genre u an l1 r l2); try assumption.
    - intros c. cbn [track_item TopItem.genre] in Hlack. exact Hlack.
    - intros c. unfold lacks_genre. cbn. destruct genre; [congruence | reflexivity]. }
  pose proof (update_first_match_length u an l1 r l2 Ht Hl1) as Hlen. fold an1 in Hlen.
  subst st'. unfold Page.handleGenreSubmit, asking_genre.
  cbn [Page.currentGenreSong Page.analyzer Page.statistics Page.showGenreInput].
  rewrite Ea, Eb, Ec. fold u. fold an1.
  destruct (MusicAnalyzer.saveToCSV unparse an1) as [[csv an2]|] eqn:Es.
  - exists an2. cbn [Page.analyzer Page.statistics Page.currentGenreSong].
    rewrite (analyze_of_tracks an2 an1 (save_keeps_tracks _ _ _ _ Es)).
    repeat split; try reflexivity. exact Hprog.
  - exists an1. cbn [Page.analyzer Page.statistics Page.currentGenreSong].
    split; [reflexivity|]. split; [reflexivity|]. split; [exact Hprog|].
    intros Hrows. exfalso. revert Es. apply save_with_enough_records.
    rewrite Hlen. exact Hrows.
Qed.

Lemma genre_submit_progress_witness :
  let st' := Page.handleGenreSubmit (fun _ => EmptyString) "Rock"
               (asking_genre (holding two_rows)
                  (Page.mkSong "A" "X" "T1" EmptyString (Some EmptyString))) in
  exists an',
    Page.analyzer st' = Some an'
    /\ Page.statistics st' = Some (MusicAnalyzer.analyze an')
    /\ (missing_genres (MusicAnalyzer.analyze an') + 1
        = missing_genres (MusicAnalyzer.analyze (holding two_rows)))%nat
    /\ ((length (MusicAnalyzer.originalData (holding two_rows))
         <= length (MusicAnalyzer.tracks (holding two_rows)))%nat ->
        Page.currentGenreSong st'
        = Page.getNextSongWithoutGenre (Page.statistics st')).
Proof.
  apply (genre_submit_progress (fun _ => EmptyString) "Rock" (holding two_rows)
           (Page.mkSong "A" "X" "T1" EmptyString (Some EmptyString))).
  - discriminate.
  - reflexivity.
  - vm_compute. reflexivity.
Defined.
